(** * janus_core.cli

    A shallow embedding of [src/janus_core/cli.py]: the [TyperDict] wrapper,
    the option parser [parse_dict_class], the keyword-dictionary normaliser
    [parse_typer_dicts] and the two commands [singlepoint] and [geomopt].

    Python objects that the module creates, aliases or mutates (lists, dicts
    and [TyperDict] instances) live in an object store indexed by locations;
    a Python variable holds a [val], which is either an immediate value or a
    reference into the store.  Commands run in a small state-and-exception
    monad over the store and a trace of the calls made to the collaborators
    ([SinglePoint], [SinglePoint.run], [optimize]). *)

From Stdlib Require Import ZArith String Ascii List Floats.PrimFloat.
From stdpp Require Import gmap strings list fin_maps.

Set Warnings "-register-all,-inexact-float".

Local Open Scope string_scope.
Local Open Scope list_scope.

(** ** Values and objects *)

Definition loc := positive.

(** Immediate values and references.  [VOpaque] is a handle to an object
    owned by a collaborator (for instance the [ase.Atoms] structure of a
    session); this module only passes such handles on. *)
Inductive val : Type :=
| VNone
| VBool (b : bool)
| VInt (n : Z)
| VFloat (f : float)
| VStr (s : string)
| VBytes (s : string)
| VPath (p : string)
| VTuple (xs : list val)
| VOpaque (id : nat)
| VRef (l : loc).

(** Objects with identity, held in the store. [OTyperDict value] is an
    instance of the class [TyperDict], whose only attribute is [value]. *)
Inductive obj : Type :=
| OList (items : list val)
| OSet (items : list val)
| ODict (items : list (val * val))
| OTyperDict (value : val).

(** ** Exceptions *)

(** An f-string or a plain message: literal text and formatted values.
    The module raises Python's [ValueError] for every configuration error
    (the specification's [ConfigurationError]). *)
Inductive fragment : Type :=
| Lit (s : string)
| Fmt (v : val).

Inductive exn : Type :=
| ValueError (msg : list fragment)
| TypeError (msg : list fragment)
| AttributeError (msg : list fragment)
| IndexError (msg : list fragment)
| SyntaxError (msg : list fragment)
| SystemError (msg : list fragment)
| CollaboratorError (name : string) (msg : list fragment).

(** ** Calls to the collaborators *)

Record SinglePoint_kwargs : Type := {
  sp_struct_path : val;
  sp_architecture : val;
  sp_device : val;
  sp_read_kwargs : val;
  sp_calc_kwargs : val;
  sp_log_kwargs : val
}.

Record run_kwargs : Type := {
  run_properties : val;
  run_write_results : val;
  run_write_kwargs : val
}.

(** [opt_unpacked] holds the keyword arguments that the call site unpacks
    from [**fully_opt_dict]. *)
Record optimize_kwargs : Type := {
  opt_struct : val;
  opt_fmax : val;
  opt_steps : val;
  opt_filter_kwargs : val;
  opt_unpacked : list (val * val);
  opt_opt_kwargs : val;
  opt_write_results : val;
  opt_write_kwargs : val;
  opt_traj_kwargs : val;
  opt_log_kwargs : val
}.

(** A Single-Point Session as far as this module reads it: [s_point.struct]. *)
Record session : Type := { struct : val }.

Inductive event : Type :=
| CallSinglePoint (k : SinglePoint_kwargs)
| CallRun (self : session) (k : run_kwargs)
| CallOptimize (k : optimize_kwargs).

(** ** The state-and-exception monad *)

Record state : Type := { heap : gmap loc obj; trace : list event }.

Inductive result (A : Type) : Type :=
| Ok (a : A)
| Raise (e : exn).
Arguments Ok {A} a.
Arguments Raise {A} e.

Definition M (A : Type) : Type := state -> result A * state.

Definition ret {A : Type} (a : A) : M A := fun st => (Ok a, st).

Definition bind {A B : Type} (m : M A) (k : A -> M B) : M B :=
  fun st =>
    match m st with
    | (Ok a, st') => k a st'
    | (Raise e, st') => (Raise e, st')
    end.

Definition raise {A : Type} (e : exn) : M A := fun st => (Raise e, st).

Declare Scope py_scope.
Delimit Scope py_scope with py.
Notation "x <- m ;; k" := (bind m (fun x => k))
  (at level 100, m at next level, right associativity) : py_scope.
Notation "m ;;; k" := (bind m (fun _ => k))
  (at level 100, right associativity) : py_scope.
Local Open Scope py_scope.

Definition get_heap : M (gmap loc obj) := fun st => (Ok (heap st), st).

Definition put_obj (l : loc) (o : obj) : M unit :=
  fun st => (Ok tt, {| heap := <[l := o]> (heap st); trace := trace st |}).

Definition emit (e : event) : M unit :=
  fun st => (Ok tt, {| heap := heap st; trace := trace st ++ [e] |}).

Definition lift {A : Type} (r : result A) : M A := fun st => (r, st).

(** ** Primitive operations of the language *)

(** Object creation: the new object gets a location not yet in the store. *)
Definition alloc (o : obj) : M val :=
  fun st =>
    let l := fresh (dom (heap st)) in
    (Ok (VRef l), {| heap := <[l := o]> (heap st); trace := trace st |}).

Definition new_list (items : list val) : M val := alloc (OList items).
Definition new_dict (items : list (val * val)) : M val := alloc (ODict items).

(** Reading the object behind a reference.  A reference outside the store
    cannot arise in Python; the model reports it as a [SystemError]. *)
Definition deref (l : loc) : M obj :=
  h <- get_heap ;;
  match h !! l with
  | Some o => ret o
  | None => raise (SystemError [Lit "dangling reference"])
  end.

Definition nonempty {A : Type} (xs : list A) : bool :=
  match xs with [] => false | _ :: _ => true end.

(** Truth value of an object, as [if x] and [x if c else y] compute it.
    [TyperDict] defines neither [__bool__] nor [__len__], so its instances
    are always true. *)
Definition truthy (v : val) : M bool :=
  match v with
  | VNone => ret false
  | VBool b => ret b
  | VInt n => ret (negb (n =? 0)%Z)
  | VFloat f => ret (negb (PrimFloat.eqb f 0%float))
  | VStr s => ret (negb (String.eqb s EmptyString))
  | VBytes s => ret (negb (String.eqb s EmptyString))
  | VPath _ => ret true
  | VTuple xs => ret (nonempty xs)
  | VOpaque _ => ret true
  | VRef l =>
      o <- deref l ;;
      match o with
      | OList xs => ret (nonempty xs)
      | OSet xs => ret (nonempty xs)
      | ODict kvs => ret (nonempty kvs)
      | OTyperDict _ => ret true
      end
  end.

(** [isinstance(v, dict)]. *)
Definition isinstance_dict (v : val) : M bool :=
  match v with
  | VRef l =>
      o <- deref l ;;
      match o with
      | ODict _ => ret true
      | _ => ret false
      end
  | _ => ret false
  end.

(** [v.value]: only [TyperDict] instances have the attribute. *)
Definition getattr_value (v : val) : M val :=
  match v with
  | VRef l =>
      o <- deref l ;;
      match o with
      | OTyperDict value => ret value
      | _ => raise (AttributeError [Lit "object has no attribute 'value'"])
      end
  | _ => raise (AttributeError [Lit "object has no attribute 'value'"])
  end.

(** The list iterator behind [for ... in enumerate(xs)]: at position [i] it
    yields [xs[i]], or stops when [i] is past the current end of the list. *)
Definition list_iter_next (xs : val) (i : nat) : M (option val) :=
  match xs with
  | VRef l =>
      o <- deref l ;;
      match o with
      | OList items => ret (items !! i)
      | _ => raise (TypeError [Lit "object is not a list"])
      end
  | _ => raise (TypeError [Lit "object is not iterable"])
  end.

(** [xs[i]] for a list [xs]. *)
Definition list_getitem (xs : val) (i : nat) : M val :=
  match xs with
  | VRef l =>
      o <- deref l ;;
      match o with
      | OList items =>
          match items !! i with
          | Some v => ret v
          | None => raise (IndexError [Lit "list index out of range"])
          end
      | _ => raise (TypeError [Lit "object is not a list"])
      end
  | _ => raise (TypeError [Lit "object is not subscriptable"])
  end.

(** [xs[i] = v] for a list [xs]: in place, and an error out of range. *)
Definition list_setitem (xs : val) (i : nat) (v : val) : M unit :=
  match xs with
  | VRef l =>
      o <- deref l ;;
      match o with
      | OList items =>
          if decide (i < length items)%nat
          then put_obj l (OList (<[i := v]> items))
          else raise (IndexError [Lit "list assignment index out of range"])
      | _ => raise (TypeError [Lit "object is not a list"])
      end
  | _ => raise (TypeError [Lit "object does not support item assignment"])
  end.

(** Dictionaries keep their entries in insertion order.  The module only
    uses string keys of its own; a stored key equals the string [k] exactly
    when it is the string value [VStr k]. *)
Definition key_is (k : string) (key : val) : bool :=
  match key with
  | VStr s => String.eqb s k
  | _ => false
  end.

Definition entries_contain (k : string) (kvs : list (val * val)) : bool :=
  existsb (fun kv => key_is k (fst kv)) kvs.

Fixpoint entries_set (k : string) (v : val) (kvs : list (val * val))
  : list (val * val) :=
  match kvs with
  | [] => [(VStr k, v)]
  | (key, old) :: rest =>
      if key_is k key then (key, v) :: rest
      else (key, old) :: entries_set k v rest
  end.

Fixpoint entries_get (k : string) (kvs : list (val * val)) : option val :=
  match kvs with
  | [] => None
  | (key, v) :: rest => if key_is k key then Some v else entries_get k rest
  end.

(** [k in d] for a dict [d].  The commands apply the operator to a
    normalised mapping only; any other operand is outside this model and is
    reported as a [TypeError]. *)
Definition dict_contains (k : string) (d : val) : M bool :=
  match d with
  | VRef l =>
      o <- deref l ;;
      match o with
      | ODict kvs => ret (entries_contain k kvs)
      | _ => raise (TypeError [Lit "argument is not a dict"])
      end
  | _ => raise (TypeError [Lit "argument is not a dict"])
  end.

(** [d[k] = v] for a dict [d]: in place. *)
Definition dict_setitem (d : val) (k : string) (v : val) : M unit :=
  match d with
  | VRef l =>
      o <- deref l ;;
      match o with
      | ODict kvs => put_obj l (ODict (entries_set k v kvs))
      | _ => raise (TypeError [Lit "object does not support item assignment"])
      end
  | _ => raise (TypeError [Lit "object does not support item assignment"])
  end.

(** The items of a dict, as [**d] unpacks them at a call site. *)
Definition dict_items (d : val) : M (list (val * val)) :=
  match d with
  | VRef l =>
      o <- deref l ;;
      match o with
      | ODict kvs => ret kvs
      | _ => raise (TypeError [Lit "argument after ** must be a mapping"])
      end
  | _ => raise (TypeError [Lit "argument after ** must be a mapping"])
  end.

(** The length of the list behind [v], read off a store. *)
Definition list_length (h : gmap loc obj) (v : val) : nat :=
  match v with
  | VRef l =>
      match h !! l with
      | Some (OList items) => length items
      | _ => O
      end
  | _ => O
  end.

(** Destructuring assignment [[a, b, c] = xs] and [[a, b, c, d] = xs]. *)
Definition unpack3 (xs : val) : M (val * val * val) :=
  match xs with
  | VRef l =>
      o <- deref l ;;
      match o with
      | OList [a; b; c] => ret (a, b, c)
      | OList _ => raise (ValueError [Lit "wrong number of values to unpack"])
      | _ => raise (TypeError [Lit "cannot unpack object"])
      end
  | _ => raise (TypeError [Lit "cannot unpack object"])
  end.

Definition unpack4 (xs : val) : M (val * val * val * val) :=
  match xs with
  | VRef l =>
      o <- deref l ;;
      match o with
      | OList [a; b; c; d] => ret (a, b, c, d)
      | OList _ => raise (ValueError [Lit "wrong number of values to unpack"])
      | _ => raise (TypeError [Lit "cannot unpack object"])
      end
  | _ => raise (TypeError [Lit "cannot unpack object"])
  end.

(** ** Decoded literals *)

(** What [ast.literal_eval] hands back, described as a tree: the decoded
    object and, for containers, the objects it holds (dictionary entries in
    insertion order, one entry per key). *)
Inductive literal : Type :=
| LNone
| LBool (b : bool)
| LInt (n : Z)
| LFloat (f : float)
| LStr (s : string)
| LBytes (s : string)
| LTuple (xs : list literal)
| LList (xs : list literal)
| LSet (xs : list literal)
| LDict (kvs : list (literal * literal)).

(** [mapM f xs]: run [f] on the elements of [xs], left to right. *)
Definition mapM {A B : Type} (f : A -> M B) : list A -> M (list B) :=
  fix go (xs : list A) : M (list B) :=
    match xs with
    | [] => ret []
    | x :: rest => y <- f x ;; ys <- go rest ;; ret (y :: ys)
    end.

(** Creating the decoded object in the store: lists, sets and dicts are new
    objects, everything else is an immediate value. *)
Fixpoint build (lit : literal) : M val :=
  match lit with
  | LNone => ret VNone
  | LBool b => ret (VBool b)
  | LInt n => ret (VInt n)
  | LFloat f => ret (VFloat f)
  | LStr s => ret (VStr s)
  | LBytes s => ret (VBytes s)
  | LTuple xs => vs <- mapM build xs ;; ret (VTuple vs)
  | LList xs => vs <- mapM build xs ;; new_list vs
  | LSet xs => vs <- mapM build xs ;; alloc (OSet vs)
  | LDict kvs =>
      es <- mapM (fun kv : literal * literal =>
                    let '(k, v) := kv in
                    k' <- build k ;; v' <- build v ;; ret (k', v')) kvs ;;
      new_dict es
  end.

(** ** class TyperDict *)

(** [TyperDict(value)]: a new instance whose attribute [value] is [value]. *)
Definition TyperDict (value : val) : M val := alloc (OTyperDict value).

(** [TyperDict.__str__]. *)
Definition TyperDict_str (self : val) : M (list fragment) :=
  value <- getattr_value self ;;
  ret [Lit "<TyperDict: value="; Fmt value; Lit ">"].

(** ** parse_typer_dicts *)

(** The body of [for i, typer_dict in enumerate(typer_dicts)], from
    position [i] on.  The iterator is asked for the next element on every
    round; [fuel] bounds the number of rounds. *)
Fixpoint parse_typer_dicts_loop (fuel : nat) (typer_dicts : val) (i : nat)
  : M unit :=
  match fuel with
  | O => raise (SystemError [Lit "out of fuel"])
  | S fuel' =>
      nxt <- list_iter_next typer_dicts i ;;
      match nxt with
      | None => ret tt
      | Some typer_dict =>
          c <- truthy typer_dict ;;
          v <- (if c then getattr_value typer_dict else new_dict []) ;;
          list_setitem typer_dicts i v ;;;
          cur <- list_getitem typer_dicts i ;;
          is_dict <- isinstance_dict cur ;;
          if negb is_dict
          then
            bad <- list_getitem typer_dicts i ;;
            raise (ValueError [Fmt bad; Lit " must be passed as a dictionary"])
          else parse_typer_dicts_loop fuel' typer_dicts (S i)
      end
  end.

(** [parse_typer_dicts(typer_dicts)].  The loop never changes the length of
    the list, so one round per element and one more for the iterator to
    stop are enough fuel. *)
Definition parse_typer_dicts (typer_dicts : val) : M val :=
  fun st =>
    (parse_typer_dicts_loop (S (list_length (heap st) typer_dicts))
       typer_dicts 0 ;;;
     ret typer_dicts) st.

(** ** The commands *)

Record singlepoint_args : Type := {
  s_struct_path : val;
  s_architecture : val;
  s_device : val;
  s_properties : val;
  s_read_kwargs : val;
  s_calc_kwargs : val;
  s_write_kwargs : val;
  s_log_file : val
}.

Record geomopt_args : Type := {
  struct_path : val;
  fmax : val;
  steps : val;
  architecture : val;
  device : val;
  fully_opt : bool;
  vectors_only : bool;
  read_kwargs : val;
  calc_kwargs : val;
  opt_kwargs : val;
  write_kwargs : val;
  traj_file : val;
  log_file : val
}.

Section Commands.

(** The standard library's [ast.literal_eval]: the decoded literal, or
    the exception it raises on text that is not a literal. *)
Variable literal_eval : string -> result literal.

(** The collaborators.  What they answer may depend on their arguments
    and on the objects these refer to; the model records each call and
    lets the collaborator either return or raise.  They are taken not to
    assign to the objects of this module. *)
Variable SinglePoint_impl : SinglePoint_kwargs -> gmap loc obj -> result session.
Variable run_impl : session -> run_kwargs -> gmap loc obj -> result val.
Variable optimize_impl : optimize_kwargs -> gmap loc obj -> result val.

Definition parse_dict_class (value : string) : M val :=
  lit <- lift (literal_eval value) ;;
  decoded <- build lit ;;
  TyperDict decoded.

Definition SinglePoint (k : SinglePoint_kwargs) : M session :=
  emit (CallSinglePoint k) ;;;
  h <- get_heap ;;
  lift (SinglePoint_impl k h).

Definition SinglePoint_run (self : session) (k : run_kwargs) : M val :=
  emit (CallRun self k) ;;;
  h <- get_heap ;;
  lift (run_impl self k h).

Definition optimize (k : optimize_kwargs) : M val :=
  emit (CallOptimize k) ;;;
  h <- get_heap ;;
  lift (optimize_impl k h).

Definition singlepoint (a : singlepoint_args) : M unit :=
  args <- new_list [s_read_kwargs a; s_calc_kwargs a; s_write_kwargs a] ;;
  parsed <- parse_typer_dicts args ;;
  parts <- unpack3 parsed ;;
  let '(read_kwargs, calc_kwargs, write_kwargs) := parts in
  log_kwargs <- new_dict [(VStr "filename", s_log_file a);
                          (VStr "filemode", VStr "w")] ;;
  s_point <- SinglePoint {| sp_struct_path := s_struct_path a;
                            sp_architecture := s_architecture a;
                            sp_device := s_device a;
                            sp_read_kwargs := read_kwargs;
                            sp_calc_kwargs := calc_kwargs;
                            sp_log_kwargs := log_kwargs |} ;;
  SinglePoint_run s_point {| run_properties := s_properties a;
                             run_write_results := VBool true;
                             run_write_kwargs := write_kwargs |} ;;;
  ret tt.

Definition geomopt (a : geomopt_args) : M unit :=
  args <- new_list [read_kwargs a; calc_kwargs a; opt_kwargs a;
                    write_kwargs a] ;;
  parsed <- parse_typer_dicts args ;;
  parts <- unpack4 parsed ;;
  let '(read_kwargs, calc_kwargs, opt_kwargs, write_kwargs) := parts in
  if negb (fully_opt a) && vectors_only a
  then raise (ValueError [Lit "--vectors-only requires --fully-opt to be set"])
  else
    (* Set up single point calculator *)
    log_kwargs <- new_dict [(VStr "filename", log_file a);
                            (VStr "filemode", VStr "w")] ;;
    s_point <- SinglePoint {| sp_struct_path := struct_path a;
                              sp_architecture := architecture a;
                              sp_device := device a;
                              sp_read_kwargs := read_kwargs;
                              sp_calc_kwargs := calc_kwargs;
                              sp_log_kwargs := log_kwargs |} ;;
    (* Check trajectory not duplicated *)
    duplicated <- dict_contains "trajectory" opt_kwargs ;;
    if duplicated
    then raise (ValueError
                  [Lit "'trajectory' must be passed through the --traj option"])
    else
      (* Set same name to overwrite saved binary with xyz *)
      given <- truthy (traj_file a) ;;
      dict_setitem opt_kwargs "trajectory"
        (if given then traj_file a else VNone) ;;;
      given <- truthy (traj_file a) ;;
      traj_kwargs <- (if given
                      then new_dict [(VStr "filename", traj_file a)]
                      else ret VNone) ;;
      filter_kwargs <- (if fully_opt a
                        then new_dict [(VStr "hydrostatic_strain",
                                        VBool (vectors_only a))]
                        else ret VNone) ;;
      (* Use default filter if passed --fully-opt, otherwise override
         with None *)
      fully_opt_dict <- new_dict (if fully_opt a then []
                                  else [(VStr "filter_func", VNone)]) ;;
      (* Run geometry optimization and save output structure *)
      unpacked <- dict_items fully_opt_dict ;;
      log_kwargs <- new_dict [(VStr "filename", log_file a);
                              (VStr "filemode", VStr "a")] ;;
      optimize {| opt_struct := struct s_point;
                  opt_fmax := fmax a;
                  opt_steps := steps a;
                  opt_filter_kwargs := filter_kwargs;
                  opt_unpacked := unpacked;
                  opt_opt_kwargs := opt_kwargs;
                  opt_write_results := VBool true;
                  opt_write_kwargs := write_kwargs;
                  opt_traj_kwargs := traj_kwargs;
                  opt_log_kwargs := log_kwargs |} ;;;
      ret tt.

End Commands.

(** ** The commands, with collaborators that may write to the store

    The code of [SinglePoint], of its [run] and of [optimize] is outside
    this module, and the commands hand them the caller's own dicts.  Here
    a collaborator answers with its result and with the store it leaves:
    it may have changed any object, also when it raises.  The commands are
    the same line for line. *)
Module Mutating.

(** A call that may write: the callee's result, in the store it leaves. *)
Definition call {A : Type} (f : gmap loc obj -> result A * gmap loc obj) : M A :=
  fun st => ((f (heap st)).1, {| heap := (f (heap st)).2; trace := trace st |}).

Section Commands.

Variable SinglePoint_impl :
  SinglePoint_kwargs -> gmap loc obj -> result session * gmap loc obj.
Variable run_impl :
  session -> run_kwargs -> gmap loc obj -> result val * gmap loc obj.
Variable optimize_impl :
  optimize_kwargs -> gmap loc obj -> result val * gmap loc obj.

Definition SinglePoint (k : SinglePoint_kwargs) : M session :=
  emit (CallSinglePoint k) ;;;
  call (SinglePoint_impl k).

Definition SinglePoint_run (self : session) (k : run_kwargs) : M val :=
  emit (CallRun self k) ;;;
  call (run_impl self k).

Definition optimize (k : optimize_kwargs) : M val :=
  emit (CallOptimize k) ;;;
  call (optimize_impl k).

Definition singlepoint (a : singlepoint_args) : M unit :=
  args <- new_list [s_read_kwargs a; s_calc_kwargs a; s_write_kwargs a] ;;
  parsed <- parse_typer_dicts args ;;
  parts <- unpack3 parsed ;;
  let '(read_kwargs, calc_kwargs, write_kwargs) := parts in
  log_kwargs <- new_dict [(VStr "filename", s_log_file a);
                          (VStr "filemode", VStr "w")] ;;
  s_point <- SinglePoint {| sp_struct_path := s_struct_path a;
                            sp_architecture := s_architecture a;
                            sp_device := s_device a;
                            sp_read_kwargs := read_kwargs;
                            sp_calc_kwargs := calc_kwargs;
                            sp_log_kwargs := log_kwargs |} ;;
  SinglePoint_run s_point {| run_properties := s_properties a;
                             run_write_results := VBool true;
                             run_write_kwargs := write_kwargs |} ;;;
  ret tt.

Definition geomopt (a : geomopt_args) : M unit :=
  args <- new_list [read_kwargs a; calc_kwargs a; opt_kwargs a;
                    write_kwargs a] ;;
  parsed <- parse_typer_dicts args ;;
  parts <- unpack4 parsed ;;
  let '(read_kwargs, calc_kwargs, opt_kwargs, write_kwargs) := parts in
  if negb (fully_opt a) && vectors_only a
  then raise (ValueError [Lit "--vectors-only requires --fully-opt to be set"])
  else
    (* Set up single point calculator *)
    log_kwargs <- new_dict [(VStr "filename", log_file a);
                            (VStr "filemode", VStr "w")] ;;
    s_point <- SinglePoint {| sp_struct_path := struct_path a;
                              sp_architecture := architecture a;
                              sp_device := device a;
                              sp_read_kwargs := read_kwargs;
                              sp_calc_kwargs := calc_kwargs;
                              sp_log_kwargs := log_kwargs |} ;;
    (* Check trajectory not duplicated *)
    duplicated <- dict_contains "trajectory" opt_kwargs ;;
    if duplicated
    then raise (ValueError
                  [Lit "'trajectory' must be passed through the --traj option"])
    else
      (* Set same name to overwrite saved binary with xyz *)
      given <- truthy (traj_file a) ;;
      dict_setitem opt_kwargs "trajectory"
        (if given then traj_file a else VNone) ;;;
      given <- truthy (traj_file a) ;;
      traj_kwargs <- (if given
                      then new_dict [(VStr "filename", traj_file a)]
                      else ret VNone) ;;
      filter_kwargs <- (if fully_opt a
                        then new_dict [(VStr "hydrostatic_strain",
                                        VBool (vectors_only a))]
                        else ret VNone) ;;
      (* Use default filter if passed --fully-opt, otherwise override
         with None *)
      fully_opt_dict <- new_dict (if fully_opt a then []
                                  else [(VStr "filter_func", VNone)]) ;;
      (* Run geometry optimization and save output structure *)
      unpacked <- dict_items fully_opt_dict ;;
      log_kwargs <- new_dict [(VStr "filename", log_file a);
                              (VStr "filemode", VStr "a")] ;;
      optimize {| opt_struct := struct s_point;
                  opt_fmax := fmax a;
                  opt_steps := steps a;
                  opt_filter_kwargs := filter_kwargs;
                  opt_unpacked := unpacked;
                  opt_opt_kwargs := opt_kwargs;
                  opt_write_results := VBool true;
                  opt_write_kwargs := write_kwargs;
                  opt_traj_kwargs := traj_kwargs;
                  opt_log_kwargs := log_kwargs |} ;;;
      ret tt.

End Commands.

(** A collaborator that does not write: it leaves the store it found. *)
Definition reading {K A : Type} (f : K -> gmap loc obj -> result A)
  : K -> gmap loc obj -> result A * gmap loc obj :=
  fun k h => (f k h, h).

End Mutating.

(** ** A decoder for a fragment of the literal syntax

    [literal_eval] is a parameter of the development.  To run the commands
    on concrete command lines, [MiniLiteral.literal_eval] decodes a fragment
    of Python's literal syntax: [None], [True], [False], decimal integers
    without leading zeros, quoted strings of printable characters without
    escapes, list displays, and dict displays whose keys are distinct
    strings, all without trailing commas.  Text outside the fragment is
    rejected. *)
Module MiniLiteral.

Definition is_digit (c : ascii) : bool :=
  let n := nat_of_ascii c in (48 <=? n)%nat && (n <=? 57)%nat.

Definition dquote : ascii := ascii_of_nat 34.

Definition digit_value (c : ascii) : Z := Z.of_nat (nat_of_ascii c - 48).

Fixpoint skip_ws (s : list ascii) : list ascii :=
  match s with
  | c :: rest => if Ascii.eqb c " " then skip_ws rest else s
  | [] => []
  end.

Fixpoint digits (acc : Z) (s : list ascii) : Z * list ascii :=
  match s with
  | c :: rest =>
      if is_digit c then digits (10 * acc + digit_value c) rest else (acc, s)
  | [] => (acc, [])
  end.

Fixpoint quoted (q : ascii) (s : list ascii) : option (string * list ascii) :=
  match s with
  | [] => None
  | c :: rest =>
      if Ascii.eqb c q then Some (EmptyString, rest)
      else if Ascii.eqb c "\" || (nat_of_ascii c <? 32)%nat then None
      else match quoted q rest with
           | Some (body, rest') => Some (String c body, rest')
           | None => None
           end
  end.

(** A decimal integer of the fragment: a single digit, or digits that do
    not start with zero. *)
Definition plain_integer (s : list ascii) : bool :=
  match s with
  | c :: d :: _ => negb (Ascii.eqb c "0" && is_digit d)
  | _ => true
  end.

Definition string_key (kv : literal * literal) : option string :=
  match kv.1 with
  | LStr k => Some k
  | _ => None
  end.

(** The keys of a dict display of the fragment: strings, all different. *)
Fixpoint distinct_keys (seen : list string) (kvs : list (literal * literal))
  : bool :=
  match kvs with
  | [] => true
  | kv :: rest =>
      match string_key kv with
      | Some k =>
          negb (existsb (String.eqb k) seen) && distinct_keys (k :: seen) rest
      | None => false
      end
  end.

Definition keyword (w : string) (s : list ascii) : option (list ascii) :=
  let k := list_ascii_of_string w in
  if decide (take (length k) s = k) then Some (drop (length k) s) else None.

Fixpoint value (fuel : nat) (s : list ascii) : option (literal * list ascii) :=
  match fuel with
  | O => None
  | S fuel' =>
      match skip_ws s with
      | [] => None
      | c :: rest =>
          if Ascii.eqb c "[" then
            match skip_ws rest with
            | "]"%char :: rest' => Some (LList [], rest')
            | _ =>
                match items fuel' rest with
                | Some (xs, rest') => Some (LList xs, rest')
                | None => None
                end
            end
          else if Ascii.eqb c "{" then
            match skip_ws rest with
            | "}"%char :: rest' => Some (LDict [], rest')
            | _ =>
                match entries fuel' rest with
                | Some (kvs, rest') =>
                    if distinct_keys [] kvs then Some (LDict kvs, rest')
                    else None
                | None => None
                end
            end
          else if Ascii.eqb c "'" || Ascii.eqb c dquote then
            match quoted c rest with
            | Some (body, rest') => Some (LStr body, rest')
            | None => None
            end
          else if Ascii.eqb c "-" then
            match rest with
            | d :: _ =>
                if is_digit d && plain_integer rest
                then let '(n, rest') := digits 0 rest in Some (LInt (- n), rest')
                else None
            | [] => None
            end
          else if is_digit c then
            if plain_integer (c :: rest)
            then let '(n, rest') := digits 0 (c :: rest) in Some (LInt n, rest')
            else None
          else
            match keyword "None" (c :: rest) with
            | Some rest' => Some (LNone, rest')
            | None =>
                match keyword "True" (c :: rest) with
                | Some rest' => Some (LBool true, rest')
                | None =>
                    match keyword "False" (c :: rest) with
                    | Some rest' => Some (LBool false, rest')
                    | None => None
                    end
                end
            end
      end
  end
with items (fuel : nat) (s : list ascii) : option (list literal * list ascii) :=
  match fuel with
  | O => None
  | S fuel' =>
      match value fuel' s with
      | Some (x, rest) =>
          match skip_ws rest with
          | "]"%char :: rest' => Some ([x], rest')
          | ","%char :: rest' =>
              match items fuel' rest' with
              | Some (xs, rest'') => Some (x :: xs, rest'')
              | None => None
              end
          | _ => None
          end
      | None => None
      end
  end
with entries (fuel : nat) (s : list ascii)
  : option (list (literal * literal) * list ascii) :=
  match fuel with
  | O => None
  | S fuel' =>
      match value fuel' s with
      | Some (k, rest) =>
          match skip_ws rest with
          | ":"%char :: rest1 =>
              match value fuel' rest1 with
              | Some (v, rest2) =>
                  match skip_ws rest2 with
                  | "}"%char :: rest' => Some ([(k, v)], rest')
                  | ","%char :: rest' =>
                      match entries fuel' rest' with
                      | Some (kvs, rest'') => Some ((k, v) :: kvs, rest'')
                      | None => None
                      end
                  | _ => None
                  end
              | None => None
              end
          | _ => None
          end
      | None => None
      end
  end.

Definition literal_eval (text : string) : result literal :=
  let s := list_ascii_of_string text in
  match value (S (length s)) s with
  | Some (lit, rest) =>
      match skip_ws rest with
      | [] => Ok lit
      | _ :: _ => Raise (SyntaxError [Lit "invalid syntax"])
      end
  | None => Raise (SyntaxError [Lit "invalid syntax"])
  end.

End MiniLiteral.

(** * Vocabulary of the specifications *)

(** [v] is a dict created after [h0], with entries [kvs] in [h']. *)
Definition new_dict_at (h0 h' : gmap loc obj) (v : val) (kvs : list (val * val))
  : Prop :=
  exists l, v = VRef l /\ h0 !! l = None /\ h' !! l = Some (ODict kvs).

(** [is_dict h v]: [v] refers to a dict of the store [h]. *)
Definition is_dict (h : gmap loc obj) (v : val) : bool :=
  match v with
  | VRef l => match h !! l with Some (ODict _) => true | _ => false end
  | _ => false
  end.

(** [closed h v]: a reference [v] points into the store [h]. *)
Definition closed (h : gmap loc obj) (v : val) : bool :=
  match v with
  | VRef l => bool_decide (is_Some (h !! l))
  | _ => true
  end.

(** An optional [TyperDict]: [None], or an instance wrapping a value of
    the store. *)
Definition optional_TyperDict (h : gmap loc obj) (v : val) : bool :=
  match v with
  | VNone => true
  | VRef l =>
      match h !! l with
      | Some (OTyperDict value) => closed h value
      | _ => false
      end
  | _ => false
  end.

(** The error of the normaliser: the f-string of the source, formatted
    from the value that is not a dict. *)
Definition must_be_dict (v : val) : exn :=
  ValueError [Fmt v; Lit " must be passed as a dictionary"].

(** Every object of [h] other than the one at [l] is still there in [h']. *)
Definition preserved_except (l : loc) (h h' : gmap loc obj) : Prop :=
  forall l' o, l' <> l -> h !! l' = Some o -> h' !! l' = Some o.

(** [h] is a later store of a run that started in [h0] and has only
    created objects and assigned to positions of the list at [l]. *)
Definition grown (l : loc) (h0 h : gmap loc obj) : Prop :=
  preserved_except l h0 h /\ dom h0 ⊆ dom h /\
  (exists items0, h0 !! l = Some (OList items0)) /\
  (exists items, h !! l = Some (OList items)).

(** What the normaliser leaves at a position that held [x]: a new empty
    dict for [None], the wrapped dict for a [TyperDict]. *)
Definition normalised (h h' : gmap loc obj) (x y : val) : Prop :=
  match x with
  | VNone => exists d, y = VRef d /\ h !! d = None /\ h' !! d = Some (ODict [])
  | VRef t => h !! t = Some (OTyperDict y) /\ is_dict h y = true
  | _ => False
  end.

(** [x] is [None] or a [TyperDict] that wraps a dict. *)
Definition acceptable (h : gmap loc obj) (x : val) : bool :=
  match x with
  | VNone => true
  | VRef t =>
      match h !! t with
      | Some (OTyperDict value) => is_dict h value
      | _ => false
      end
  | _ => false
  end.

(** What a run of the loop over the elements [suffix] (the positions from
    [length prefix] on) ends in, relative to the store [h0] in which the
    elements were well formed. *)
Definition loop_outcome (l : loc) (h0 h' : gmap loc obj)
    (prefix suffix : list val) (r : result unit) : Prop :=
  (r = Ok tt /\
   exists done, h' !! l = Some (OList (prefix ++ done)) /\
                Forall2 (normalised h0 h') suffix done) \/
  (exists i t v,
      r = Raise (must_be_dict v) /\
      suffix !! i = Some (VRef t) /\
      h0 !! t = Some (OTyperDict v) /\
      is_dict h0 v = false /\
      Forall (fun x => acceptable h0 x = true) (take i suffix)).

(** A normalised position holds a dict, and the dict is the one the caller
    wrapped (same object, same entries) or a new empty one. *)
Definition resolved (h h' : gmap loc obj) (x y : val) : Prop :=
  exists d kvs,
    y = VRef d /\ h' !! d = Some (ODict kvs) /\
    match x with
    | VNone => h !! d = None /\ kvs = []
    | VRef t => h !! t = Some (OTyperDict (VRef d)) /\ h !! d = Some (ODict kvs)
    | _ => False
    end.

(** The two errors of [geomopt]'s own validation. *)
Definition vectors_only_error : exn :=
  ValueError [Lit "--vectors-only requires --fully-opt to be set"].

Definition duplicated_trajectory_error : exn :=
  ValueError [Lit "'trajectory' must be passed through the --traj option"].

(** The four dictionary options of [geomopt], in the order of the list
    display handed to the normaliser. *)
Definition kwargs_of (a : geomopt_args) : list val :=
  [read_kwargs a; calc_kwargs a; opt_kwargs a; write_kwargs a].

(** [--traj]: absent ([None]) or a string. *)
Definition optional_str (v : val) : bool :=
  match v with
  | VNone | VStr _ => true
  | _ => false
  end.

(** [if traj_file]: a string that is not empty. *)
Definition supplied (v : val) : bool :=
  match v with
  | VStr s => negb (String.eqb s EmptyString)
  | _ => false
  end.

(** The arguments typer hands to [geomopt]: every dictionary option is
    [None] or a [TyperDict] made by the parser, [--traj] is [None] or a
    string. *)
Definition well_formed (h : gmap loc obj) (a : geomopt_args) : Prop :=
  Forall (fun x => optional_TyperDict h x = true) (kwargs_of a) /\
  optional_str (traj_file a) = true.

(** The dict display [{"filename": log_file, "filemode": mode}]. *)
Definition log_entries (log_file : val) (mode : string) : list (val * val) :=
  [(VStr "filename", log_file); (VStr "filemode", VStr mode)].

(** The three dictionary options of [singlepoint], in the order of the
    list display handed to the normaliser. *)
Definition s_kwargs_of (a : singlepoint_args) : list val :=
  [s_read_kwargs a; s_calc_kwargs a; s_write_kwargs a].

(** ** Every way a command can end *)

Section Outcomes.

Variable SinglePoint_impl : SinglePoint_kwargs -> gmap loc obj -> result session.
Variable run_impl : session -> run_kwargs -> gmap loc obj -> result val.
Variable optimize_impl : optimize_kwargs -> gmap loc obj -> result val.

(** The point at which [geomopt] builds the session: normalisation gave
    the four mappings in the store [hn], the flags are compatible, and the
    log configuration is a new dict at [lw]. *)
Record session_call (a : geomopt_args) (h hn : gmap loc obj)
    (r' c' o' w' : val) (lw : loc) (k : SinglePoint_kwargs) : Prop := {
  sc_acceptable : forallb (acceptable h) (kwargs_of a) = true;
  sc_resolved : Forall2 (resolved h hn) (kwargs_of a) [r'; c'; o'; w'];
  sc_sub : h ⊆ hn;
  sc_flags : negb (fully_opt a) && vectors_only a = false;
  sc_fresh : hn !! lw = None;
  sc_kwargs : k = {| sp_struct_path := struct_path a;
                     sp_architecture := architecture a;
                     sp_device := device a;
                     sp_read_kwargs := r';
                     sp_calc_kwargs := c';
                     sp_log_kwargs := VRef lw |}
}.

Definition session_heap (a : geomopt_args) (hn : gmap loc obj) (lw : loc)
  : gmap loc obj :=
  <[lw := ODict (log_entries (log_file a) "w")]> hn.

(** The call to [optimize] and the store it is made in. *)
Record optimize_call (a : geomopt_args) (hs h' : gmap loc obj)
    (s : session) (o' w' : val) (d : loc) (kvs : list (val * val))
    (ko : optimize_kwargs) : Prop := {
  oc_mapping : o' = VRef d;
  oc_before : hs !! d = Some (ODict kvs);
  oc_free : entries_contain "trajectory" kvs = false;
  oc_after : h' !! d
             = Some (ODict (entries_set "trajectory"
                              (if supplied (traj_file a) then traj_file a
                               else VNone) kvs));
  oc_frame : preserved_except d hs h';
  oc_struct : opt_struct ko = struct s;
  oc_fmax : opt_fmax ko = fmax a;
  oc_steps : opt_steps ko = steps a;
  oc_filter :
    if fully_opt a
    then new_dict_at hs h' (opt_filter_kwargs ko)
           [(VStr "hydrostatic_strain", VBool (vectors_only a))]
    else opt_filter_kwargs ko = VNone;
  oc_unpacked :
    opt_unpacked ko = if fully_opt a then [] else [(VStr "filter_func", VNone)];
  oc_opt : opt_opt_kwargs ko = o';
  oc_write_results : opt_write_results ko = VBool true;
  oc_write : opt_write_kwargs ko = w';
  oc_traj :
    if supplied (traj_file a)
    then new_dict_at hs h' (opt_traj_kwargs ko) [(VStr "filename", traj_file a)]
    else opt_traj_kwargs ko = VNone;
  oc_log : new_dict_at hs h' (opt_log_kwargs ko) (log_entries (log_file a) "a")
}.

(** Every way a run of [geomopt] from the store [h] and the trace [tr]
    can end. *)
Inductive geomopt_outcome (a : geomopt_args) (h : gmap loc obj)
    (tr : list event) : result unit -> state -> Prop :=
| Rejected_kwargs i t v h' :
    forallb (acceptable h) (kwargs_of a) = false ->
    kwargs_of a !! i = Some (VRef t) ->
    h !! t = Some (OTyperDict v) ->
    is_dict h v = false ->
    h ⊆ h' ->
    geomopt_outcome a h tr (Raise (must_be_dict v))
      {| heap := h'; trace := tr |}
| Rejected_flags h' :
    forallb (acceptable h) (kwargs_of a) = true ->
    fully_opt a = false ->
    vectors_only a = true ->
    h ⊆ h' ->
    geomopt_outcome a h tr (Raise vectors_only_error)
      {| heap := h'; trace := tr |}
| Session_failed hn r' c' o' w' lw k e :
    session_call a h hn r' c' o' w' lw k ->
    SinglePoint_impl k (session_heap a hn lw) = Raise e ->
    geomopt_outcome a h tr (Raise e)
      {| heap := session_heap a hn lw; trace := tr ++ [CallSinglePoint k] |}
| Rejected_trajectory hn r' c' o' w' lw k s d kvs :
    session_call a h hn r' c' o' w' lw k ->
    SinglePoint_impl k (session_heap a hn lw) = Ok s ->
    o' = VRef d ->
    hn !! d = Some (ODict kvs) ->
    entries_contain "trajectory" kvs = true ->
    geomopt_outcome a h tr (Raise duplicated_trajectory_error)
      {| heap := session_heap a hn lw; trace := tr ++ [CallSinglePoint k] |}
| Optimized hn r' c' o' w' lw k s d kvs h' ko :
    session_call a h hn r' c' o' w' lw k ->
    SinglePoint_impl k (session_heap a hn lw) = Ok s ->
    optimize_call a (session_heap a hn lw) h' s o' w' d kvs ko ->
    geomopt_outcome a h tr
      (match optimize_impl ko h' with
       | Ok _ => Ok tt
       | Raise e => Raise e
       end)
      {| heap := h'; trace := tr ++ [CallSinglePoint k; CallOptimize ko] |}.

Record s_session_call (a : singlepoint_args) (h hn : gmap loc obj)
    (r' c' w' : val) (lw : loc) (k : SinglePoint_kwargs) : Prop := {
  ssc_acceptable : forallb (acceptable h) (s_kwargs_of a) = true;
  ssc_resolved : Forall2 (resolved h hn) (s_kwargs_of a) [r'; c'; w'];
  ssc_sub : h ⊆ hn;
  ssc_fresh : hn !! lw = None;
  ssc_kwargs : k = {| sp_struct_path := s_struct_path a;
                      sp_architecture := s_architecture a;
                      sp_device := s_device a;
                      sp_read_kwargs := r';
                      sp_calc_kwargs := c';
                      sp_log_kwargs := VRef lw |}
}.

Definition s_session_heap (a : singlepoint_args) (hn : gmap loc obj) (lw : loc)
  : gmap loc obj :=
  <[lw := ODict (log_entries (s_log_file a) "w")]> hn.

(** Every way a run of [singlepoint] can end. *)
Inductive singlepoint_outcome (a : singlepoint_args) (h : gmap loc obj)
    (tr : list event) : result unit -> state -> Prop :=
| S_rejected_kwargs i t v h' :
    forallb (acceptable h) (s_kwargs_of a) = false ->
    s_kwargs_of a !! i = Some (VRef t) ->
    h !! t = Some (OTyperDict v) ->
    is_dict h v = false ->
    h ⊆ h' ->
    singlepoint_outcome a h tr (Raise (must_be_dict v))
      {| heap := h'; trace := tr |}
| S_session_failed hn r' c' w' lw k e :
    s_session_call a h hn r' c' w' lw k ->
    SinglePoint_impl k (s_session_heap a hn lw) = Raise e ->
    singlepoint_outcome a h tr (Raise e)
      {| heap := s_session_heap a hn lw; trace := tr ++ [CallSinglePoint k] |}
| S_ran hn r' c' w' lw k s kr :
    s_session_call a h hn r' c' w' lw k ->
    SinglePoint_impl k (s_session_heap a hn lw) = Ok s ->
    kr = {| run_properties := s_properties a;
            run_write_results := VBool true;
            run_write_kwargs := w' |} ->
    singlepoint_outcome a h tr
      (match run_impl s kr (s_session_heap a hn lw) with
       | Ok _ => Ok tt
       | Raise e => Raise e
       end)
      {| heap := s_session_heap a hn lw;
         trace := tr ++ [CallSinglePoint k; CallRun s kr] |}.

End Outcomes.

(** ** Runs with collaborators that may write *)

(** A collaborator changes no object that exists when it is called: it
    only reads and creates. *)
Definition keeps_objects {K A : Type}
    (f : K -> gmap loc obj -> result A * gmap loc obj) : Prop :=
  forall k h, h ⊆ (f k h).2.

Section MutatingOutcomes.

Variable SinglePoint_impl :
  SinglePoint_kwargs -> gmap loc obj -> result session * gmap loc obj.
Variable optimize_impl :
  optimize_kwargs -> gmap loc obj -> result val * gmap loc obj.

(** Every way a run of [Mutating.geomopt] from the store [h] and the trace
    [tr] can end.  [h1] is the store [SinglePoint] leaves, [h2] the store
    [optimize] is called in, [h3] the store it leaves.  In [W_options_lost]
    the collaborator has replaced the optimizer options by an object that
    is not a dict, which no Python code can do; the model then reports an
    error of its own. *)
Inductive writing_outcome (a : geomopt_args) (h : gmap loc obj)
    (tr : list event) : result unit -> state -> Prop :=
| W_rejected_kwargs i t v h' :
    forallb (acceptable h) (kwargs_of a) = false ->
    kwargs_of a !! i = Some (VRef t) ->
    h !! t = Some (OTyperDict v) ->
    is_dict h v = false ->
    h ⊆ h' ->
    writing_outcome a h tr (Raise (must_be_dict v))
      {| heap := h'; trace := tr |}
| W_rejected_flags h' :
    forallb (acceptable h) (kwargs_of a) = true ->
    fully_opt a = false ->
    vectors_only a = true ->
    h ⊆ h' ->
    writing_outcome a h tr (Raise vectors_only_error)
      {| heap := h'; trace := tr |}
| W_session_failed hn r' c' o' w' lw k e h1 :
    session_call a h hn r' c' o' w' lw k ->
    SinglePoint_impl k (session_heap a hn lw) = (Raise e, h1) ->
    writing_outcome a h tr (Raise e)
      {| heap := h1; trace := tr ++ [CallSinglePoint k] |}
| W_options_lost hn r' c' d w' lw k s h1 e :
    session_call a h hn r' c' (VRef d) w' lw k ->
    SinglePoint_impl k (session_heap a hn lw) = (Ok s, h1) ->
    (forall kvs, h1 !! d <> Some (ODict kvs)) ->
    writing_outcome a h tr (Raise e)
      {| heap := h1; trace := tr ++ [CallSinglePoint k] |}
| W_rejected_trajectory hn r' c' d w' lw k s h1 kvs :
    session_call a h hn r' c' (VRef d) w' lw k ->
    SinglePoint_impl k (session_heap a hn lw) = (Ok s, h1) ->
    h1 !! d = Some (ODict kvs) ->
    entries_contain "trajectory" kvs = true ->
    writing_outcome a h tr (Raise duplicated_trajectory_error)
      {| heap := h1; trace := tr ++ [CallSinglePoint k] |}
| W_optimized hn r' c' o' w' lw k s h1 d kvs h2 ko ro h3 :
    session_call a h hn r' c' o' w' lw k ->
    SinglePoint_impl k (session_heap a hn lw) = (Ok s, h1) ->
    optimize_call a h1 h2 s o' w' d kvs ko ->
    optimize_impl ko h2 = (ro, h3) ->
    writing_outcome a h tr
      (match ro with
       | Ok _ => Ok tt
       | Raise e => Raise e
       end)
      {| heap := h3; trace := tr ++ [CallSinglePoint k; CallOptimize ko] |}.

End MutatingOutcomes.

(** [represents h v lit]: in the store [h], the value [v] is the object
    that the literal [lit] describes. *)
Inductive represents (h : gmap loc obj) : val -> literal -> Prop :=
| Rep_none : represents h VNone LNone
| Rep_bool b : represents h (VBool b) (LBool b)
| Rep_int n : represents h (VInt n) (LInt n)
| Rep_float f : represents h (VFloat f) (LFloat f)
| Rep_str s : represents h (VStr s) (LStr s)
| Rep_bytes s : represents h (VBytes s) (LBytes s)
| Rep_tuple vs xs :
    Forall2 (represents h) vs xs -> represents h (VTuple vs) (LTuple xs)
| Rep_list l vs xs :
    h !! l = Some (OList vs) ->
    Forall2 (represents h) vs xs -> represents h (VRef l) (LList xs)
| Rep_set l vs xs :
    h !! l = Some (OSet vs) ->
    Forall2 (represents h) vs xs -> represents h (VRef l) (LSet xs)
| Rep_dict l es kvs :
    h !! l = Some (ODict es) ->
    Forall2 (fun e kv => represents h e.1 kv.1 /\ represents h e.2 kv.2) es kvs ->
    represents h (VRef l) (LDict kvs).

Definition is_dict_literal (lit : literal) : bool :=
  match lit with
  | LDict _ => true
  | _ => false
  end.

(** The decoded dict has the string [k] among its keys. *)
Definition literal_has_key (k : string) (kvs : list (literal * literal)) : bool :=
  existsb (fun kv => match kv.1 with
                     | LStr s => String.eqb s k
                     | _ => false
                     end) kvs.

(** Normalising a single option, as the commands do for each of theirs:
    the option is put in a list display, the display is normalised, and the
    normalised value is read back. *)
Definition normalise_one (x : val) : M val :=
  args <- new_list [x] ;;
  parsed <- parse_typer_dicts args ;;
  list_getitem parsed 0.

(** The entries of the mapping a run returned, if it returned a dict. *)
Definition mapping_of (run : result val * state) : option (list (val * val)) :=
  match run with
  | (Ok (VRef d), st) =>
      match heap st !! d with
      | Some (ODict kvs) => Some kvs
      | _ => None
      end
  | _ => None
  end.

(** The entries of the optimizer-options mapping as the caller supplied
    it: those of the dict wrapped by [opt_kwargs], none when the option is
    absent. *)
Definition opt_mapping (h : gmap loc obj) (a : geomopt_args)
  : option (list (val * val)) :=
  match opt_kwargs a with
  | VNone => Some []
  | VRef t =>
      match h !! t with
      | Some (OTyperDict (VRef d)) =>
          match h !! d with
          | Some (ODict kvs) => Some kvs
          | _ => None
          end
      | _ => None
      end
  | _ => None
  end.

(** The parsed optimizer options contain the key ['trajectory']. *)
Definition reserves_trajectory (h : gmap loc obj) (a : geomopt_args) : bool :=
  match opt_mapping h a with
  | Some kvs => entries_contain "trajectory" kvs
  | None => false
  end.

(** A run that started with the trace [tr] raised a [ValueError] without
    having called any collaborator: the session was not built. *)
Definition raised_before_session (tr : list event) (run : result unit * state)
  : Prop :=
  (exists msg, run.1 = Raise (ValueError msg)) /\ trace run.2 = tr.

(** The entries of the dict that [v] refers to. *)
Definition dict_entries (h : gmap loc obj) (v : val) : option (list (val * val)) :=
  match v with
  | VRef l =>
      match h !! l with
      | Some (ODict kvs) => Some kvs
      | _ => None
      end
  | _ => None
  end.

(** The log configuration a call passes to a collaborator, if any. *)
Definition log_config (h : gmap loc obj) (e : event) : option (list (val * val)) :=
  match e with
  | CallSinglePoint k => dict_entries h (sp_log_kwargs k)
  | CallRun _ _ => None
  | CallOptimize k => dict_entries h (opt_log_kwargs k)
  end.

Definition log_configs (h : gmap loc obj) (evs : list event)
  : list (list (val * val)) :=
  omap (log_config h) evs.

(** The trajectory wiring of a call to [optimize] made for the path
    [traj]: the optimizer options carry [traj] under ['trajectory'], and the
    trajectory-write configuration is the dict [{"filename": traj}]. *)
Definition trajectory_wired (h : gmap loc obj) (ko : optimize_kwargs) (traj : val)
  : Prop :=
  (exists kvs, dict_entries h (opt_opt_kwargs ko) = Some kvs /\
               entries_get "trajectory" kvs = Some traj) /\
  dict_entries h (opt_traj_kwargs ko) = Some [(VStr "filename", traj)].

(** No trajectory: the optimizer options carry [None] under ['trajectory']
    and there is no trajectory-write configuration. *)
Definition trajectory_disabled (h : gmap loc obj) (ko : optimize_kwargs) : Prop :=
  (exists kvs, dict_entries h (opt_opt_kwargs ko) = Some kvs /\
               entries_get "trajectory" kvs = Some VNone) /\
  opt_traj_kwargs ko = VNone.

(** ** The normaliser on any list, and what it leaves behind *)

(** What every run of the loop keeps, whatever the list holds. *)
Definition loop_keeps (l : loc) (h h' : gmap loc obj) (items : list val)
    (r : result unit) : Prop :=
  (exists items', h' !! l = Some (OList items') /\ length items' = length items) /\
  preserved_except l h h' /\
  (forall l' o, h !! l' = None -> h' !! l' = Some o -> o = ODict []) /\
  r <> Raise (SystemError [Lit "out of fuel"]).

(** The dicts put at the absent positions: [ys] is the normalised list
    for the input [xs]. *)
Fixpoint new_dicts (xs ys : list val) : list loc :=
  match xs, ys with
  | VNone :: xs', VRef d :: ys' => d :: new_dicts xs' ys'
  | _ :: xs', _ :: ys' => new_dicts xs' ys'
  | _, _ => []
  end.

(** The list after a run of the loop over [suffix], entered in the store
    [h]: all of [suffix] normalised with a dict of its own for every absent
    element, or normalised up to the offending element, which is unwrapped,
    with the elements after it as they were. *)
Definition loop_leaves (l : loc) (h0 h h' : gmap loc obj)
    (prefix suffix : list val) (r : result unit) : Prop :=
  (r = Ok tt /\
   exists done,
     h' !! l = Some (OList (prefix ++ done)) /\
     Forall2 (normalised h0 h') suffix done /\
     NoDup (new_dicts suffix done) /\
     Forall (fun d => h !! d = None) (new_dicts suffix done)) \/
  (exists i t v done,
      r = Raise (must_be_dict v) /\
      suffix !! i = Some (VRef t) /\
      h0 !! t = Some (OTyperDict v) /\
      is_dict h0 v = false /\
      h' !! l = Some (OList (prefix ++ done ++ v :: drop (S i) suffix)) /\
      Forall2 (normalised h0 h') (take i suffix) done).

(** ** Concrete command lines *)

(** Collaborators that always succeed, a decoder for the option texts, and
    the arguments typer hands to the commands for a few command lines. *)

Module Scenario.

Definition session_ok (k : SinglePoint_kwargs) (h : gmap loc obj) : result session :=
  Ok {| struct := VOpaque 0 |}.

Definition run_ok (s : session) (k : run_kwargs) (h : gmap loc obj) : result val :=
  Ok VNone.

Definition optimize_ok (k : optimize_kwargs) (h : gmap loc obj) : result val :=
  Ok VNone.

Definition start : state := {| heap := ∅; trace := [] |}.

(** A dictionary option: typer applies the parser to the text given on the
    command line, and passes [None] when the option is not given. *)
Definition dict_option (text : option string) : M val :=
  match text with
  | Some s => parse_dict_class MiniLiteral.literal_eval s
  | None => ret VNone
  end.

(** The value of an option that was parsed without error. *)
Definition parsed (run : result val * state) : val :=
  match run.1 with
  | Ok v => v
  | Raise _ => VNone
  end.

(** [geomopt --struct water.xyz --opt-kwargs "{'trajectory': 'x'}"]
    with the given flags and [--traj] value. *)
Definition reserved_option : result val * state :=
  dict_option (Some "{'trajectory': 'x'}") start.

Definition reserved (fully vectors : bool) (traj : val) : geomopt_args :=
  {| struct_path := VPath "water.xyz";
     fmax := VFloat 0.1;
     steps := VInt 1000;
     architecture := VStr "mace_mp";
     device := VStr "cpu";
     fully_opt := fully;
     vectors_only := vectors;
     read_kwargs := VNone;
     calc_kwargs := VNone;
     opt_kwargs := parsed reserved_option;
     write_kwargs := VNone;
     traj_file := traj;
     log_file := VPath "geomopt.log" |}.

Definition reserved_state : state := reserved_option.2.

(** [geomopt --struct water.xyz --opt-kwargs "{'alpha': 70}"] with the
    given flags and [--traj] value. *)
Definition plain_option : result val * state :=
  dict_option (Some "{'alpha': 70}") start.

Definition plain (fully vectors : bool) (traj : val) : geomopt_args :=
  {| struct_path := VPath "water.xyz";
     fmax := VFloat 0.1;
     steps := VInt 1000;
     architecture := VStr "mace_mp";
     device := VStr "cpu";
     fully_opt := fully;
     vectors_only := vectors;
     read_kwargs := VNone;
     calc_kwargs := VNone;
     opt_kwargs := parsed plain_option;
     write_kwargs := VNone;
     traj_file := traj;
     log_file := VPath "geomopt.log" |}.

Definition plain_state : state := plain_option.2.

(** [singlepoint --struct water.xyz --property energy]. *)
Definition single : singlepoint_args :=
  {| s_struct_path := VPath "water.xyz";
     s_architecture := VStr "mace_mp";
     s_device := VStr "cpu";
     s_properties := VOpaque 1;
     s_read_kwargs := VNone;
     s_calc_kwargs := VNone;
     s_write_kwargs := VNone;
     s_log_file := VPath "singlepoint.log" |}.

(** A list display [[None, TyperDict({'alpha': 70})]] in the store. *)
Definition display : result val * state :=
  new_list [VNone; parsed plain_option] plain_state.

Definition display_loc : loc :=
  match display.1 with
  | Ok (VRef l) => l
  | _ => 1%positive
  end.

(** The call to [optimize] a run ended with. *)
Definition optimize_call_of (st : state) : option optimize_kwargs :=
  match last (trace st) with
  | Some (CallOptimize ko) => Some ko
  | _ => None
  end.

End Scenario.

(** ** More command lines *)

(** Options that are not mappings, and list displays that hold them. *)
Module Examples.

(** [--calc-kwargs "3"]: the text decodes, to a number. *)
Definition number_option : result val * state :=
  Scenario.dict_option (Some "3") Scenario.plain_state.

Definition number_state : state := number_option.2.

(** [geomopt --struct water.xyz --vectors-only --opt-kwargs "{'alpha': 70}"
    --calc-kwargs "3"]. *)
Definition bad_geomopt : geomopt_args :=
  {| struct_path := VPath "water.xyz";
     fmax := VFloat 0.1;
     steps := VInt 1000;
     architecture := VStr "mace_mp";
     device := VStr "cpu";
     fully_opt := false;
     vectors_only := true;
     read_kwargs := VNone;
     calc_kwargs := Scenario.parsed number_option;
     opt_kwargs := Scenario.parsed Scenario.plain_option;
     write_kwargs := VNone;
     traj_file := VNone;
     log_file := VPath "geomopt.log" |}.

(** [singlepoint --struct water.xyz --read-kwargs "{'alpha': 70}"
    --write-kwargs "3"]. *)
Definition bad_single : singlepoint_args :=
  {| s_struct_path := VPath "water.xyz";
     s_architecture := VStr "mace_mp";
     s_device := VStr "cpu";
     s_properties := VNone;
     s_read_kwargs := Scenario.parsed Scenario.plain_option;
     s_calc_kwargs := VNone;
     s_write_kwargs := Scenario.parsed number_option;
     s_log_file := VPath "singlepoint.log" |}.


(** The list display [[None, TyperDict({'alpha': 70}), TyperDict(3), None]]. *)
Definition mixed_items : list val :=
  [VNone; Scenario.parsed Scenario.plain_option; Scenario.parsed number_option;
   VNone].

Definition mixed : result val * state := new_list mixed_items number_state.

(** The list display [[None, TyperDict({'alpha': 70}), None]]. *)
Definition absent_items : list val :=
  [VNone; Scenario.parsed Scenario.plain_option; VNone].

Definition absent : result val * state := new_list absent_items number_state.

Definition list_loc (run : result val * state) : loc :=
  match run.1 with
  | Ok (VRef l) => l
  | _ => 1%positive
  end.

(** A store that holds one empty dict, at [empty_dict]. *)
Definition empty_dict_run : result val * state := new_dict [] Scenario.start.

Definition empty_dict : val := Scenario.parsed empty_dict_run.

(** The dict [{'alpha': 70}] itself, not its wrapper. *)
Definition plain_dict : val :=
  match heap Scenario.plain_state !! list_loc Scenario.plain_option with
  | Some (OTyperDict v) => v
  | _ => VNone
  end.

(** Collaborators that write.  [session_defaults] puts a default model
    into the calculator options it is handed, as the help text of
    [--calc-kwargs] announces; [run_defaults] and [optimize_defaults] put a
    default file name into the write options they are handed. *)
Definition with_default (key : string) (v : val) (target : val)
    (h : gmap loc obj) : gmap loc obj :=
  match target with
  | VRef l =>
      match h !! l with
      | Some (ODict kvs) =>
          if entries_contain key kvs then h
          else <[l := ODict (kvs ++ [(VStr key, v)])]> h
      | _ => h
      end
  | _ => h
  end.

Definition session_defaults (k : SinglePoint_kwargs) (h : gmap loc obj)
  : result session * gmap loc obj :=
  (Ok {| struct := VOpaque 0 |},
   with_default "model" (VStr "small") (sp_calc_kwargs k) h).

Definition run_defaults (s : session) (k : run_kwargs) (h : gmap loc obj)
  : result val * gmap loc obj :=
  (Ok VNone, with_default "filename" (VStr "out.xyz") (run_write_kwargs k) h).

Definition optimize_defaults (k : optimize_kwargs) (h : gmap loc obj)
  : result val * gmap loc obj :=
  (Ok VNone, with_default "filename" (VStr "out.xyz") (opt_write_kwargs k) h).

(** Collaborators that create an object of their own and change none. *)
Definition session_new (k : SinglePoint_kwargs) (h : gmap loc obj)
  : result session * gmap loc obj :=
  (Ok {| struct := VOpaque 0 |}, <[fresh (dom h) := OList []]> h).

Definition optimize_new (k : optimize_kwargs) (h : gmap loc obj)
  : result val * gmap loc obj :=
  (Ok VNone, <[fresh (dom h) := OList []]> h).

(** [--calc-kwargs "{'dispersion': True}"], given besides
    [--opt-kwargs "{'alpha': 70}"]. *)
Definition calc_option : result val * state :=
  Scenario.dict_option (Some "{'dispersion': True}") Scenario.plain_state.

Definition calc_state : state := calc_option.2.

(** [geomopt --struct water.xyz --fully-opt --calc-kwargs
    "{'dispersion': True}" --opt-kwargs "{'alpha': 70}" --traj t.xyz]. *)
Definition written_geomopt : geomopt_args :=
  {| struct_path := VPath "water.xyz";
     fmax := VFloat 0.1;
     steps := VInt 1000;
     architecture := VStr "mace_mp";
     device := VStr "cpu";
     fully_opt := true;
     vectors_only := false;
     read_kwargs := VNone;
     calc_kwargs := Scenario.parsed calc_option;
     opt_kwargs := Scenario.parsed Scenario.plain_option;
     write_kwargs := VNone;
     traj_file := VStr "t.xyz";
     log_file := VPath "geomopt.log" |}.

(** [singlepoint --struct water.xyz --calc-kwargs "{'dispersion': True}"
    --write-kwargs "{'alpha': 70}"]. *)
Definition written_single : singlepoint_args :=
  {| s_struct_path := VPath "water.xyz";
     s_architecture := VStr "mace_mp";
     s_device := VStr "cpu";
     s_properties := VNone;
     s_read_kwargs := VNone;
     s_calc_kwargs := Scenario.parsed calc_option;
     s_write_kwargs := Scenario.parsed Scenario.plain_option;
     s_log_file := VPath "singlepoint.log" |}.

End Examples.

(** * Reasoning about the monad and the store *)

Lemma bind_Ok {A B : Type} (m : M A) (k : A -> M B) st a st1 :
  m st = (Ok a, st1) -> bind m k st = k a st1.
Proof. intros H. unfold bind. by rewrite H. Qed.

Lemma bind_Raise {A B : Type} (m : M A) (k : A -> M B) st e st1 :
  m st = (Raise e, st1) -> bind m k st = (Raise e, st1).
Proof. intros H. unfold bind. by rewrite H. Qed.

Lemma deref_Some h tr l o :
  h !! l = Some o ->
  deref l {| heap := h; trace := tr |} = (Ok o, {| heap := h; trace := tr |}).
Proof. intros H. unfold deref, bind, get_heap. simpl. by rewrite H. Qed.

Lemma isinstance_dict_closed h tr v :
  closed h v = true ->
  isinstance_dict v {| heap := h; trace := tr |}
  = (Ok (is_dict h v), {| heap := h; trace := tr |}).
Proof.
  destruct v; simpl; try done.
  intros Hc. apply bool_decide_eq_true in Hc as [o Ho].
  rewrite (bind_Ok _ _ _ _ _ (deref_Some _ _ _ _ Ho)), Ho.
  by destruct o.
Qed.

Lemma fresh_None (h : gmap loc obj) : h !! fresh (dom h) = None.
Proof. apply not_elem_of_dom, is_fresh. Qed.

(** ** One round of the normaliser's loop *)

Lemma alloc_eq o h tr :
  alloc o {| heap := h; trace := tr |}
  = (Ok (VRef (fresh (dom h))),
     {| heap := <[fresh (dom h) := o]> h; trace := tr |}).
Proof. reflexivity. Qed.

Lemma new_list_eq items h tr :
  new_list items {| heap := h; trace := tr |}
  = (Ok (VRef (fresh (dom h))),
     {| heap := <[fresh (dom h) := OList items]> h; trace := tr |}).
Proof. reflexivity. Qed.

Lemma new_dict_eq kvs h tr :
  new_dict kvs {| heap := h; trace := tr |}
  = (Ok (VRef (fresh (dom h))),
     {| heap := <[fresh (dom h) := ODict kvs]> h; trace := tr |}).
Proof. reflexivity. Qed.

Lemma new_dict_fresh kvs h tr :
  exists l,
    h !! l = None /\
    new_dict kvs {| heap := h; trace := tr |}
    = (Ok (VRef l), {| heap := <[l := ODict kvs]> h; trace := tr |}).
Proof. exists (fresh (dom h)). split; [apply fresh_None | reflexivity]. Qed.

Lemma new_dict_at_insert h l kvs :
  h !! l = None -> new_dict_at h (<[l := ODict kvs]> h) (VRef l) kvs.
Proof. intros Hl. exists l. by rewrite lookup_insert_eq. Qed.

Lemma new_dict_at_weaken h0 h1 h2 h3 v kvs :
  h0 ⊆ h1 -> h2 ⊆ h3 -> new_dict_at h1 h2 v kvs -> new_dict_at h0 h3 v kvs.
Proof.
  intros H01 H23 (l & -> & Hl1 & Hl2). exists l. split; [done |].
  split; [by eapply lookup_weaken_None | by eapply lookup_weaken].
Qed.

(** [new_dict kvs if b else None]. *)
Lemma optional_new_dict (b : bool) kvs h tr :
  exists v h1,
    (if b then new_dict kvs else ret VNone) {| heap := h; trace := tr |}
    = (Ok v, {| heap := h1; trace := tr |}) /\
    h ⊆ h1 /\
    if b then new_dict_at h h1 v kvs else v = VNone.
Proof.
  destruct b.
  - destruct (new_dict_fresh kvs h tr) as (l & Hl & Hrun).
    exists (VRef l), (<[l := ODict kvs]> h).
    split; [done |]. split; [by apply insert_subseteq |].
    by apply new_dict_at_insert.
  - by exists VNone, h.
Qed.

Lemma loop_stop fuel l items i h tr :
  h !! l = Some (OList items) ->
  items !! i = None ->
  parse_typer_dicts_loop (S fuel) (VRef l) i {| heap := h; trace := tr |}
  = (Ok tt, {| heap := h; trace := tr |}).
Proof.
  intros Hl Hi. cbn [parse_typer_dicts_loop]. unfold list_iter_next.
  rewrite (bind_Ok _ _ _ _ _ (bind_Ok _ _ _ _ _ (deref_Some _ _ _ _ Hl))).
  by rewrite Hi.
Qed.

Lemma iter_next_Some l items i x h tr :
  h !! l = Some (OList items) ->
  items !! i = Some x ->
  list_iter_next (VRef l) i {| heap := h; trace := tr |}
  = (Ok (Some x), {| heap := h; trace := tr |}).
Proof.
  intros Hl Hi. unfold list_iter_next.
  rewrite (bind_Ok _ _ _ _ _ (deref_Some _ _ _ _ Hl)). by rewrite Hi.
Qed.

Lemma list_setitem_Ok l items i v h tr :
  h !! l = Some (OList items) ->
  (i < length items)%nat ->
  list_setitem (VRef l) i v {| heap := h; trace := tr |}
  = (Ok tt, {| heap := <[l := OList (<[i := v]> items)]> h; trace := tr |}).
Proof.
  intros Hl Hi. unfold list_setitem.
  rewrite (bind_Ok _ _ _ _ _ (deref_Some _ _ _ _ Hl)).
  by rewrite decide_True.
Qed.

Lemma list_getitem_Ok l items i v h tr :
  h !! l = Some (OList items) ->
  items !! i = Some v ->
  list_getitem (VRef l) i {| heap := h; trace := tr |}
  = (Ok v, {| heap := h; trace := tr |}).
Proof.
  intros Hl Hi. unfold list_getitem.
  rewrite (bind_Ok _ _ _ _ _ (deref_Some _ _ _ _ Hl)). by rewrite Hi.
Qed.

Lemma loop_absent fuel l items i h tr :
  h !! l = Some (OList items) ->
  items !! i = Some VNone ->
  let d := fresh (dom h) in
  parse_typer_dicts_loop (S fuel) (VRef l) i {| heap := h; trace := tr |}
  = parse_typer_dicts_loop fuel (VRef l) (S i)
      {| heap := <[l := OList (<[i := VRef d]> items)]> (<[d := ODict []]> h);
         trace := tr |}.
Proof.
  intros Hl Hi d.
  assert (Hd : h !! d = None) by apply fresh_None.
  assert (Hne : d <> l) by (intros ->; congruence).
  assert (Hlt : (i < length items)%nat) by (by eapply lookup_lt_Some).
  cbn [parse_typer_dicts_loop].
  rewrite (bind_Ok _ _ _ _ _ (iter_next_Some _ _ _ _ _ _ Hl Hi)).
  erewrite (bind_Ok (truthy _)) by reflexivity. cbv iota.
  erewrite (bind_Ok (new_dict _)) by apply alloc_eq. fold d.
  erewrite (bind_Ok (list_setitem _ _ _)); cycle 1.
  { apply list_setitem_Ok; [by rewrite lookup_insert_ne | done]. }
  erewrite (bind_Ok (list_getitem _ _)); cycle 1.
  { eapply list_getitem_Ok; [apply lookup_insert_eq |].
    by apply list_lookup_insert_eq. }
  erewrite (bind_Ok (isinstance_dict _)); cycle 1.
  { apply isinstance_dict_closed. cbn [closed]. apply bool_decide_eq_true.
    rewrite lookup_insert_ne, lookup_insert_eq by done. by eexists. }
  cbn [is_dict]. by rewrite lookup_insert_ne, lookup_insert_eq by done.
Qed.

Lemma loop_present fuel l items i t v h tr :
  h !! l = Some (OList items) ->
  items !! i = Some (VRef t) ->
  h !! t = Some (OTyperDict v) ->
  closed h v = true ->
  let h' := <[l := OList (<[i := v]> items)]> h in
  parse_typer_dicts_loop (S fuel) (VRef l) i {| heap := h; trace := tr |}
  = if is_dict h' v
    then parse_typer_dicts_loop fuel (VRef l) (S i) {| heap := h'; trace := tr |}
    else (Raise (must_be_dict v), {| heap := h'; trace := tr |}).
Proof.
  intros Hl Hi Ht Hc h'.
  assert (Hlt : (i < length items)%nat) by (by eapply lookup_lt_Some).
  assert (Hc' : closed h' v = true).
  { destruct v; try done. cbn [closed] in *. apply bool_decide_eq_true.
    apply bool_decide_eq_true in Hc. subst h'.
    destruct (decide (l = l0)) as [->|Hne];
      [rewrite lookup_insert_eq; by eexists | by rewrite lookup_insert_ne]. }
  cbn [parse_typer_dicts_loop].
  rewrite (bind_Ok _ _ _ _ _ (iter_next_Some _ _ _ _ _ _ Hl Hi)).
  erewrite (bind_Ok (truthy _)); cycle 1.
  { unfold truthy. rewrite (bind_Ok _ _ _ _ _ (deref_Some _ _ _ _ Ht)). done. }
  cbv iota.
  erewrite (bind_Ok (getattr_value _)); cycle 1.
  { unfold getattr_value.
    rewrite (bind_Ok _ _ _ _ _ (deref_Some _ _ _ _ Ht)). done. }
  erewrite (bind_Ok (list_setitem _ _ _)); cycle 1.
  { by apply list_setitem_Ok. }
  fold h'.
  assert (Hget : list_getitem (VRef l) i {| heap := h'; trace := tr |}
                 = (Ok v, {| heap := h'; trace := tr |})).
  { eapply list_getitem_Ok; [apply lookup_insert_eq |].
    by apply list_lookup_insert_eq. }
  rewrite (bind_Ok _ _ _ _ _ Hget).
  rewrite (bind_Ok _ _ _ _ _ (isinstance_dict_closed _ _ _ Hc')).
  destruct (is_dict h' v); cbn [negb]; [done |].
  by rewrite (bind_Ok _ _ _ _ _ Hget).
Qed.

(** ** The normaliser's loop, from any position *)

Lemma preserved_except_refl l h : preserved_except l h h.
Proof. by intros ? ? ? ?. Qed.

Lemma grown_refl l h items : h !! l = Some (OList items) -> grown l h h.
Proof.
  intros Hl. repeat split; eauto using preserved_except_refl.
Qed.

Lemma grown_is_dict l h0 h v :
  grown l h0 h -> closed h0 v = true -> is_dict h v = is_dict h0 v.
Proof.
  intros (Hp & Hdom & [items0 Hl0] & [items Hl]) Hc.
  destruct v as [| | | | | | | | |d]; try done. cbn [closed is_dict] in *.
  apply bool_decide_eq_true in Hc as [o Ho].
  destruct (decide (d = l)) as [->|Hne].
  - by rewrite Hl, Hl0.
  - by rewrite (Hp _ _ Hne Ho), Ho.
Qed.

Lemma grown_closed l h0 h v :
  grown l h0 h -> closed h0 v = true -> closed h v = true.
Proof.
  intros (_ & Hdom & _) Hc. destruct v; try done. cbn [closed] in *.
  apply bool_decide_eq_true. apply bool_decide_eq_true in Hc.
  apply elem_of_dom. apply elem_of_dom in Hc. set_solver.
Qed.

Lemma grown_alloc l h0 h o :
  grown l h0 h -> grown l h0 (<[fresh (dom h) := o]> h).
Proof.
  intros (Hp & Hdom & Hl0 & [items Hl]).
  assert (Hf : h !! fresh (dom h) = None) by apply fresh_None.
  repeat split; [| rewrite dom_insert_L; set_solver + Hdom | done |].
  - intros l' o' Hne Hl'. rewrite lookup_insert_ne; [by apply Hp |].
    intros <-. apply Hp in Hl'; congruence.
  - exists items. rewrite lookup_insert_ne; [done | congruence].
Qed.

Lemma grown_setitem l h0 h items' :
  grown l h0 h -> grown l h0 (<[l := OList items']> h).
Proof.
  intros (Hp & Hdom & Hl0 & Hl).
  repeat split; [| rewrite dom_insert_L; set_solver + Hdom | done |].
  - intros l' o' Hne Hl'. rewrite lookup_insert_ne by done. by apply Hp.
  - exists items'. apply lookup_insert_eq.
Qed.

Lemma insert_middle {A : Type} (prefix : list A) x y rest :
  <[length prefix := y]> (prefix ++ x :: rest) = (prefix ++ [y]) ++ rest.
Proof.
  rewrite insert_app_r_alt by lia. rewrite Nat.sub_diag. cbn.
  by rewrite <- app_assoc.
Qed.

Lemma lookup_middle {A : Type} (prefix : list A) x rest :
  (prefix ++ x :: rest) !! length prefix = Some x.
Proof. by rewrite list_lookup_middle. Qed.

Lemma loop_spec l tr h0 suffix :
  forall prefix h fuel,
    grown l h0 h ->
    h !! l = Some (OList (prefix ++ suffix)) ->
    Forall (fun x => optional_TyperDict h0 x = true) suffix ->
    (length suffix < fuel)%nat ->
    exists r h',
      parse_typer_dicts_loop fuel (VRef l) (length prefix)
        {| heap := h; trace := tr |} = (r, {| heap := h'; trace := tr |}) /\
      grown l h0 h' /\ preserved_except l h h' /\
      loop_outcome l h0 h' prefix suffix r.
Proof.
  induction suffix as [|x rest IH]; intros prefix h fuel Hg Hl Hwf Hfuel.
  - destruct fuel as [|fuel]; [cbn in Hfuel; lia |].
    exists (Ok tt), h. split; [| split; [done | split]].
    + eapply loop_stop; [done |]. apply lookup_ge_None. rewrite app_nil_r. lia.
    + apply preserved_except_refl.
    + left. split; [done |]. exists []. split; [done | constructor].
  - destruct fuel as [|fuel]; [cbn in Hfuel; lia |].
    cbn [length] in Hfuel.
    apply Forall_cons in Hwf as [Hx Hrest].
    pose proof (lookup_middle prefix x rest) as Hi.
    destruct x as [| | | | | | | | |t]; try discriminate Hx.
    + (* an absent option: a new empty dict takes its place *)
      rewrite (loop_absent _ _ _ _ _ _ Hl Hi). cbv zeta.
      set (d := fresh (dom h)). rewrite insert_middle.
      set (h1 := <[d := ODict []]> h).
      set (h2 := <[l := _]> h1).
      assert (Hd : h !! d = None) by apply fresh_None.
      assert (Hne : d <> l) by (intros ->; congruence).
      assert (Hg2 : grown l h0 h2) by (apply grown_setitem, grown_alloc, Hg).
      destruct (IH (prefix ++ [VRef d]) h2 fuel) as (r & h' & Hrun & Hg' & Hp' & Hout);
        [done | apply lookup_insert_eq | done | lia |].
      rewrite length_app, Nat.add_1_r in Hrun.
      exists r, h'. split; [done | split; [done | split]].
      * intros l' o Hne' Hl'. apply Hp'; [done |]. subst h2 h1.
        rewrite lookup_insert_ne by done. rewrite lookup_insert_ne; [done |].
        intros <-. congruence.
      * destruct Hout as [(-> & done & Hl' & Hall) | (i & t & v & -> & Hi' & Ht & Hv & Hacc)].
        -- left. split; [done |]. exists (VRef d :: done). split.
           ++ by rewrite <- app_assoc in Hl'.
           ++ constructor; [| done]. exists d. split; [done |].
              destruct Hg as (_ & Hdom & _). split.
              ** apply not_elem_of_dom. apply not_elem_of_dom in Hd. set_solver.
              ** apply Hp'; [done |]. subst h2 h1.
                 rewrite lookup_insert_ne by done. apply lookup_insert_eq.
        -- right. exists (S i), t, v. repeat split; try done.
           cbn [take]. by constructor.
    + (* a TyperDict: its value takes its place, and must be a dict *)
      cbn [optional_TyperDict] in Hx.
      destruct (h0 !! t) as [[| | |v]|] eqn:Ht0; try discriminate Hx.
      assert (Htl : t <> l).
      { intros ->. destruct Hg as (_ & _ & [? Hl0] & _). congruence. }
      assert (Ht : h !! t = Some (OTyperDict v)).
      { destruct Hg as (Hp & _). by apply Hp. }
      pose proof (grown_closed _ _ _ _ Hg Hx) as Hc.
      rewrite (loop_present _ _ _ _ _ _ _ _ Hl Hi Ht Hc). cbv zeta.
      rewrite insert_middle.
      set (h2 := <[l := _]> h).
      assert (Hg2 : grown l h0 h2) by (apply grown_setitem, Hg).
      rewrite (grown_is_dict _ _ _ _ Hg2 Hx).
      destruct (is_dict h0 v) eqn:Hv.
      * destruct (IH (prefix ++ [v]) h2 fuel) as (r & h' & Hrun & Hg' & Hp' & Hout);
          [done | apply lookup_insert_eq | done | lia |].
        rewrite length_app, Nat.add_1_r in Hrun.
        exists r, h'. split; [done | split; [done | split]].
        -- intros l' o Hne' Hl'. apply Hp'; [done |]. subst h2.
           by rewrite lookup_insert_ne.
        -- destruct Hout as [(-> & done & Hl' & Hall) | (i & t' & v' & -> & Hi' & Ht' & Hv' & Hacc)].
           ++ left. split; [done |]. exists (v :: done). split.
              ** by rewrite <- app_assoc in Hl'.
              ** constructor; [| done]. by cbn [normalised].
           ++ right. exists (S i), t', v'. repeat split; try done.
              cbn [take]. constructor; [| done].
              cbn [acceptable]. by rewrite Ht0.
      * exists (Raise (must_be_dict v)), h2.
        split; [done | split; [done | split]].
        -- intros l' o Hne' Hl'. subst h2. by rewrite lookup_insert_ne.
        -- right. exists 0%nat, t, v. by repeat split.
Qed.

(** ** The normaliser on a list of optional [TyperDict]s *)

Lemma parse_typer_dicts_spec l xs h tr :
  h !! l = Some (OList xs) ->
  Forall (fun x => optional_TyperDict h x = true) xs ->
  exists r h',
    parse_typer_dicts (VRef l) {| heap := h; trace := tr |}
    = (r, {| heap := h'; trace := tr |}) /\
    grown l h h' /\
    ((r = Ok (VRef l) /\
      exists ys, h' !! l = Some (OList ys) /\ Forall2 (normalised h h') xs ys) \/
     (exists i t v,
         r = Raise (must_be_dict v) /\
         xs !! i = Some (VRef t) /\
         h !! t = Some (OTyperDict v) /\
         is_dict h v = false /\
         Forall (fun x => acceptable h x = true) (take i xs))).
Proof.
  intros Hl Hwf.
  destruct (loop_spec l tr h xs [] h (S (length xs)))
    as (r & h' & Hrun & Hg & _ & Hout);
    [by eapply grown_refl | done | done | lia |].
  cbn [length] in Hrun.
  unfold parse_typer_dicts. cbn [heap list_length]. rewrite Hl.
  destruct Hout as [(-> & done & Hl' & Hall) | (i & t & v & -> & Hi & Ht & Hv & Hacc)].
  - rewrite (bind_Ok _ _ _ _ _ Hrun). exists (Ok (VRef l)), h'.
    split; [done | split; [done |]]. left. split; [done |]. by exists done.
  - rewrite (bind_Raise _ _ _ _ _ Hrun). exists (Raise (must_be_dict v)), h'.
    split; [done | split; [done |]]. right. by exists i, t, v.
Qed.

Lemma normalised_resolved l h h' x y :
  grown l h h' -> normalised h h' x y -> resolved h h' x y.
Proof.
  intros (Hp & _ & [items Hl] & _) Hn.
  destruct x as [| | | | | | | | |t]; cbn [normalised] in Hn; try done.
  - destruct Hn as (d & -> & Hd & Hd'). by exists d, [].
  - destruct Hn as [Ht Hy].
    destruct y as [| | | | | | | | |d]; try discriminate Hy. cbn [is_dict] in Hy.
    destruct (h !! d) as [[| |kvs|]|] eqn:Hd; try discriminate Hy.
    exists d, kvs. split; [done |]. split; [| done].
    apply Hp; [| done]. intros ->. congruence.
Qed.

Lemma acceptable_take_all h xs :
  Forall (fun x => acceptable h x = true) xs <->
  forallb (acceptable h) xs = true.
Proof.
  rewrite forallb_forall. rewrite Forall_forall.
  split; intros H x Hx; apply H; by apply list_elem_of_In.
Qed.

Lemma normalised_acceptable h h' x y :
  normalised h h' x y -> acceptable h x = true.
Proof.
  destruct x; cbn [normalised acceptable]; try done.
  intros [-> ?]. done.
Qed.

(** The normaliser applied to a list display [[x1, ..., xn]]: the list is
    a new object, so every object of the caller survives untouched. *)
Lemma normalise_display xs h tr l :
  h !! l = None ->
  Forall (fun x => optional_TyperDict h x = true) xs ->
  let st := {| heap := <[l := OList xs]> h; trace := tr |} in
  (forallb (acceptable h) xs = true /\
   exists h' ys,
     parse_typer_dicts (VRef l) st = (Ok (VRef l), {| heap := h'; trace := tr |}) /\
     h ⊆ h' /\ h' !! l = Some (OList ys) /\ Forall2 (resolved h h') xs ys) \/
  (forallb (acceptable h) xs = false /\
   exists h' i t v,
     parse_typer_dicts (VRef l) st
     = (Raise (must_be_dict v), {| heap := h'; trace := tr |}) /\
     h ⊆ h' /\ xs !! i = Some (VRef t) /\
     h !! t = Some (OTyperDict v) /\ is_dict h v = false).
Proof.
  intros Hl Hwf st. subst st.
  set (h1 := <[l := OList xs]> h).
  assert (Hsub : h ⊆ h1) by (by apply insert_subseteq).
  assert (Hwf1 : Forall (fun x => optional_TyperDict h1 x = true) xs).
  { eapply Forall_impl; [exact Hwf |]. intros x Hx.
    destruct x as [| | | | | | | | |t]; try done. cbn [optional_TyperDict] in *.
    destruct (h !! t) as [[| | |v]|] eqn:Ht; try discriminate Hx.
    rewrite (lookup_weaken _ _ _ _ Ht Hsub).
    destruct v as [| | | | | | | | |d]; try done. cbn [closed] in *.
    apply bool_decide_eq_true in Hx as [o Ho]. apply bool_decide_eq_true.
    exists o. by eapply lookup_weaken. }
  destruct (parse_typer_dicts_spec l xs h1 tr) as (r & h' & Hrun & Hg & Hout);
    [apply lookup_insert_eq | done |].
  assert (Hsub' : h ⊆ h').
  { apply map_subseteq_spec. intros l' o Hl'. destruct Hg as (Hp & _).
    apply Hp; [intros ->; congruence |]. by eapply lookup_weaken. }
  assert (Hback : forall l' o, h1 !! l' = Some o -> l' <> l -> h !! l' = Some o).
  { intros l' o Ho Hne. subst h1. by rewrite lookup_insert_ne in Ho. }
  assert (Hdict : forall v, is_dict h1 v = is_dict h v).
  { intros [| | | | | | | | |d]; try done. cbn [is_dict]. subst h1.
    destruct (decide (l = d)) as [->|Hne];
      [by rewrite lookup_insert_eq, Hl | by rewrite lookup_insert_ne]. }
  assert (Hacc : forall x, optional_TyperDict h x = true ->
                           acceptable h1 x = acceptable h x).
  { intros [| | | | | | | | |t] Hx; try done. cbn [acceptable optional_TyperDict] in *.
    destruct (h !! t) as [o|] eqn:Ht; [| done].
    rewrite (lookup_weaken _ _ _ _ Ht Hsub). destruct o; first [done | apply Hdict]. }
  destruct Hout as [(-> & ys & Hl' & Hall) | (i & t & v & -> & Hi & Ht & Hv & _)].
  - left. split.
    + apply acceptable_take_all. apply Forall_forall. intros x Hx.
      rewrite <- Hacc by (by eapply Forall_forall in Hwf).
      apply list_elem_of_lookup in Hx as [i Hi].
      destruct (Forall2_lookup_l _ _ _ _ _ Hall Hi) as (y & _ & Hn).
      by eapply normalised_acceptable.
    + exists h', ys. split; [done | split; [done | split; [done |]]].
      eapply Forall2_impl; [exact Hall |]. intros x y Hn.
      destruct (normalised_resolved _ _ _ _ _ Hg Hn) as (d & kvs & -> & Hd & Hx).
      exists d, kvs. split; [done | split; [done |]].
      destruct x as [| | | | | | | | |t]; try done.
      * destruct Hx as [Hx ->]. split; [| done].
        destruct (h !! d) eqn:Hhd; [| done].
        by rewrite (lookup_weaken _ _ _ _ Hhd Hsub) in Hx.
      * destruct Hx as [Hx1 Hx2]. split; apply Hback; try done; intros ->;
          subst h1; rewrite lookup_insert_eq in *; congruence.
  - assert (Ht' : h !! t = Some (OTyperDict v)).
    { apply Hback; [done |]. intros ->. subst h1.
      rewrite lookup_insert_eq in Ht. congruence. }
    right. split.
    + apply not_true_is_false. intros Hall.
      apply acceptable_take_all in Hall.
      eapply Forall_lookup_1 in Hall; [| exact Hi].
      cbn [acceptable] in Hall. rewrite Ht' in Hall.
      rewrite <- Hdict in Hall. congruence.
    + exists h', i, t, v. by rewrite <- Hdict.
Qed.

(** * geomopt, case by case *)

Section Soundness.

Variable SinglePoint_impl : SinglePoint_kwargs -> gmap loc obj -> result session.
Variable run_impl : session -> run_kwargs -> gmap loc obj -> result val.
Variable optimize_impl : optimize_kwargs -> gmap loc obj -> result val.

Lemma SinglePoint_eq k h tr :
  SinglePoint SinglePoint_impl k {| heap := h; trace := tr |}
  = (SinglePoint_impl k h, {| heap := h; trace := tr ++ [CallSinglePoint k] |}).
Proof. reflexivity. Qed.

Lemma bind_SinglePoint {B : Type} k (f : session -> M B) h tr :
  bind (SinglePoint SinglePoint_impl k) f {| heap := h; trace := tr |}
  = match SinglePoint_impl k h with
    | Ok s => f s {| heap := h; trace := tr ++ [CallSinglePoint k] |}
    | Raise e => (Raise e, {| heap := h; trace := tr ++ [CallSinglePoint k] |})
    end.
Proof. unfold bind. rewrite SinglePoint_eq. by destruct (SinglePoint_impl k h). Qed.

Lemma optimize_eq k h tr :
  optimize optimize_impl k {| heap := h; trace := tr |}
  = (optimize_impl k h, {| heap := h; trace := tr ++ [CallOptimize k] |}).
Proof. reflexivity. Qed.

Lemma SinglePoint_run_eq s k h tr :
  SinglePoint_run run_impl s k {| heap := h; trace := tr |}
  = (run_impl s k h, {| heap := h; trace := tr ++ [CallRun s k] |}).
Proof. reflexivity. Qed.

Lemma truthy_optional_str v h tr :
  optional_str v = true ->
  truthy v {| heap := h; trace := tr |}
  = (Ok (supplied v), {| heap := h; trace := tr |}).
Proof. by destruct v. Qed.

Lemma dict_contains_Ok k d kvs h tr :
  h !! d = Some (ODict kvs) ->
  dict_contains k (VRef d) {| heap := h; trace := tr |}
  = (Ok (entries_contain k kvs), {| heap := h; trace := tr |}).
Proof.
  intros Hd. unfold dict_contains.
  by rewrite (bind_Ok _ _ _ _ _ (deref_Some _ _ _ _ Hd)).
Qed.

Lemma dict_setitem_Ok k v d kvs h tr :
  h !! d = Some (ODict kvs) ->
  dict_setitem (VRef d) k v {| heap := h; trace := tr |}
  = (Ok tt, {| heap := <[d := ODict (entries_set k v kvs)]> h; trace := tr |}).
Proof.
  intros Hd. unfold dict_setitem.
  by rewrite (bind_Ok _ _ _ _ _ (deref_Some _ _ _ _ Hd)).
Qed.

Lemma dict_items_Ok d kvs h tr :
  h !! d = Some (ODict kvs) ->
  dict_items (VRef d) {| heap := h; trace := tr |}
  = (Ok kvs, {| heap := h; trace := tr |}).
Proof.
  intros Hd. unfold dict_items.
  by rewrite (bind_Ok _ _ _ _ _ (deref_Some _ _ _ _ Hd)).
Qed.

(** With [--vectors-only] and without [--fully-opt] the run stops at the
    flag check at the latest, whatever the remaining options are. *)
Lemma geomopt_flags_rejected a h tr :
  Forall (fun x => optional_TyperDict h x = true) (kwargs_of a) ->
  negb (fully_opt a) && vectors_only a = true ->
  exists e h',
    geomopt SinglePoint_impl optimize_impl a {| heap := h; trace := tr |}
    = (Raise e, {| heap := h'; trace := tr |}) /\
    h ⊆ h' /\
    ((forallb (acceptable h) (kwargs_of a) = false /\ exists v, e = must_be_dict v) \/
     (forallb (acceptable h) (kwargs_of a) = true /\ e = vectors_only_error)).
Proof.
  intros Hwf Hflags. unfold geomopt.
  rewrite (bind_Ok _ _ _ _ _ (new_list_eq _ _ _)).
  set (l := fresh (dom h)).
  destruct (normalise_display (kwargs_of a) h tr l (fresh_None h) Hwf)
    as [[Hacc (hn & ys & Hrun & Hsub & Hl & Hall)]
       | [Hacc (h' & i & t & v & Hrun & Hsub & Hi & Ht & Hv)]]; cycle 1.
  { unfold kwargs_of in Hrun. rewrite (bind_Raise _ _ _ _ _ Hrun).
    exists (must_be_dict v), h'. split; [done |]. split; [done |].
    left. split; [done | by eexists]. }
  unfold kwargs_of in Hrun. rewrite (bind_Ok _ _ _ _ _ Hrun).
  unfold kwargs_of in Hall.
  apply Forall2_cons_inv_l in Hall as (r' & ys1 & Hr & Hall & ->).
  apply Forall2_cons_inv_l in Hall as (c' & ys2 & Hc & Hall & ->).
  apply Forall2_cons_inv_l in Hall as (o' & ys3 & Ho & Hall & ->).
  apply Forall2_cons_inv_l in Hall as (w' & ys4 & Hw & Hall & ->).
  apply Forall2_nil_inv_l in Hall as ->.
  unfold unpack4.
  rewrite (bind_Ok _ _ _ _ _ (bind_Ok _ _ _ _ _ (deref_Some _ _ _ _ Hl))).
  cbv beta iota. rewrite Hflags.
  exists vectors_only_error, hn. split; [done |]. split; [done |]. by right.
Qed.

Lemma geomopt_sound a h tr :
  well_formed h a ->
  geomopt_outcome SinglePoint_impl optimize_impl a h tr
    (geomopt SinglePoint_impl optimize_impl a {| heap := h; trace := tr |}).1
    (geomopt SinglePoint_impl optimize_impl a {| heap := h; trace := tr |}).2.
Proof.
  intros [Hwf Htraj].
  destruct (geomopt _ _ a _) as [r st'] eqn:Hgo. cbn [fst snd].
  revert Hgo. unfold geomopt.
  rewrite (bind_Ok _ _ _ _ _ (new_list_eq _ _ _)).
  set (l := fresh (dom h)).
  destruct (normalise_display (kwargs_of a) h tr l (fresh_None h) Hwf)
    as [[Hacc (hn & ys & Hrun & Hsub & Hl & Hall)]
       | [Hacc (h' & i & t & v & Hrun & Hsub & Hi & Ht & Hv)]]; cycle 1.
  { unfold kwargs_of in Hrun. rewrite (bind_Raise _ _ _ _ _ Hrun).
    intros [= <- <-]. by eapply Rejected_kwargs. }
  unfold kwargs_of in Hrun. rewrite (bind_Ok _ _ _ _ _ Hrun).
  pose proof Hall as Hall'. unfold kwargs_of in Hall.
  apply Forall2_cons_inv_l in Hall as (r' & ys1 & Hr & Hall & ->).
  apply Forall2_cons_inv_l in Hall as (c' & ys2 & Hc & Hall & ->).
  apply Forall2_cons_inv_l in Hall as (o' & ys3 & Ho & Hall & ->).
  apply Forall2_cons_inv_l in Hall as (w' & ys4 & Hw & Hall & ->).
  apply Forall2_nil_inv_l in Hall as ->.
  unfold unpack4.
  rewrite (bind_Ok _ _ _ _ _ (bind_Ok _ _ _ _ _ (deref_Some _ _ _ _ Hl))).
  cbv beta iota.
  destruct (negb (fully_opt a) && vectors_only a) eqn:Hflags.
  { apply andb_true_iff in Hflags as [Hf Hv]. apply negb_true_iff in Hf.
    intros [= <- <-]. by apply Rejected_flags. }
  rewrite (bind_Ok _ _ _ _ _ (new_dict_eq _ _ _)).
  set (lw := fresh (dom hn)).
  rewrite bind_SinglePoint.
  set (k := {| sp_struct_path := struct_path a |}).
  fold (log_entries (log_file a) "w"). fold (session_heap a hn lw).
  set (hs := session_heap a hn lw).
  assert (Hlw : hn !! lw = None) by apply fresh_None.
  assert (Hcall : session_call a h hn r' c' o' w' lw k) by (by constructor).
  destruct (SinglePoint_impl k hs) as [s|e] eqn:Hsp.
  2: { intros [= <- <-]. by eapply Session_failed. }
  destruct Ho as (d & kvs & -> & Hd & Ho).
  assert (Hsd : hs !! d = Some (ODict kvs)).
  { subst hs. unfold session_heap. rewrite lookup_insert_ne; [done |].
    intros <-. congruence. }
  rewrite (bind_Ok _ _ _ _ _ (dict_contains_Ok _ _ _ _ _ Hsd)).
  destruct (entries_contain "trajectory" kvs) eqn:Hdup.
  { intros [= <- <-]. by eapply Rejected_trajectory. }
  rewrite (bind_Ok _ _ _ _ _ (truthy_optional_str _ _ _ Htraj)).
  rewrite (bind_Ok _ _ _ _ _ (dict_setitem_Ok _ _ _ _ _ _ Hsd)).
  rewrite (bind_Ok _ _ _ _ _ (truthy_optional_str _ _ _ Htraj)).
  set (x := if supplied (traj_file a) then traj_file a else VNone).
  set (h1 := <[d := _]> hs).
  assert (H1d : h1 !! d = Some (ODict (entries_set "trajectory" x kvs)))
    by apply lookup_insert_eq.
  assert (Hfr1 : forall l', h1 !! l' = None -> hs !! l' = None).
  { intros l' Hl'. subst h1. destruct (decide (d = l')) as [->|Hne];
      [by rewrite lookup_insert_eq in Hl' | by rewrite lookup_insert_ne in Hl']. }
  assert (Hnew : forall h2 v es,
             h1 ⊆ h2 -> new_dict_at h1 h2 v es -> new_dict_at hs h2 v es).
  { intros h2 v es _ (l2 & -> & Hl2 & Hl2'). exists l2. auto. }
  destruct (optional_new_dict (supplied (traj_file a))
              [(VStr "filename", traj_file a)] h1 (tr ++ [CallSinglePoint k]))
    as (tk & h2 & Hrun2 & H12 & Htk).
  rewrite (bind_Ok _ _ _ _ _ Hrun2).
  destruct (optional_new_dict (fully_opt a)
              [(VStr "hydrostatic_strain", VBool (vectors_only a))]
              h2 (tr ++ [CallSinglePoint k]))
    as (fk & h3 & Hrun3 & H23 & Hfk).
  rewrite (bind_Ok _ _ _ _ _ Hrun3).
  destruct (new_dict_fresh (if fully_opt a then []
                            else [(VStr "filter_func", VNone)])
              h3 (tr ++ [CallSinglePoint k])) as (lf & Hlf & Hrun4).
  rewrite (bind_Ok _ _ _ _ _ Hrun4).
  set (h4 := <[lf := _]> h3).
  assert (H34 : h3 ⊆ h4) by (by apply insert_subseteq).
  erewrite (bind_Ok (dict_items _)); cycle 1.
  { apply dict_items_Ok. apply lookup_insert_eq. }
  destruct (new_dict_fresh (log_entries (log_file a) "a")
              h4 (tr ++ [CallSinglePoint k])) as (la & Hla & Hrun5).
  unfold log_entries in Hrun5. rewrite (bind_Ok _ _ _ _ _ Hrun5).
  fold (log_entries (log_file a) "a").
  set (h5 := <[la := _]> h4).
  assert (H45 : h4 ⊆ h5) by (by apply insert_subseteq).
  set (ko := {| opt_struct := struct s |}).
  unfold bind. rewrite optimize_eq. rewrite <- app_assoc. cbn [app].
  intros Hgo.
  assert (Hres : r = match optimize_impl ko h5 with
                     | Ok _ => Ok tt
                     | Raise e => Raise e
                     end
                 /\ st' = {| heap := h5;
                             trace := tr ++ [CallSinglePoint k; CallOptimize ko] |}).
  { destruct (optimize_impl ko h5); by inversion Hgo. }
  destruct Hres as [-> ->].
  eapply Optimized; [exact Hcall | exact Hsp |].
  assert (H15 : h1 ⊆ h5).
  { transitivity h2; [done |]. transitivity h3; [done |]. by transitivity h4. }
  constructor; try done.
  - by eapply lookup_weaken.
  - intros l' o Hne Hl'. eapply lookup_weaken; [| exact H15].
    subst h1. by rewrite lookup_insert_ne.
  - cbn [opt_filter_kwargs ko]. destruct (fully_opt a); [| done].
    apply Hnew; [done |].
    eapply new_dict_at_weaken; [exact H12 | | exact Hfk].
    by transitivity h4.
  - cbn [opt_traj_kwargs ko]. fold x. destruct (supplied (traj_file a)); [| done].
    apply Hnew; [done |].
    eapply new_dict_at_weaken; [reflexivity | | exact Htk].
    transitivity h3; [done |]. by transitivity h4.
  - cbn [opt_log_kwargs ko]. apply Hnew; [done |].
    eapply new_dict_at_weaken; [| reflexivity | by apply new_dict_at_insert].
    transitivity h2; [done |]. by transitivity h3.
Qed.

End Soundness.

(** * Decoded literals in the store *)

(** Induction on literals, with the hypothesis for every literal held. *)
Lemma literal_rect' (P : literal -> Prop) :
  P LNone -> (forall b, P (LBool b)) -> (forall n, P (LInt n)) ->
  (forall f, P (LFloat f)) -> (forall s, P (LStr s)) ->
  (forall s, P (LBytes s)) ->
  (forall xs, Forall P xs -> P (LTuple xs)) ->
  (forall xs, Forall P xs -> P (LList xs)) ->
  (forall xs, Forall P xs -> P (LSet xs)) ->
  (forall kvs, Forall (fun kv => P kv.1 /\ P kv.2) kvs -> P (LDict kvs)) ->
  forall lit, P lit.
Proof.
  intros HNone HBool HInt HFloat HStr HBytes HTuple HList HSet HDict.
  fix IH 1. intros [| b | n | f | s | s | xs | xs | xs | kvs].
  - exact HNone.
  - apply HBool.
  - apply HInt.
  - apply HFloat.
  - apply HStr.
  - apply HBytes.
  - apply HTuple. induction xs as [|x xs IHxs]; constructor; [apply IH | exact IHxs].
  - apply HList. induction xs as [|x xs IHxs]; constructor; [apply IH | exact IHxs].
  - apply HSet. induction xs as [|x xs IHxs]; constructor; [apply IH | exact IHxs].
  - apply HDict. induction kvs as [|[k v] kvs IHkvs]; constructor;
      [split; apply IH | exact IHkvs].
Qed.

Lemma represents_tuple_inv h v xs :
  represents h v (LTuple xs) ->
  exists vs, v = VTuple vs /\ Forall2 (represents h) vs xs.
Proof. inversion 1; eauto. Qed.

Lemma represents_list_inv h v xs :
  represents h v (LList xs) ->
  exists l vs, v = VRef l /\ h !! l = Some (OList vs) /\
               Forall2 (represents h) vs xs.
Proof. inversion 1; eauto. Qed.

Lemma represents_set_inv h v xs :
  represents h v (LSet xs) ->
  exists l vs, v = VRef l /\ h !! l = Some (OSet vs) /\
               Forall2 (represents h) vs xs.
Proof. inversion 1; eauto. Qed.

Lemma represents_dict_inv h v kvs :
  represents h v (LDict kvs) ->
  exists l es, v = VRef l /\ h !! l = Some (ODict es) /\
    Forall2 (fun e kv => represents h e.1 kv.1 /\ represents h e.2 kv.2) es kvs.
Proof. inversion 1; eauto. Qed.

Lemma Forall2_represents_weaken h h' xs :
  Forall (fun x => forall h h' v,
              represents h v x -> h ⊆ h' -> represents h' v x) xs ->
  h ⊆ h' ->
  forall vs, Forall2 (represents h) vs xs -> Forall2 (represents h') vs xs.
Proof.
  intros IH Hsub. induction IH as [|x xs Hx _ IHxs]; intros vs Hvs;
    inversion Hvs; subst; constructor; eauto.
Qed.

Lemma represents_weaken lit :
  forall h h' v, represents h v lit -> h ⊆ h' -> represents h' v lit.
Proof.
  induction lit as [| | | | | | xs IH | xs IH | xs IH | kvs IH] using literal_rect';
    intros h h' v Hrep Hsub.
  1-6: inversion Hrep; constructor.
  - apply represents_tuple_inv in Hrep as (vs & -> & Hvs).
    constructor. by eapply Forall2_represents_weaken.
  - apply represents_list_inv in Hrep as (l & vs & -> & Hl & Hvs).
    econstructor; [by eapply lookup_weaken |].
    by eapply Forall2_represents_weaken.
  - apply represents_set_inv in Hrep as (l & vs & -> & Hl & Hvs).
    econstructor; [by eapply lookup_weaken |].
    by eapply Forall2_represents_weaken.
  - apply represents_dict_inv in Hrep as (l & es & -> & Hl & Hes).
    econstructor; [by eapply lookup_weaken |].
    clear Hl. revert es Hes. induction IH as [|kv kvs [Hk Hv] _ IHkvs];
      intros es Hes; inversion Hes as [|e ? es' ? [He1 He2] Hrest]; subst;
      constructor; [| eauto].
    split; eauto.
Qed.

(** [mapM] of a function that only creates objects. *)
Lemma mapM_creates {A B : Type} (f : A -> M B)
    (R : gmap loc obj -> B -> A -> Prop) (xs : list A) :
  Forall (fun x =>
            (forall h tr, exists y h',
                f x {| heap := h; trace := tr |}
                = (Ok y, {| heap := h'; trace := tr |}) /\ h ⊆ h' /\ R h' y x) /\
            (forall h h' y, R h y x -> h ⊆ h' -> R h' y x)) xs ->
  forall h tr, exists ys h',
    mapM f xs {| heap := h; trace := tr |}
    = (Ok ys, {| heap := h'; trace := tr |}) /\ h ⊆ h' /\ Forall2 (R h') ys xs.
Proof.
  induction 1 as [|x xs [Hx Hmono] Hxs IH]; intros h tr.
  - exists [], h. by repeat split.
  - destruct (Hx h tr) as (y & h1 & Hrun1 & Hsub1 & Hy).
    destruct (IH h1 tr) as (ys & h2 & Hrun2 & Hsub2 & Hys).
    exists (y :: ys), h2. cbn [mapM].
    rewrite (bind_Ok _ _ _ _ _ Hrun1). fold (mapM f).
    rewrite (bind_Ok _ _ _ _ _ Hrun2).
    split; [done |]. split; [by transitivity h1 |].
    constructor; [by eapply Hmono | done].
Qed.

(** [build] never raises: it creates the object the literal describes and
    touches nothing else. *)
Lemma build_spec lit :
  forall h tr, exists v h',
    build lit {| heap := h; trace := tr |}
    = (Ok v, {| heap := h'; trace := tr |}) /\
    h ⊆ h' /\ represents h' v lit.
Proof.
  induction lit as [| | | | | | xs IH | xs IH | xs IH | kvs IH] using literal_rect';
    intros h tr; cbn [build].
  - exists VNone, h. repeat split; [done | constructor].
  - exists (VBool b), h. repeat split; [done | constructor].
  - exists (VInt n), h. repeat split; [done | constructor].
  - exists (VFloat f), h. repeat split; [done | constructor].
  - exists (VStr s), h. repeat split; [done | constructor].
  - exists (VBytes s), h. repeat split; [done | constructor].
  - destruct (mapM_creates build represents xs) with (h := h) (tr := tr)
      as (vs & h1 & Hrun & Hsub & Hvs).
    { eapply Forall_impl; [exact IH |]. intros x Hx. split; [done |].
      intros ? ? ?. apply represents_weaken. }
    exists (VTuple vs), h1. rewrite (bind_Ok _ _ _ _ _ Hrun).
    repeat split; [done |]. by constructor.
  - destruct (mapM_creates build represents xs) with (h := h) (tr := tr)
      as (vs & h1 & Hrun & Hsub & Hvs).
    { eapply Forall_impl; [exact IH |]. intros x Hx. split; [done |].
      intros ? ? ?. apply represents_weaken. }
    rewrite (bind_Ok _ _ _ _ _ Hrun). rewrite new_list_eq.
    set (l := fresh (dom h1)).
    assert (Hsub1 : h1 ⊆ <[l := OList vs]> h1)
      by (apply insert_subseteq, fresh_None).
    exists (VRef l), (<[l := OList vs]> h1).
    split; [done |]. split; [by transitivity h1 |].
    econstructor; [apply lookup_insert_eq |].
    eapply Forall2_impl; [exact Hvs |]. intros v x Hv.
    by eapply represents_weaken.
  - destruct (mapM_creates build represents xs) with (h := h) (tr := tr)
      as (vs & h1 & Hrun & Hsub & Hvs).
    { eapply Forall_impl; [exact IH |]. intros x Hx. split; [done |].
      intros ? ? ?. apply represents_weaken. }
    rewrite (bind_Ok _ _ _ _ _ Hrun). rewrite alloc_eq.
    set (l := fresh (dom h1)).
    assert (Hsub1 : h1 ⊆ <[l := OSet vs]> h1)
      by (apply insert_subseteq, fresh_None).
    exists (VRef l), (<[l := OSet vs]> h1).
    split; [done |]. split; [by transitivity h1 |].
    econstructor; [apply lookup_insert_eq |].
    eapply Forall2_impl; [exact Hvs |]. intros v x Hv.
    by eapply represents_weaken.
  - destruct (mapM_creates
                (fun kv : literal * literal =>
                   let '(k, v) := kv in
                   k' <- build k ;; v' <- build v ;; ret (k', v'))
                (fun h e kv => represents h e.1 kv.1 /\ represents h e.2 kv.2)
                kvs) with (h := h) (tr := tr)
      as (es & h1 & Hrun & Hsub & Hes).
    { eapply Forall_impl; [exact IH |]. intros [k v] [Hk Hv]. split.
      - intros h0 tr0.
        destruct (Hk h0 tr0) as (k' & h1 & Hrun1 & Hsub1 & Hk').
        destruct (Hv h1 tr0) as (v' & h2 & Hrun2 & Hsub2 & Hv').
        exists (k', v'), h2. rewrite (bind_Ok _ _ _ _ _ Hrun1).
        rewrite (bind_Ok _ _ _ _ _ Hrun2).
        split; [done |]. split; [by transitivity h1 |].
        split; [by eapply represents_weaken | done].
      - intros h0 h0' e [He1 He2] Hsub0.
        split; by eapply represents_weaken. }
    rewrite (bind_Ok _ _ _ _ _ Hrun). rewrite new_dict_eq.
    set (l := fresh (dom h1)).
    assert (Hsub1 : h1 ⊆ <[l := ODict es]> h1)
      by (apply insert_subseteq, fresh_None).
    exists (VRef l), (<[l := ODict es]> h1).
    split; [done |]. split; [by transitivity h1 |].
    econstructor; [apply lookup_insert_eq |].
    eapply Forall2_impl; [exact Hes |]. intros e kv [He1 He2].
    split; by eapply represents_weaken.
Qed.

Lemma represents_is_dict h v lit :
  represents h v lit -> is_dict h v = is_dict_literal lit.
Proof.
  intros Hrep. inversion Hrep; subst; try done; cbn [is_dict is_dict_literal];
    by rewrite H.
Qed.

Lemma represents_closed h v lit : represents h v lit -> closed h v = true.
Proof.
  intros Hrep. inversion Hrep; subst; try done; cbn [closed];
    apply bool_decide_eq_true; by eexists.
Qed.

(** * singlepoint, case by case *)

Section SinglepointSoundness.

Variable SinglePoint_impl : SinglePoint_kwargs -> gmap loc obj -> result session.
Variable run_impl : session -> run_kwargs -> gmap loc obj -> result val.

Lemma singlepoint_sound a h tr :
  Forall (fun x => optional_TyperDict h x = true) (s_kwargs_of a) ->
  singlepoint_outcome SinglePoint_impl run_impl a h tr
    (singlepoint SinglePoint_impl run_impl a {| heap := h; trace := tr |}).1
    (singlepoint SinglePoint_impl run_impl a {| heap := h; trace := tr |}).2.
Proof.
  intros Hwf.
  destruct (singlepoint _ _ a _) as [r st'] eqn:Hgo. cbn [fst snd].
  revert Hgo. unfold singlepoint.
  rewrite (bind_Ok _ _ _ _ _ (new_list_eq _ _ _)).
  set (l := fresh (dom h)).
  destruct (normalise_display (s_kwargs_of a) h tr l (fresh_None h) Hwf)
    as [[Hacc (hn & ys & Hrun & Hsub & Hl & Hall)]
       | [Hacc (h' & i & t & v & Hrun & Hsub & Hi & Ht & Hv)]]; cycle 1.
  { unfold s_kwargs_of in Hrun. rewrite (bind_Raise _ _ _ _ _ Hrun).
    intros [= <- <-]. by eapply S_rejected_kwargs. }
  unfold s_kwargs_of in Hrun. rewrite (bind_Ok _ _ _ _ _ Hrun).
  pose proof Hall as Hall'. unfold s_kwargs_of in Hall.
  apply Forall2_cons_inv_l in Hall as (r' & ys1 & Hr & Hall & ->).
  apply Forall2_cons_inv_l in Hall as (c' & ys2 & Hc & Hall & ->).
  apply Forall2_cons_inv_l in Hall as (w' & ys3 & Hw & Hall & ->).
  apply Forall2_nil_inv_l in Hall as ->.
  unfold unpack3.
  rewrite (bind_Ok _ _ _ _ _ (bind_Ok _ _ _ _ _ (deref_Some _ _ _ _ Hl))).
  cbv beta iota.
  rewrite (bind_Ok _ _ _ _ _ (new_dict_eq _ _ _)).
  set (lw := fresh (dom hn)).
  fold (log_entries (s_log_file a) "w"). fold (s_session_heap a hn lw).
  set (k := {| sp_struct_path := s_struct_path a |}).
  set (hs := s_session_heap a hn lw).
  assert (Hlw : hn !! lw = None) by apply fresh_None.
  assert (Hcall : s_session_call a h hn r' c' w' lw k) by (by constructor).
  unfold bind at 1. rewrite SinglePoint_eq.
  destruct (SinglePoint_impl k hs) as [s|e] eqn:Hsp.
  2: { intros [= <- <-]. by eapply S_session_failed. }
  unfold bind. rewrite SinglePoint_run_eq. rewrite <- app_assoc. cbn [app].
  set (kr := {| run_properties := s_properties a |}).
  intros Hgo.
  assert (Hres : r = match run_impl s kr hs with
                     | Ok _ => Ok tt
                     | Raise e => Raise e
                     end
                 /\ st' = {| heap := hs;
                             trace := tr ++ [CallSinglePoint k; CallRun s kr] |}).
  { destruct (run_impl s kr hs); by inversion Hgo. }
  destruct Hres as [-> ->]. by eapply S_ran.
Qed.

End SinglepointSoundness.

(** * The parser and the normaliser *)

Lemma parse_dict_class_spec literal_eval s lit h tr :
  literal_eval s = Ok lit ->
  exists t v h',
    parse_dict_class literal_eval s {| heap := h; trace := tr |}
    = (Ok (VRef t), {| heap := h'; trace := tr |}) /\
    h ⊆ h' /\ h !! t = None /\ h' !! t = Some (OTyperDict v) /\
    represents h' v lit.
Proof.
  intros Hlit. unfold parse_dict_class. rewrite Hlit.
  destruct (build_spec lit h tr) as (v & h1 & Hrun & Hsub & Hrep).
  unfold lift. unfold bind at 1. rewrite (bind_Ok _ _ _ _ _ Hrun).
  unfold TyperDict. rewrite alloc_eq. set (t := fresh (dom h1)).
  assert (Ht : h1 !! t = None) by apply fresh_None.
  assert (Hsub1 : h1 ⊆ <[t := OTyperDict v]> h1) by (by apply insert_subseteq).
  exists t, v, (<[t := OTyperDict v]> h1).
  split; [done |]. split; [by transitivity h1 |].
  split; [by eapply lookup_weaken_None |].
  split; [apply lookup_insert_eq | by eapply represents_weaken].
Qed.

Lemma normalise_one_spec x h tr :
  optional_TyperDict h x = true ->
  (acceptable h x = true /\
   exists d kvs h',
     normalise_one x {| heap := h; trace := tr |}
     = (Ok (VRef d), {| heap := h'; trace := tr |}) /\
     h ⊆ h' /\ resolved h h' x (VRef d) /\ h' !! d = Some (ODict kvs)) \/
  (exists t v h',
     x = VRef t /\ h !! t = Some (OTyperDict v) /\ is_dict h v = false /\
     normalise_one x {| heap := h; trace := tr |}
     = (Raise (must_be_dict v), {| heap := h'; trace := tr |}) /\ h ⊆ h').
Proof.
  intros Hx. unfold normalise_one.
  rewrite (bind_Ok _ _ _ _ _ (new_list_eq _ _ _)).
  set (l := fresh (dom h)).
  destruct (normalise_display [x] h tr l (fresh_None h))
    as [[Hacc (hn & ys & Hrun & Hsub & Hl & Hall)]
       | [Hacc (h' & i & t & v & Hrun & Hsub & Hi & Ht & Hv)]].
  { by constructor. }
  - left. cbn [forallb] in Hacc. rewrite andb_true_r in Hacc. split; [done |].
    apply Forall2_cons_inv_l in Hall as (y & ys1 & Hy & Hall & ->).
    apply Forall2_nil_inv_l in Hall as ->.
    pose proof Hy as (d & kvs & -> & Hd & _).
    exists d, kvs, hn. rewrite (bind_Ok _ _ _ _ _ Hrun).
    by rewrite (list_getitem_Ok l [VRef d] 0 (VRef d) hn tr Hl eq_refl).
  - right. destruct i as [|i]; [| by destruct i].
    injection Hi as ->. exists t, v, h'.
    by rewrite (bind_Raise _ _ _ _ _ Hrun).
Qed.

(** C4. For every list of N optional dictionary inputs, the normaliser
    either raises the [ValueError] whose message is formatted from the
    offending value (the value wrapped by some present element, which is not
    a dict), or returns a list of length N whose element at each position is
    a dict: the wrapped dict where the input was present, an empty dict
    where it was absent. *)
Theorem parse_typer_dicts_normalises l xs h tr :
  h !! l = Some (OList xs) ->
  Forall (fun x => optional_TyperDict h x = true) xs ->
  exists r st',
    parse_typer_dicts (VRef l) {| heap := h; trace := tr |} = (r, st') /\
    ((exists i t v,
         r = Raise (ValueError [Fmt v; Lit " must be passed as a dictionary"]) /\
         xs !! i = Some (VRef t) /\
         h !! t = Some (OTyperDict v) /\
         is_dict h v = false) \/
     (exists ys,
         r = Ok (VRef l) /\
         heap st' !! l = Some (OList ys) /\
         length ys = length xs /\
         Forall (fun y => is_dict (heap st') y = true) ys /\
         forall i x, xs !! i = Some x ->
           exists d kvs,
             ys !! i = Some (VRef d) /\
             heap st' !! d = Some (ODict kvs) /\
             match x with
             | VNone => kvs = [] /\ h !! d = None
             | VRef t =>
                 h !! t = Some (OTyperDict (VRef d)) /\
                 h !! d = Some (ODict kvs)
             | _ => False
             end)).
Proof.
  intros Hl Hwf.
  destruct (parse_typer_dicts_spec l xs h tr Hl Hwf) as (r & h' & Hrun & Hg & Hout).
  exists r, {| heap := h'; trace := tr |}. split; [done |].
  destruct Hout as [(-> & ys & Hl' & Hall) | (i & t & v & -> & Hi & Ht & Hv & _)].
  - right. exists ys. cbn [heap].
    assert (Hres : Forall2 (resolved h h') xs ys).
    { eapply Forall2_impl; [exact Hall |]. intros x y.
      by apply normalised_resolved with (l := l). }
    split; [done |]. split; [done |].
    split; [symmetry; by eapply Forall2_length |]. split.
    + apply Forall_forall. intros y Hy.
      apply list_elem_of_lookup in Hy as [i Hi].
      destruct (Forall2_lookup_r _ _ _ _ _ Hres Hi) as (x & _ & d & kvs & -> & Hd & _).
      cbn [is_dict]. by rewrite Hd.
    + intros i x Hi.
      destruct (Forall2_lookup_l _ _ _ _ _ Hres Hi) as (y & Hy & d & kvs & -> & Hd & Hx).
      exists d, kvs. split; [done |]. split; [done |].
      destruct x; try done. by destruct Hx.
  - left. by exists i, t, v.
Qed.

(** C10. The normaliser works in place: a successful call returns the very
    list object it was given, and afterwards each position of that object
    holds the normalised mapping (the wrapped dict, or a new empty dict);
    no other object of the store has changed. *)
Theorem parse_typer_dicts_in_place l xs h tr v st' :
  h !! l = Some (OList xs) ->
  Forall (fun x => optional_TyperDict h x = true) xs ->
  parse_typer_dicts (VRef l) {| heap := h; trace := tr |} = (Ok v, st') ->
  v = VRef l /\
  (exists ys,
      heap st' !! l = Some (OList ys) /\
      Forall2 (resolved h (heap st')) xs ys) /\
  (forall l' o, l' <> l -> h !! l' = Some o -> heap st' !! l' = Some o).
Proof.
  intros Hl Hwf Hrun.
  destruct (parse_typer_dicts_spec l xs h tr Hl Hwf) as (r & h' & Hrun' & Hg & Hout).
  rewrite Hrun in Hrun'. injection Hrun' as <- ->. cbn [heap].
  destruct Hout as [([= ->] & ys & Hl' & Hall) | (i & t & v' & [=] & _)].
  split; [done |]. split.
  - exists ys. split; [done |].
    eapply Forall2_impl; [exact Hall |]. intros x y.
    by apply normalised_resolved with (l := l).
  - by destruct Hg as (Hp & _).
Qed.

Section Parser.

Variable literal_eval : string -> result literal.

(** C5. Parsing the text of the empty dict display and normalising the
    result gives the same mapping as normalising an absent option: the
    empty mapping, in both cases. *)
Theorem empty_literal_same_as_absent st :
  literal_eval "{}" = Ok (LDict []) ->
  mapping_of ((x <- parse_dict_class literal_eval "{}" ;; normalise_one x) st)
  = mapping_of (normalise_one VNone st) /\
  mapping_of (normalise_one VNone st) = Some [].
Proof.
  intros Hlit. destruct st as [h tr].
  assert (Habsent : mapping_of (normalise_one VNone {| heap := h; trace := tr |})
                    = Some []).
  { destruct (normalise_one_spec VNone h tr eq_refl)
      as [(_ & d & kvs & h' & Hrun & _ & Hres & Hd) | (t & ? & ? & [=] & _)].
    rewrite Hrun. cbn [mapping_of heap]. rewrite Hd.
    destruct Hres as (d' & kvs' & [= <-] & Hd' & _ & ->). congruence. }
  split; [| done]. rewrite Habsent.
  destruct (parse_dict_class_spec literal_eval "{}" _ h tr Hlit)
    as (t & v & h1 & Hrun1 & Hsub1 & Ht & Ht1 & Hrep).
  rewrite (bind_Ok _ _ _ _ _ Hrun1).
  apply represents_dict_inv in Hrep as (d & es & -> & Hd & Hes).
  apply Forall2_nil_inv_r in Hes as ->.
  assert (Hwf : optional_TyperDict h1 (VRef t) = true).
  { cbn [optional_TyperDict closed]. rewrite Ht1.
    apply bool_decide_eq_true. by eexists. }
  destruct (normalise_one_spec (VRef t) h1 tr Hwf)
    as [(_ & d2 & kvs & h2 & Hrun2 & _ & Hres & Hd2)
       | (t' & v' & h2 & [= <-] & Ht' & Hv' & _)].
  - rewrite Hrun2. cbn [mapping_of heap]. rewrite Hd2.
    destruct Hres as (d' & kvs' & [= <-] & Hd' & Ht2 & Hkvs).
    rewrite Ht1 in Ht2. injection Ht2 as <-. congruence.
  - rewrite Ht1 in Ht'. injection Ht' as <-.
    cbn [is_dict] in Hv'. by rewrite Hd in Hv'.
Qed.

(** C9. The parser checks no type: whatever literal the text decodes to
    (a number, a list, a mapping, ...), parsing succeeds and returns a
    [TyperDict] that wraps the decoded value.  When the decoded value is
    not a mapping, it is the normaliser that raises, later, with the
    wrapped value in its message. *)
Theorem parse_dict_class_defers_type_check s lit h tr :
  literal_eval s = Ok lit ->
  exists t v st1,
    parse_dict_class literal_eval s {| heap := h; trace := tr |}
    = (Ok (VRef t), st1) /\
    heap st1 !! t = Some (OTyperDict v) /\
    represents (heap st1) v lit /\
    (is_dict_literal lit = false ->
     exists st2,
       normalise_one (VRef t) st1
       = (Raise (ValueError [Fmt v; Lit " must be passed as a dictionary"]),
          st2)).
Proof.
  intros Hlit.
  destruct (parse_dict_class_spec literal_eval s lit h tr Hlit)
    as (t & v & h1 & Hrun1 & Hsub1 & Ht & Ht1 & Hrep).
  exists t, v, {| heap := h1; trace := tr |}. cbn [heap].
  split; [done |]. split; [done |]. split; [done |].
  intros Hnot.
  assert (Hwf : optional_TyperDict h1 (VRef t) = true).
  { cbn [optional_TyperDict]. rewrite Ht1. by eapply represents_closed. }
  assert (Hv : is_dict h1 v = false)
    by (by rewrite (represents_is_dict _ _ _ Hrep)).
  destruct (normalise_one_spec (VRef t) h1 tr Hwf)
    as [(Hacc & _) | (t' & v' & h2 & [= <-] & Ht' & Hv' & Hrun2 & _)].
  - cbn [acceptable] in Hacc. rewrite Ht1 in Hacc. congruence.
  - rewrite Ht1 in Ht'. injection Ht' as <-. by eexists.
Qed.

End Parser.

(** * geomopt: validation *)

Section Validation.

Variable SinglePoint_impl : SinglePoint_kwargs -> gmap loc obj -> result session.
Variable optimize_impl : optimize_kwargs -> gmap loc obj -> result val.

Lemma geomopt_cases a h tr r st' :
  well_formed h a ->
  geomopt SinglePoint_impl optimize_impl a {| heap := h; trace := tr |} = (r, st') ->
  geomopt_outcome SinglePoint_impl optimize_impl a h tr r st'.
Proof.
  intros Hwf Hrun. pose proof (geomopt_sound SinglePoint_impl optimize_impl a h tr Hwf) as H.
  by rewrite Hrun in H.
Qed.

Lemma session_call_opt_mapping a h hn r' c' d w' lw k kvs :
  session_call a h hn r' c' (VRef d) w' lw k ->
  hn !! d = Some (ODict kvs) ->
  opt_mapping h a = Some kvs.
Proof.
  intros [_ Hres _ _ _ _] Hd. unfold kwargs_of in Hres.
  apply Forall2_cons_inv_l in Hres as (? & ? & _ & Hres & [= <- <-]).
  apply Forall2_cons_inv_l in Hres as (? & ? & _ & Hres & [= <- <-]).
  apply Forall2_cons_inv_l in Hres as (? & ? & Ho & _ & [= <- <-]).
  destruct Ho as (d' & kvs' & [= <-] & Hd' & Ho).
  assert (kvs' = kvs) as -> by congruence.
  unfold opt_mapping. destruct (opt_kwargs a); try done.
  - by destruct Ho as [_ ->].
  - destruct Ho as [-> ->]. done.
Qed.

Lemma session_heap_sub a h hn r' c' o' w' lw k :
  session_call a h hn r' c' o' w' lw k -> h ⊆ session_heap a hn lw.
Proof.
  intros [_ _ Hsub _ Hlw _]. transitivity hn; [done |].
  by apply insert_subseteq.
Qed.

Lemma session_heap_lookup_inv a hn lw d kvs :
  hn !! lw = None ->
  (exists o, hn !! d = Some o) ->
  session_heap a hn lw !! d = Some (ODict kvs) -> hn !! d = Some (ODict kvs).
Proof.
  intros Hlw [o Ho] Hd. unfold session_heap in Hd.
  rewrite lookup_insert_ne in Hd; [done |]. intros <-. congruence.
Qed.

(** C2. Whenever [vectors_only] is set and [fully_opt] is not, the
    command raises a [ValueError], whatever the other options are, and
    it does so before the session is built: no collaborator has been
    called. *)
Theorem geomopt_vectors_only_requires_fully_opt a h tr :
  Forall (fun x => optional_TyperDict h x = true) (kwargs_of a) ->
  vectors_only a = true ->
  fully_opt a = false ->
  raised_before_session tr
    (geomopt SinglePoint_impl optimize_impl a {| heap := h; trace := tr |}).
Proof.
  intros Hwf Hv Hf.
  destruct (geomopt_flags_rejected SinglePoint_impl optimize_impl a h tr Hwf)
    as (e & h' & Hrun & _ & He); [by rewrite Hv, Hf |].
  rewrite Hrun. unfold raised_before_session. cbn [fst snd trace].
  split; [| done].
  destruct He as [[_ [v ->]] | [_ ->]]; by eexists.
Qed.

(** C1, amended. When the parsed optimizer options contain the key
    ['trajectory'], the command ends in an error for every value of
    [--traj], and the optimizer is never called.  The error is a
    [ValueError] raised before the session is built when a dictionary
    option is not a mapping or [--vectors-only] is set without
    [--fully-opt]; otherwise the session is built first, and the error is
    the one of the session if building it failed, or else the [ValueError]
    about the duplicated trajectory. *)
Theorem geomopt_reserved_trajectory_rejected a h tr :
  well_formed h a ->
  reserves_trajectory h a = true ->
  exists e st',
    geomopt SinglePoint_impl optimize_impl a {| heap := h; trace := tr |} = (Raise e, st') /\
    ((trace st' = tr /\
      (exists msg, e = ValueError msg) /\
      (forallb (acceptable h) (kwargs_of a) = false \/
       (fully_opt a = false /\ vectors_only a = true))) \/
     (exists k,
         trace st' = tr ++ [CallSinglePoint k] /\
         forallb (acceptable h) (kwargs_of a) = true /\
         negb (fully_opt a) && vectors_only a = false /\
         (SinglePoint_impl k (heap st') = Raise e \/
          ((exists s, SinglePoint_impl k (heap st') = Ok s) /\
           e = duplicated_trajectory_error)))).
Proof.
  intros Hwf Hres.
  destruct (geomopt _ _ a _) as [r st'] eqn:Hrun.
  apply geomopt_cases in Hrun; [| done].
  destruct Hrun as [i t v h' | h' | hn r' c' o' w' lw k e Hcall Hsp
                   | hn r' c' o' w' lw k s d kvs Hcall Hsp -> Hd Hdup
                   | hn r' c' o' w' lw k s d kvs h' ko Hcall Hsp Hopt].
  - eexists _, _. split; [done |]. cbn [heap trace].
    left. split; [done |]. split; [by eexists | by left].
  - eexists _, _. split; [done |]. cbn [heap trace].
    left. split; [done |]. split; [by eexists | by right].
  - eexists _, _. split; [done |]. cbn [heap trace].
    right. exists k. destruct Hcall. by repeat split; [..| left].
  - eexists _, _. split; [done |]. cbn [heap trace].
    right. exists k. pose proof Hcall as [? _ _ ? _ _].
    repeat split; [done.. |]. right. split; [by eexists | done].
  - exfalso. destruct Hopt as [-> Hbefore Hfree _ _ _ _ _ _ _ _ _ _ _ _].
    pose proof Hcall as [_ Hres' _ _ Hlw _].
    assert (Hd : hn !! d = Some (ODict kvs)).
    { eapply session_heap_lookup_inv; [done | | done].
      unfold kwargs_of in Hres'.
      apply Forall2_cons_inv_l in Hres' as (? & ? & _ & Hres' & [= <- <-]).
      apply Forall2_cons_inv_l in Hres' as (? & ? & _ & Hres' & [= <- <-]).
      apply Forall2_cons_inv_l in Hres' as (? & ? & Ho & _ & [= <- <-]).
      destruct Ho as (d' & kvs' & [= <-] & Hd' & _). by eexists. }
    unfold reserves_trajectory in Hres.
    rewrite (session_call_opt_mapping _ _ _ _ _ _ _ _ _ _ Hcall Hd) in Hres.
    congruence.
Qed.

End Validation.

(** * geomopt: the optimization plan *)

Lemma entries_set_absent k v kvs :
  entries_contain k kvs = false -> entries_set k v kvs = kvs ++ [(VStr k, v)].
Proof.
  induction kvs as [|[key old] rest IH]; cbn; [done |].
  intros H. apply orb_false_iff in H as [Hk Hrest].
  rewrite Hk. f_equal. by apply IH.
Qed.

Lemma entries_get_set k v kvs : entries_get k (entries_set k v kvs) = Some v.
Proof.
  induction kvs as [|[key old] rest IH]; cbn.
  - by rewrite String.eqb_refl.
  - destruct (key_is k key) eqn:Hk; cbn; by rewrite Hk.
Qed.

Lemma new_dict_at_entries h0 h' v kvs :
  new_dict_at h0 h' v kvs -> dict_entries h' v = Some kvs.
Proof. intros (l & -> & _ & Hl). cbn. by rewrite Hl. Qed.

Section Plan.

Variable SinglePoint_impl : SinglePoint_kwargs -> gmap loc obj -> result session.
Variable run_impl : session -> run_kwargs -> gmap loc obj -> result val.
Variable optimize_impl : optimize_kwargs -> gmap loc obj -> result val.


Lemma optimize_call_not_reserved a h hn r' c' o' w' lw k s d kvs h' ko :
  session_call a h hn r' c' o' w' lw k ->
  optimize_call a (session_heap a hn lw) h' s o' w' d kvs ko ->
  opt_mapping h a = Some kvs /\ entries_contain "trajectory" kvs = false.
Proof.
  intros Hcall Hopt. pose proof Hopt as [-> Hbefore Hfree _ _ _ _ _ _ _ _ _ _ _ _].
  split; [| done].
  pose proof Hcall as [_ Hres _ _ Hlw _].
  eapply session_call_opt_mapping; [exact Hcall |].
  eapply session_heap_lookup_inv; [done | | done].
  unfold kwargs_of in Hres.
  apply Forall2_cons_inv_l in Hres as (? & ? & _ & Hres & [= <- <-]).
  apply Forall2_cons_inv_l in Hres as (? & ? & _ & Hres & [= <- <-]).
  apply Forall2_cons_inv_l in Hres as (? & ? & Ho & _ & [= <- <-]).
  destruct Ho as (d' & kvs' & [= <-] & Hd' & _). by eexists.
Qed.



(** C3. In every successful run the filter configuration handed to
    [optimize] is derived from the two flags alone.  Without [fully_opt]
    the filter is disabled: [filter_kwargs] is [None] and the filter
    function is overridden with [None].  With [fully_opt], [filter_kwargs]
    is a dict whose [hydrostatic_strain] flag is the value of
    [vectors_only], and the filter function is left to its default. *)
Theorem geomopt_filter_configuration a h tr st' :
  well_formed h a ->
  geomopt SinglePoint_impl optimize_impl a {| heap := h; trace := tr |}
  = (Ok tt, st') ->
  exists k ko,
    trace st' = tr ++ [CallSinglePoint k; CallOptimize ko] /\
    (fully_opt a = false ->
     opt_filter_kwargs ko = VNone /\
     opt_unpacked ko = [(VStr "filter_func", VNone)]) /\
    (fully_opt a = true ->
     dict_entries (heap st') (opt_filter_kwargs ko)
     = Some [(VStr "hydrostatic_strain", VBool (vectors_only a))] /\
     opt_unpacked ko = []).
Proof.
  intros Hwf Hrun. apply geomopt_cases in Hrun; [| done].
  inversion Hrun as [| | | | hn r' c' o' w' lw k s d kvs h' ko Hcall Hsp Hopt Hr Hst].
  exists k, ko. cbn [trace heap]. split; [done |].
  destruct Hopt as [_ _ _ _ _ _ _ _ Hfilter Hunpacked _ _ _ _ _].
  split; intros Hf; rewrite Hf in Hfilter, Hunpacked; [done |].
  split; [by eapply new_dict_at_entries | done].
Qed.

(** C6, amended. In every successful run the trajectory is wired by one
    assignment to the optimizer options: the mapping handed to [optimize]
    is the caller's mapping (which had no ['trajectory'] entry) with the
    entry ['trajectory'] added.  When [--traj] is a non-empty string, the
    entry is that string and the trajectory-write configuration is the dict
    [{"filename": traj_file}]; when [--traj] is absent or the empty
    string, the entry is [None] and there is no trajectory-write
    configuration. *)
Theorem geomopt_trajectory_wiring a h tr st' :
  well_formed h a ->
  geomopt SinglePoint_impl optimize_impl a {| heap := h; trace := tr |}
  = (Ok tt, st') ->
  exists k ko kvs,
    trace st' = tr ++ [CallSinglePoint k; CallOptimize ko] /\
    opt_mapping h a = Some kvs /\
    entries_contain "trajectory" kvs = false /\
    dict_entries (heap st') (opt_opt_kwargs ko)
    = Some (kvs ++ [(VStr "trajectory",
                     if supplied (traj_file a) then traj_file a else VNone)]) /\
    (supplied (traj_file a) = true ->
     trajectory_wired (heap st') ko (traj_file a)) /\
    (supplied (traj_file a) = false -> trajectory_disabled (heap st') ko).
Proof.
  intros Hwf Hrun. apply geomopt_cases in Hrun; [| done].
  inversion Hrun as [| | | | hn r' c' o' w' lw k s d kvs h' ko Hcall Hsp Hopt Hr Hst].
  destruct (optimize_call_not_reserved _ _ _ _ _ _ _ _ _ _ _ _ _ _ Hcall Hopt)
    as [Hmap Hfree].
  exists k, ko, kvs. cbn [trace heap]. split; [done |].
  destruct Hopt as [-> _ _ Hafter _ _ _ _ _ _ Hopt _ _ Htraj _].
  rewrite entries_set_absent in Hafter by done.
  assert (Hentries : dict_entries h' (opt_opt_kwargs ko)
                     = Some (kvs ++ [(VStr "trajectory",
                                      if supplied (traj_file a) then traj_file a
                                      else VNone)])).
  { rewrite Hopt. cbn [dict_entries]. by rewrite Hafter. }
  assert (Hget : forall v, entries_get "trajectory" (kvs ++ [(VStr "trajectory", v)])
                           = Some v).
  { intros v. rewrite <- (entries_set_absent _ _ _ Hfree). apply entries_get_set. }
  split; [done |]. split; [done |]. split; [done |].
  split; intros Hs; rewrite Hs in Htraj, Hentries.
  - split; [by eexists | by eapply new_dict_at_entries].
  - split; [by eexists | done].
Qed.

Lemma session_log_config a h hn r' c' o' w' lw k :
  session_call a h hn r' c' o' w' lw k ->
  log_config (session_heap a hn lw) (CallSinglePoint k)
  = Some (log_entries (log_file a) "w").
Proof.
  intros [_ _ _ _ _ ->]. cbn. unfold session_heap. by rewrite lookup_insert_eq.
Qed.

Lemma optimize_log_configs a h hn r' c' o' w' lw k s d kvs h' ko :
  session_call a h hn r' c' o' w' lw k ->
  optimize_call a (session_heap a hn lw) h' s o' w' d kvs ko ->
  log_configs h' [CallSinglePoint k; CallOptimize ko]
  = [log_entries (log_file a) "w"; log_entries (log_file a) "a"].
Proof.
  intros Hcall Hopt.
  pose proof (session_log_config _ _ _ _ _ _ _ _ _ Hcall) as Hw.
  pose proof Hcall as [_ Hres _ _ Hlw ->].
  pose proof Hopt as [-> Hbefore _ _ Hframe _ _ _ _ _ _ _ _ _ Hlog].
  assert (Hne : lw <> d).
  { intros ->. unfold kwargs_of in Hres.
    apply Forall2_cons_inv_l in Hres as (? & ? & _ & Hres & [= <- <-]).
    apply Forall2_cons_inv_l in Hres as (? & ? & _ & Hres & [= <- <-]).
    apply Forall2_cons_inv_l in Hres as (? & ? & Ho & _ & [= <- <-]).
    destruct Ho as (d' & kvs' & [= <-] & Hd' & _). congruence. }
  unfold log_configs. cbn [omap list_omap log_config sp_log_kwargs].
  cbn [log_config sp_log_kwargs dict_entries] in Hw.
  destruct (session_heap a hn lw !! lw) as [o|] eqn:Hlw'; [| done].
  cbn [dict_entries]. rewrite (Hframe _ _ Hne Hlw'). destruct o; try done.
  injection Hw as ->. by rewrite (new_dict_at_entries _ _ _ _ Hlog).
Qed.

(** C8, amended. A run of [geomopt] passes its log destination to the
    collaborators in this order: in write mode to the session constructor,
    then in append mode to [optimize].  A run that reaches the optimization
    phase, and so every successful run, passes the same path exactly
    twice; a run rejected before the session is built passes it to nobody,
    and a run that ends between the two calls has passed it once, in write
    mode.  A run of [singlepoint] that builds its session passes its log
    destination once, in write mode, and a run rejected by the normaliser
    passes it to nobody. *)
Theorem log_configuration_sequencing a sa h tr :
  well_formed h a ->
  Forall (fun x => optional_TyperDict h x = true) (s_kwargs_of sa) ->
  (let run := geomopt SinglePoint_impl optimize_impl a
                {| heap := h; trace := tr |} in
   exists evs,
     trace run.2 = tr ++ evs /\
     ((evs = [] /\ exists msg, run.1 = Raise (ValueError msg)) \/
      (exists k e,
          evs = [CallSinglePoint k] /\ run.1 = Raise e /\
          log_configs (heap run.2) evs = [log_entries (log_file a) "w"]) \/
      (exists k ko,
          evs = [CallSinglePoint k; CallOptimize ko] /\
          log_configs (heap run.2) evs
          = [log_entries (log_file a) "w"; log_entries (log_file a) "a"]))) /\
  (let run := singlepoint SinglePoint_impl run_impl sa
                {| heap := h; trace := tr |} in
   exists evs,
     trace run.2 = tr ++ evs /\
     ((evs = [] /\ exists msg, run.1 = Raise (ValueError msg)) \/
      ((exists k, evs = [CallSinglePoint k] /\ exists e, run.1 = Raise e) \/
       (exists k s kr, evs = [CallSinglePoint k; CallRun s kr])) /\
      log_configs (heap run.2) evs = [log_entries (s_log_file sa) "w"])).
Proof.
  intros Hwf Hswf. split; cbv zeta.
  - pose proof (geomopt_sound SinglePoint_impl optimize_impl a h tr Hwf) as Hout.
    destruct (geomopt _ _ a _) as [r st']. cbn [fst snd] in *.
    destruct Hout as [i t v h' | h' | hn r' c' o' w' lw k e Hcall Hsp
                     | hn r' c' o' w' lw k s d kvs Hcall Hsp -> Hd Hdup
                     | hn r' c' o' w' lw k s d kvs h' ko Hcall Hsp Hopt];
      cbn [trace heap].
    + exists []. rewrite app_nil_r. split; [done |]. left. split; [done | by eexists].
    + exists []. rewrite app_nil_r. split; [done |]. left. split; [done | by eexists].
    + eexists. split; [done |]. right. left. exists k, e.
      split; [done |]. split; [done |]. unfold log_configs. cbn [omap list_omap].
      by rewrite (session_log_config _ _ _ _ _ _ _ _ _ Hcall).
    + eexists. split; [done |]. right. left. exists k, duplicated_trajectory_error.
      split; [done |]. split; [done |]. unfold log_configs. cbn [omap list_omap].
      by rewrite (session_log_config _ _ _ _ _ _ _ _ _ Hcall).
    + eexists. split; [done |]. right. right. exists k, ko. split; [done |].
      by eapply optimize_log_configs.
  - pose proof (singlepoint_sound SinglePoint_impl run_impl sa h tr Hswf) as Hout.
    destruct (singlepoint _ _ sa _) as [r st']. cbn [fst snd] in *.
    destruct Hout as [i t v h' | hn r' c' w' lw k e Hcall Hsp
                     | hn r' c' w' lw k s kr Hcall Hsp Hkr];
      cbn [trace heap].
    + exists []. rewrite app_nil_r. split; [done |]. left. split; [done | by eexists].
    + eexists. split; [done |]. right. split; [left; by eauto |].
      destruct Hcall as [_ _ _ _ ->]. unfold log_configs, s_session_heap. cbn.
      by rewrite lookup_insert_eq.
    + eexists. split; [done |]. right. split; [right; by eauto |].
      destruct Hcall as [_ _ _ _ ->]. unfold log_configs, s_session_heap. cbn.
      by rewrite lookup_insert_eq.
Qed.

End Plan.

(** * The theorems at concrete command lines *)

Lemma parse_typer_dicts_normalises_witness :
  exists r st',
    parse_typer_dicts (VRef Scenario.display_loc)
      {| heap := heap Scenario.display.2; trace := [] |} = (r, st') /\
    ((exists i t v,
         r = Raise (ValueError [Fmt v; Lit " must be passed as a dictionary"]) /\
         [VNone; Scenario.parsed Scenario.plain_option] !! i = Some (VRef t) /\
         heap Scenario.display.2 !! t = Some (OTyperDict v) /\
         is_dict (heap Scenario.display.2) v = false) \/
     (exists ys,
         r = Ok (VRef Scenario.display_loc) /\
         heap st' !! Scenario.display_loc = Some (OList ys) /\
         length ys = length [VNone; Scenario.parsed Scenario.plain_option] /\
         Forall (fun y => is_dict (heap st') y = true) ys /\
         forall i x,
           [VNone; Scenario.parsed Scenario.plain_option] !! i = Some x ->
           exists d kvs,
             ys !! i = Some (VRef d) /\
             heap st' !! d = Some (ODict kvs) /\
             match x with
             | VNone => kvs = [] /\ heap Scenario.display.2 !! d = None
             | VRef t =>
                 heap Scenario.display.2 !! t = Some (OTyperDict (VRef d)) /\
                 heap Scenario.display.2 !! d = Some (ODict kvs)
             | _ => False
             end)).
Proof.
  apply (parse_typer_dicts_normalises Scenario.display_loc
           [VNone; Scenario.parsed Scenario.plain_option]
           (heap Scenario.display.2) []).
  - vm_compute. reflexivity.
  - repeat constructor.
Defined.

Lemma parse_typer_dicts_in_place_witness :
  VRef Scenario.display_loc = VRef Scenario.display_loc /\
  (exists ys,
      heap (parse_typer_dicts (VRef Scenario.display_loc)
              {| heap := heap Scenario.display.2; trace := [] |}).2
      !! Scenario.display_loc = Some (OList ys) /\
      Forall2 (resolved (heap Scenario.display.2)
                 (heap (parse_typer_dicts (VRef Scenario.display_loc)
                          {| heap := heap Scenario.display.2; trace := [] |}).2))
        [VNone; Scenario.parsed Scenario.plain_option] ys) /\
  (forall l' o,
      l' <> Scenario.display_loc ->
      heap Scenario.display.2 !! l' = Some o ->
      heap (parse_typer_dicts (VRef Scenario.display_loc)
              {| heap := heap Scenario.display.2; trace := [] |}).2 !! l'
      = Some o).
Proof.
  apply (parse_typer_dicts_in_place Scenario.display_loc
           [VNone; Scenario.parsed Scenario.plain_option]
           (heap Scenario.display.2) []).
  - vm_compute. reflexivity.
  - repeat constructor.
  - vm_compute. reflexivity.
Defined.

Lemma empty_literal_same_as_absent_witness :
  mapping_of ((x <- parse_dict_class MiniLiteral.literal_eval "{}" ;;
               normalise_one x) Scenario.start)
  = mapping_of (normalise_one VNone Scenario.start) /\
  mapping_of (normalise_one VNone Scenario.start) = Some [].
Proof.
  apply (empty_literal_same_as_absent MiniLiteral.literal_eval Scenario.start).
  vm_compute. reflexivity.
Defined.

Lemma parse_dict_class_defers_type_check_witness :
  exists t v st1,
    parse_dict_class MiniLiteral.literal_eval "[1, 2]"
      {| heap := ∅; trace := [] |} = (Ok (VRef t), st1) /\
    heap st1 !! t = Some (OTyperDict v) /\
    represents (heap st1) v (LList [LInt 1; LInt 2]) /\
    (is_dict_literal (LList [LInt 1; LInt 2]) = false ->
     exists st2,
       normalise_one (VRef t) st1
       = (Raise (ValueError [Fmt v; Lit " must be passed as a dictionary"]),
          st2)).
Proof.
  apply (parse_dict_class_defers_type_check MiniLiteral.literal_eval
           "[1, 2]" (LList [LInt 1; LInt 2]) ∅ []).
  vm_compute. reflexivity.
Defined.

Lemma geomopt_vectors_only_requires_fully_opt_witness :
  raised_before_session []
    (geomopt Scenario.session_ok Scenario.optimize_ok
       (Scenario.plain false true (VStr "t.xyz"))
       {| heap := heap Scenario.plain_state; trace := [] |}).
Proof.
  apply (geomopt_vectors_only_requires_fully_opt
           Scenario.session_ok Scenario.optimize_ok
           (Scenario.plain false true (VStr "t.xyz"))
           (heap Scenario.plain_state) []).
  - repeat constructor.
  - reflexivity.
  - reflexivity.
Defined.

Lemma geomopt_reserved_trajectory_rejected_witness :
  exists e st',
    geomopt Scenario.session_ok Scenario.optimize_ok
      (Scenario.reserved false false VNone)
      {| heap := heap Scenario.reserved_state; trace := [] |} = (Raise e, st') /\
    ((trace st' = [] /\
      (exists msg, e = ValueError msg) /\
      (forallb (acceptable (heap Scenario.reserved_state))
         (kwargs_of (Scenario.reserved false false VNone)) = false \/
       (fully_opt (Scenario.reserved false false VNone) = false /\
        vectors_only (Scenario.reserved false false VNone) = true))) \/
     (exists k,
         trace st' = [] ++ [CallSinglePoint k] /\
         forallb (acceptable (heap Scenario.reserved_state))
           (kwargs_of (Scenario.reserved false false VNone)) = true /\
         negb (fully_opt (Scenario.reserved false false VNone))
         && vectors_only (Scenario.reserved false false VNone) = false /\
         (Scenario.session_ok k (heap st') = Raise e \/
          ((exists s, Scenario.session_ok k (heap st') = Ok s) /\
           e = duplicated_trajectory_error)))).
Proof.
  apply (geomopt_reserved_trajectory_rejected
           Scenario.session_ok Scenario.optimize_ok
           (Scenario.reserved false false VNone)
           (heap Scenario.reserved_state) []).
  - split; [repeat constructor | reflexivity].
  - vm_compute. reflexivity.
Defined.

(** C1, as stated, fails on [geomopt --struct water.xyz --opt-kwargs
    "{'trajectory': 'x'}"]: the command does raise the [ValueError] about
    the duplicated trajectory, but only after it has built the session; the
    call to [SinglePoint] is in the trace. *)
Lemma geomopt_trajectory_checked_after_session :
  let run := geomopt Scenario.session_ok Scenario.optimize_ok
               (Scenario.reserved false false VNone)
               {| heap := heap Scenario.reserved_state; trace := [] |} in
  reserves_trajectory (heap Scenario.reserved_state)
    (Scenario.reserved false false VNone) = true /\
  run.1 = Raise duplicated_trajectory_error /\
  (exists k, trace run.2 = [CallSinglePoint k]) /\
  ~ raised_before_session [] run.
Proof.
  cbv zeta. split; [vm_compute; reflexivity |].
  split; [vm_compute; reflexivity |]. split.
  - eexists. vm_compute. reflexivity.
  - intros [_ Htrace]. vm_compute in Htrace. discriminate Htrace.
Qed.


Lemma geomopt_filter_configuration_witness :
  let a := Scenario.plain true true (VStr "t.xyz") in
  let st' := (geomopt Scenario.session_ok Scenario.optimize_ok a
                {| heap := heap Scenario.plain_state; trace := [] |}).2 in
  exists k ko,
    trace st' = [] ++ [CallSinglePoint k; CallOptimize ko] /\
    (fully_opt a = false ->
     opt_filter_kwargs ko = VNone /\
     opt_unpacked ko = [(VStr "filter_func", VNone)]) /\
    (fully_opt a = true ->
     dict_entries (heap st') (opt_filter_kwargs ko)
     = Some [(VStr "hydrostatic_strain", VBool (vectors_only a))] /\
     opt_unpacked ko = []).
Proof.
  cbv zeta.
  apply (geomopt_filter_configuration
           Scenario.session_ok Scenario.optimize_ok
           (Scenario.plain true true (VStr "t.xyz"))
           (heap Scenario.plain_state) []).
  - split; [repeat constructor | reflexivity].
  - vm_compute. reflexivity.
Defined.

Lemma geomopt_trajectory_wiring_witness :
  let a := Scenario.plain false false (VStr "t.xyz") in
  let st' := (geomopt Scenario.session_ok Scenario.optimize_ok a
                {| heap := heap Scenario.plain_state; trace := [] |}).2 in
  exists k ko kvs,
    trace st' = [] ++ [CallSinglePoint k; CallOptimize ko] /\
    opt_mapping (heap Scenario.plain_state) a = Some kvs /\
    entries_contain "trajectory" kvs = false /\
    dict_entries (heap st') (opt_opt_kwargs ko)
    = Some (kvs ++ [(VStr "trajectory",
                     if supplied (traj_file a) then traj_file a else VNone)]) /\
    (supplied (traj_file a) = true ->
     trajectory_wired (heap st') ko (traj_file a)) /\
    (supplied (traj_file a) = false -> trajectory_disabled (heap st') ko).
Proof.
  cbv zeta.
  apply (geomopt_trajectory_wiring
           Scenario.session_ok Scenario.optimize_ok
           (Scenario.plain false false (VStr "t.xyz"))
           (heap Scenario.plain_state) []).
  - split; [repeat constructor | reflexivity].
  - vm_compute. reflexivity.
Defined.

(** C6, as stated, fails on [geomopt --struct water.xyz --opt-kwargs
    "{'alpha': 70}"] with an empty [--traj]: a value was supplied for [--traj], the run
    succeeds, and yet the ['trajectory'] entry is [None], not the supplied
    value, and there is no trajectory-write configuration. *)
Lemma geomopt_empty_traj_not_wired :
  let a := Scenario.plain false false (VStr EmptyString) in
  let run := geomopt Scenario.session_ok Scenario.optimize_ok a
               {| heap := heap Scenario.plain_state; trace := [] |} in
  traj_file a <> VNone /\
  run.1 = Ok tt /\
  exists ko,
    Scenario.optimize_call_of run.2 = Some ko /\
    ~ trajectory_wired (heap run.2) ko (traj_file a) /\
    trajectory_disabled (heap run.2) ko.
Proof.
  cbv zeta. split; [discriminate |]. split; [vm_compute; reflexivity |].
  eexists. split; [vm_compute; reflexivity |]. split.
  - intros [_ Hconfig]. vm_compute in Hconfig. discriminate Hconfig.
  - split; [| vm_compute; reflexivity].
    eexists. split; vm_compute; reflexivity.
Qed.

Lemma log_configuration_sequencing_witness :
  let a := Scenario.plain true false (VStr "t.xyz") in
  let sa := Scenario.single in
  let h := heap Scenario.plain_state in
  (let run := geomopt Scenario.session_ok Scenario.optimize_ok a
                {| heap := h; trace := [] |} in
   exists evs,
     trace run.2 = [] ++ evs /\
     ((evs = [] /\ exists msg, run.1 = Raise (ValueError msg)) \/
      (exists k e,
          evs = [CallSinglePoint k] /\ run.1 = Raise e /\
          log_configs (heap run.2) evs = [log_entries (log_file a) "w"]) \/
      (exists k ko,
          evs = [CallSinglePoint k; CallOptimize ko] /\
          log_configs (heap run.2) evs
          = [log_entries (log_file a) "w"; log_entries (log_file a) "a"]))) /\
  (let run := singlepoint Scenario.session_ok Scenario.run_ok sa
                {| heap := h; trace := [] |} in
   exists evs,
     trace run.2 = [] ++ evs /\
     ((evs = [] /\ exists msg, run.1 = Raise (ValueError msg)) \/
      ((exists k, evs = [CallSinglePoint k] /\ exists e, run.1 = Raise e) \/
       (exists k s kr, evs = [CallSinglePoint k; CallRun s kr])) /\
      log_configs (heap run.2) evs = [log_entries (s_log_file sa) "w"])).
Proof.
  cbv zeta.
  apply (log_configuration_sequencing
           Scenario.session_ok Scenario.run_ok Scenario.optimize_ok
           (Scenario.plain true false (VStr "t.xyz")) Scenario.single
           (heap Scenario.plain_state) []).
  - split; [repeat constructor | reflexivity].
  - repeat constructor.
Defined.

(** C8, as stated, fails on [geomopt --struct water.xyz --vectors-only]:
    the run is rejected before the session is built and passes the log
    destination to nobody, not twice. *)
Lemma geomopt_rejected_run_passes_no_log :
  let a := Scenario.plain false true VNone in
  let run := geomopt Scenario.session_ok Scenario.optimize_ok a
               {| heap := heap Scenario.plain_state; trace := [] |} in
  run.1 = Raise vectors_only_error /\
  log_configs (heap run.2) (trace run.2) = [] /\
  log_configs (heap run.2) (trace run.2)
  <> [log_entries (log_file a) "w"; log_entries (log_file a) "a"].
Proof.
  cbv zeta. split; [vm_compute; reflexivity |].
  split; [vm_compute; reflexivity |].
  intros Hlogs. vm_compute in Hlogs. discriminate Hlogs.
Qed.

(** * Further properties of geomopt *)

Section GeomoptFurther.

Variable SinglePoint_impl : SinglePoint_kwargs -> gmap loc obj -> result session.
Variable optimize_impl : optimize_kwargs -> gmap loc obj -> result val.

(** X1. The dictionary options are checked before anything else: when one of
    them wraps a value that is not a dict, the command raises the
    normaliser's [ValueError] for that value whatever the flags and
    [--traj] are, without calling a collaborator and without changing an
    object of the caller. *)
Theorem geomopt_checks_mappings_first a h tr :
  Forall (fun x => optional_TyperDict h x = true) (kwargs_of a) ->
  forallb (acceptable h) (kwargs_of a) = false ->
  exists i t v h',
    geomopt SinglePoint_impl optimize_impl a {| heap := h; trace := tr |}
    = (Raise (ValueError [Fmt v; Lit " must be passed as a dictionary"]),
       {| heap := h'; trace := tr |}) /\
    kwargs_of a !! i = Some (VRef t) /\
    h !! t = Some (OTyperDict v) /\
    is_dict h v = false /\
    h ⊆ h'.
Proof.
  intros Hwf Hbad. unfold geomopt.
  rewrite (bind_Ok _ _ _ _ _ (new_list_eq _ _ _)).
  set (l := fresh (dom h)).
  destruct (normalise_display (kwargs_of a) h tr l (fresh_None h) Hwf)
    as [[Hacc _] | [_ (h' & i & t & v & Hrun & Hsub & Hi & Ht & Hv)]];
    [congruence |].
  unfold kwargs_of in Hrun. rewrite (bind_Raise _ _ _ _ _ Hrun).
  by exists i, t, v, h'.
Qed.

(** X2. A successful run went through every check: all dictionary options
    are mappings, [--vectors-only] came with [--fully-opt], the optimizer
    options had no ['trajectory'] key, and both collaborators returned. *)
Theorem geomopt_success_validated a h tr st' :
  well_formed h a ->
  geomopt SinglePoint_impl optimize_impl a {| heap := h; trace := tr |}
  = (Ok tt, st') ->
  forallb (acceptable h) (kwargs_of a) = true /\
  (vectors_only a = true -> fully_opt a = true) /\
  reserves_trajectory h a = false /\
  exists k s ko v hs,
    trace st' = tr ++ [CallSinglePoint k; CallOptimize ko] /\
    h ⊆ hs /\
    SinglePoint_impl k hs = Ok s /\
    optimize_impl ko (heap st') = Ok v.
Proof.
  intros Hwf Hrun. apply geomopt_cases in Hrun; [| done].
  inversion Hrun as [| | | | hn r' c' o' w' lw k s d kvs h' ko Hcall Hsp Hopt Hr Hst].
  destruct (optimize_call_not_reserved _ _ _ _ _ _ _ _ _ _ _ _ _ _ Hcall Hopt)
    as [Hmap Hfree].
  pose proof Hcall as [Hacc _ _ Hflags _ _].
  split; [done |]. split.
  { intros Hv. rewrite Hv, andb_true_r in Hflags. by apply negb_false_iff. }
  split; [unfold reserves_trajectory; by rewrite Hmap |].
  destruct (optimize_impl ko h') as [v|e] eqn:Hoptimize; [| done].
  exists k, s, ko, v, (session_heap a hn lw). cbn [trace heap].
  split; [done |]. split; [by eapply session_heap_sub | done].
Qed.


(** X4. Every error of [geomopt] is one of its own three [ValueError]s or an
    error raised by a collaborator, passed on unchanged: before the session
    is built only the normaliser's and the flag check's errors occur; after
    it only the session's own error or the duplicated-trajectory error; and
    once [optimize] is called only the error of [optimize]. *)
Theorem geomopt_errors_classified a h tr e st' :
  well_formed h a ->
  geomopt SinglePoint_impl optimize_impl a {| heap := h; trace := tr |}
  = (Raise e, st') ->
  (trace st' = tr /\
   (e = vectors_only_error \/
    exists v, e = ValueError [Fmt v; Lit " must be passed as a dictionary"])) \/
  (exists k,
      trace st' = tr ++ [CallSinglePoint k] /\
      (SinglePoint_impl k (heap st') = Raise e \/
       ((exists s, SinglePoint_impl k (heap st') = Ok s) /\
        e = duplicated_trajectory_error))) \/
  (exists k ko,
      trace st' = tr ++ [CallSinglePoint k; CallOptimize ko] /\
      optimize_impl ko (heap st') = Raise e).
Proof.
  intros Hwf Hrun. apply geomopt_cases in Hrun; [| done].
  inversion Hrun as [i t v h' ? ? ? ? ? Hr Hst
                    | h' ? ? ? ? Hr Hst
                    | hn r' c' o' w' lw k e' Hcall Hsp Hr Hst
                    | hn r' c' o' w' lw k s d kvs Hcall Hsp Ho Hd Hdup Hr Hst
                    | hn r' c' o' w' lw k s d kvs h' ko Hcall Hsp Hopt Hr Hst];
    subst; cbn [trace heap].
  - left. split; [done |]. right. by eexists.
  - left. split; [done |]. by left.
  - right. left. exists k. split; [done |]. by left.
  - right. left. exists k. split; [done |]. right. split; [by eexists | done].
  - right. right. exists k, ko. split; [done |].
    destruct (optimize_impl ko h'); congruence.
Qed.

Lemma optional_TyperDict_preserved d h h' x :
  preserved_except d h h' ->
  is_Some (h' !! d) ->
  (forall v, h !! d <> Some (OTyperDict v)) ->
  optional_TyperDict h x = true -> optional_TyperDict h' x = true.
Proof.
  intros Hp Hd' Hd Hx. destruct x as [| | | | | | | | |t]; try done.
  cbn [optional_TyperDict] in *.
  destruct (h !! t) as [[| | |v]|] eqn:Ht; try discriminate Hx.
  assert (Hne : t <> d) by (intros ->; by eapply Hd).
  rewrite (Hp _ _ Hne Ht).
  destruct v as [| | | | | | | | |r]; try done. cbn [closed] in *.
  apply bool_decide_eq_true in Hx as [o Ho]. apply bool_decide_eq_true.
  destruct (decide (r = d)) as [->|Hr]; [done |]. by rewrite (Hp _ _ Hr Ho).
Qed.

End GeomoptFurther.

(** * Further properties of singlepoint *)

Section SinglepointFurther.

Variable SinglePoint_impl : SinglePoint_kwargs -> gmap loc obj -> result session.
Variable run_impl : session -> run_kwargs -> gmap loc obj -> result val.

Lemma singlepoint_cases a h tr r st' :
  Forall (fun x => optional_TyperDict h x = true) (s_kwargs_of a) ->
  singlepoint SinglePoint_impl run_impl a {| heap := h; trace := tr |} = (r, st') ->
  singlepoint_outcome SinglePoint_impl run_impl a h tr r st'.
Proof.
  intros Hwf Hrun.
  pose proof (singlepoint_sound SinglePoint_impl run_impl a h tr Hwf) as H.
  by rewrite Hrun in H.
Qed.


(** X9. Every error of [singlepoint] is the normaliser's [ValueError], raised
    before the session is built, or an error raised by a collaborator and
    passed on unchanged: the session's, with [run] never called, or the one
    of [run]. *)
Theorem singlepoint_errors_classified a h tr e st' :
  Forall (fun x => optional_TyperDict h x = true) (s_kwargs_of a) ->
  singlepoint SinglePoint_impl run_impl a {| heap := h; trace := tr |}
  = (Raise e, st') ->
  (trace st' = tr /\
   forallb (acceptable h) (s_kwargs_of a) = false /\
   exists v, e = ValueError [Fmt v; Lit " must be passed as a dictionary"]) \/
  (exists k,
      trace st' = tr ++ [CallSinglePoint k] /\
      SinglePoint_impl k (heap st') = Raise e) \/
  (exists k s kr,
      trace st' = tr ++ [CallSinglePoint k; CallRun s kr] /\
      SinglePoint_impl k (heap st') = Ok s /\
      run_impl s kr (heap st') = Raise e).
Proof.
  intros Hwf Hrun. apply singlepoint_cases in Hrun; [| done].
  inversion Hrun as [i t v h' Hacc ? ? ? ? Hr Hst
                    | hn r' c' w' lw k e' Hcall Hsp Hr Hst
                    | hn r' c' w' lw k s kr Hcall Hsp Hkr Hr Hst];
    subst; cbn [trace heap].
  - left. split; [done |]. split; [done | by eexists].
  - right. left. by exists k.
  - right. right. eexists k, s, _. split; [done |]. split; [done |].
    match goal with |- ?f = _ => destruct f end; congruence.
Qed.

End SinglepointFurther.

(** * Further properties of the parser *)

Lemma build_dict_new kvs h tr :
  exists d es h',
    build (LDict kvs) {| heap := h; trace := tr |}
    = (Ok (VRef d), {| heap := h'; trace := tr |}) /\
    h !! d = None /\ h' !! d = Some (ODict es) /\ h ⊆ h'.
Proof.
  cbn [build].
  destruct (mapM_creates
              (fun kv : literal * literal =>
                 let '(k, v) := kv in
                 k' <- build k ;; v' <- build v ;; ret (k', v'))
              (fun h e kv => represents h e.1 kv.1 /\ represents h e.2 kv.2)
              kvs) with (h := h) (tr := tr)
    as (es & h1 & Hrun & Hsub & _).
  { apply Forall_forall. intros [k v] _. split.
    - intros h0 tr0.
      destruct (build_spec k h0 tr0) as (k' & h1 & Hrun1 & Hsub1 & Hk').
      destruct (build_spec v h1 tr0) as (v' & h2 & Hrun2 & Hsub2 & Hv').
      exists (k', v'), h2. rewrite (bind_Ok _ _ _ _ _ Hrun1).
      rewrite (bind_Ok _ _ _ _ _ Hrun2).
      split; [done |]. split; [by transitivity h1 |].
      split; [by eapply represents_weaken | done].
    - intros h0 h0' e [He1 He2] Hsub0.
      split; by eapply represents_weaken. }
  rewrite (bind_Ok _ _ _ _ _ Hrun), new_dict_eq.
  set (d := fresh (dom h1)).
  assert (Hd : h1 !! d = None) by apply fresh_None.
  exists d, es, (<[d := ODict es]> h1). split; [done |].
  split; [by eapply lookup_weaken_None |].
  split; [apply lookup_insert_eq |].
  transitivity h1; [done | by apply insert_subseteq].
Qed.

(** X10. Parsing the text of a dict display creates two new objects, the
    wrapper and the dict it wraps, and touches nothing else: every parse
    gives a mapping of its own, shared with no object already in the store
    (so not with the result of an earlier parse of the same text). *)
Theorem parse_dict_class_creates_new_objects literal_eval s kvs h tr :
  literal_eval s = Ok (LDict kvs) ->
  exists t d es h',
    parse_dict_class literal_eval s {| heap := h; trace := tr |}
    = (Ok (VRef t), {| heap := h'; trace := tr |}) /\
    h !! t = None /\ h !! d = None /\ t <> d /\
    h' !! t = Some (OTyperDict (VRef d)) /\
    h' !! d = Some (ODict es) /\
    represents h' (VRef d) (LDict kvs) /\
    h ⊆ h'.
Proof.
  intros Hlit.
  destruct (parse_dict_class_spec literal_eval s _ h tr Hlit)
    as (t & v & h' & Hrun & Hsub & Ht & Ht' & Hrep).
  destruct (build_dict_new kvs h tr) as (d & es & h1 & Hbuild & Hd & Hd1 & Hsub1).
  assert (Hfresh : h1 !! fresh (dom h1) = None) by apply fresh_None.
  assert (Hne : fresh (dom h1) <> d) by (intros Heq; congruence).
  assert (Hmine : parse_dict_class literal_eval s {| heap := h; trace := tr |}
                  = (Ok (VRef (fresh (dom h1))),
                     {| heap := <[fresh (dom h1) := OTyperDict (VRef d)]> h1;
                        trace := tr |})).
  { unfold parse_dict_class. rewrite Hlit. unfold lift. unfold bind at 1.
    by rewrite (bind_Ok _ _ _ _ _ Hbuild). }
  rewrite Hmine in Hrun. simplify_eq.
  rewrite lookup_insert_eq in Ht'. simplify_eq.
  exists (fresh (dom h1)), d, es, (<[fresh (dom h1) := OTyperDict (VRef d)]> h1).
  split; [done |]. split; [done |]. split; [done |]. split; [done |].
  split; [apply lookup_insert_eq |]. split; [by rewrite lookup_insert_ne |].
  by split.
Qed.

(** X11. The parser raises only what the decoder raises: it fails exactly when
    [ast.literal_eval] fails, with the same exception and without creating
    an object; on every text that decodes it returns a wrapper. *)
Theorem parse_dict_class_raises_only_decoder_errors literal_eval s e st st' :
  parse_dict_class literal_eval s st = (Raise e, st') <->
  literal_eval s = Raise e /\ st' = st.
Proof.
  destruct st as [h tr]. split.
  - intros Hrun. destruct (literal_eval s) as [lit|e0] eqn:Hlit.
    + destruct (parse_dict_class_spec literal_eval s lit h tr Hlit)
        as (t & v & h' & Hrun' & _). congruence.
    + revert Hrun. unfold parse_dict_class. rewrite Hlit.
      by intros [= <- <-].
  - intros [Hlit ->]. unfold parse_dict_class. by rewrite Hlit.
Qed.

(** * Further properties of the normaliser *)

(** X13. On optional [TyperDict]s the normaliser raises nothing but its own
    [ValueError], and the value in the message is the one wrapped by the
    first element, in list order, that does not wrap a dict: every element
    before it is absent or wraps a dict. *)
Theorem parse_typer_dicts_reports_first_offender l xs h tr e st' :
  h !! l = Some (OList xs) ->
  Forall (fun x => optional_TyperDict h x = true) xs ->
  parse_typer_dicts (VRef l) {| heap := h; trace := tr |} = (Raise e, st') ->
  exists i t v,
    e = ValueError [Fmt v; Lit " must be passed as a dictionary"] /\
    xs !! i = Some (VRef t) /\
    h !! t = Some (OTyperDict v) /\
    is_dict h v = false /\
    forall j x, (j < i)%nat -> xs !! j = Some x -> acceptable h x = true.
Proof.
  intros Hl Hwf Hrun.
  destruct (parse_typer_dicts_spec l xs h tr Hl Hwf) as (r & h' & Hrun' & _ & Hout).
  rewrite Hrun in Hrun'. injection Hrun' as <- ->.
  destruct Hout as [([=] & _) | (i & t & v & [= ->] & Hi & Ht & Hv & Hacc)].
  exists i, t, v. split; [done |]. split; [done |]. split; [done |].
  split; [done |]. intros j x Hj Hx.
  eapply (Forall_lookup_1 _ _ j x) in Hacc; [done |].
  by rewrite lookup_take_lt.
Qed.

Lemma truthy_weaken x b h h1 tr tr1 :
  truthy x {| heap := h; trace := tr |} = (Ok b, {| heap := h; trace := tr |}) ->
  h ⊆ h1 ->
  truthy x {| heap := h1; trace := tr1 |}
  = (Ok b, {| heap := h1; trace := tr1 |}).
Proof.
  intros Hx Hsub. destruct x as [| | | | | | | | |t]; cbn [truthy] in *;
    try (injection Hx as <-; reflexivity).
  destruct (h !! t) as [o|] eqn:Ht.
  - rewrite (bind_Ok _ _ _ _ _ (deref_Some _ _ _ _ Ht)) in Hx.
    rewrite (bind_Ok _ _ _ _ _ (deref_Some _ _ _ _ (lookup_weaken _ _ _ _ Ht Hsub))).
    destruct o; by injection Hx as <-.
  - unfold deref, bind, get_heap in Hx. cbn in Hx. by rewrite Ht in Hx.
Qed.

Lemma loop_falsy fuel l items i x h tr :
  h !! l = Some (OList items) ->
  items !! i = Some x ->
  truthy x {| heap := h; trace := tr |} = (Ok false, {| heap := h; trace := tr |}) ->
  let d := fresh (dom h) in
  parse_typer_dicts_loop (S fuel) (VRef l) i {| heap := h; trace := tr |}
  = parse_typer_dicts_loop fuel (VRef l) (S i)
      {| heap := <[l := OList (<[i := VRef d]> items)]> (<[d := ODict []]> h);
         trace := tr |}.
Proof.
  intros Hl Hi Hx d.
  assert (Hd : h !! d = None) by apply fresh_None.
  assert (Hne : d <> l) by (intros ->; congruence).
  assert (Hlt : (i < length items)%nat) by (by eapply lookup_lt_Some).
  cbn [parse_typer_dicts_loop].
  rewrite (bind_Ok _ _ _ _ _ (iter_next_Some _ _ _ _ _ _ Hl Hi)).
  rewrite (bind_Ok _ _ _ _ _ Hx). cbv iota.
  erewrite (bind_Ok (new_dict _)) by apply alloc_eq. fold d.
  erewrite (bind_Ok (list_setitem _ _ _)); cycle 1.
  { apply list_setitem_Ok; [by rewrite lookup_insert_ne | done]. }
  erewrite (bind_Ok (list_getitem _ _)); cycle 1.
  { eapply list_getitem_Ok; [apply lookup_insert_eq |].
    by apply list_lookup_insert_eq. }
  erewrite (bind_Ok (isinstance_dict _)); cycle 1.
  { apply isinstance_dict_closed. cbn [closed]. apply bool_decide_eq_true.
    rewrite lookup_insert_ne, lookup_insert_eq by done. by eexists. }
  cbn [is_dict]. by rewrite lookup_insert_ne, lookup_insert_eq by done.
Qed.

(** X14. [None] is not special to the normaliser: the test is [if typer_dict],
    so every element that is false in a condition ([None], [False], [0],
    the empty string, an empty list or dict) is replaced by a new empty
    dict.  In particular an empty dict handed over directly is replaced by
    another object. *)
Theorem normalise_falsy_as_absent x h tr :
  truthy x {| heap := h; trace := tr |} = (Ok false, {| heap := h; trace := tr |}) ->
  exists d h',
    normalise_one x {| heap := h; trace := tr |}
    = (Ok (VRef d), {| heap := h'; trace := tr |}) /\
    h !! d = None /\
    h' !! d = Some (ODict []) /\
    h ⊆ h'.
Proof.
  intros Hx. unfold normalise_one.
  rewrite (bind_Ok _ _ _ _ _ (new_list_eq _ _ _)).
  set (l := fresh (dom h)). set (h1 := <[l := OList [x]]> h).
  assert (Hl : h !! l = None) by apply fresh_None.
  assert (Hsub : h ⊆ h1) by (by apply insert_subseteq).
  assert (Hl1 : h1 !! l = Some (OList [x])) by apply lookup_insert_eq.
  pose proof (truthy_weaken _ _ _ _ _ tr Hx Hsub) as Hx1.
  set (d := fresh (dom h1)).
  set (h2 := <[l := OList [VRef d]]> (<[d := ODict []]> h1)).
  assert (Hd : h1 !! d = None) by apply fresh_None.
  assert (Hne : d <> l) by (intros Heq; congruence).
  assert (Hl2 : h2 !! l = Some (OList [VRef d])) by apply lookup_insert_eq.
  assert (Hparse : parse_typer_dicts (VRef l) {| heap := h1; trace := tr |}
                   = (Ok (VRef l), {| heap := h2; trace := tr |})).
  { unfold parse_typer_dicts. cbn [heap list_length]. rewrite Hl1. cbn [length].
    erewrite (bind_Ok (parse_typer_dicts_loop _ _ _)); [reflexivity |].
    rewrite (loop_falsy 1 l [x] 0 x h1 tr Hl1 eq_refl Hx1). cbv zeta.
    by apply (loop_stop 0 l [VRef d] 1 h2 tr Hl2). }
  rewrite (bind_Ok _ _ _ _ _ Hparse).
  rewrite (list_getitem_Ok l [VRef d] 0 (VRef d) h2 tr Hl2 eq_refl).
  exists d, h2. split; [done |]. split; [by eapply lookup_weaken_None |].
  split.
  - subst h2. rewrite lookup_insert_ne by done. apply lookup_insert_eq.
  - apply map_subseteq_spec. intros l' o Hl'. subst h2.
    assert (Hl1' : h1 !! l' = Some o) by (by eapply lookup_weaken).
    rewrite lookup_insert_ne by congruence. rewrite lookup_insert_ne by congruence.
    done.
Qed.

(** X15. An element that is true in a condition must be a [TyperDict]: for any
    other true value (a dict with entries handed over directly, a string, a
    number) reading [.value] fails, and the normaliser raises an
    [AttributeError] instead of its own [ValueError].  The caller's objects
    are untouched. *)
Theorem normalise_truthy_needs_value x h tr :
  truthy x {| heap := h; trace := tr |} = (Ok true, {| heap := h; trace := tr |}) ->
  (forall t v, x = VRef t -> h !! t <> Some (OTyperDict v)) ->
  exists h',
    normalise_one x {| heap := h; trace := tr |}
    = (Raise (AttributeError [Lit "object has no attribute 'value'"]),
       {| heap := h'; trace := tr |}) /\
    h ⊆ h'.
Proof.
  intros Hx Hnot. unfold normalise_one.
  rewrite (bind_Ok _ _ _ _ _ (new_list_eq _ _ _)).
  set (l := fresh (dom h)). set (h1 := <[l := OList [x]]> h).
  assert (Hl : h !! l = None) by apply fresh_None.
  assert (Hsub : h ⊆ h1) by (by apply insert_subseteq).
  assert (Hl1 : h1 !! l = Some (OList [x])) by apply lookup_insert_eq.
  pose proof (truthy_weaken _ _ _ _ _ tr Hx Hsub) as Hx1.
  exists h1. split; [| done].
  apply bind_Raise. unfold parse_typer_dicts. cbn [heap list_length].
  rewrite Hl1. cbn [length]. apply bind_Raise.
  cbn [parse_typer_dicts_loop].
  rewrite (bind_Ok _ _ _ _ _ (iter_next_Some l [x] 0 x h1 tr Hl1 eq_refl)).
  rewrite (bind_Ok _ _ _ _ _ Hx1). cbv iota. apply bind_Raise.
  destruct x as [| | | | | | | | |t]; try reflexivity.
  cbn [truthy] in Hx.
  destruct (h !! t) as [o|] eqn:Ht.
  - pose proof (lookup_weaken _ _ _ _ Ht Hsub) as Ht1.
    unfold getattr_value. rewrite (bind_Ok _ _ _ _ _ (deref_Some _ _ _ _ Ht1)).
    destruct o; try reflexivity. by destruct (Hnot t value eq_refl).
  - unfold deref, bind, get_heap in Hx. cbn in Hx. by rewrite Ht in Hx.
Qed.

(** ** The normaliser on arbitrary lists *)

Lemma truthy_pure v st :
  exists r, truthy v st = (r, st) /\ r <> Raise (SystemError [Lit "out of fuel"]).
Proof.
  destruct st as [h tr]. destruct v as [| | | | | | | | |t]; cbn [truthy];
    try (eexists; split; [reflexivity | discriminate]).
  unfold deref, bind, get_heap. cbn.
  destruct (h !! t) as [[| | |]|]; eexists; (split; [reflexivity | discriminate]).
Qed.

Lemma getattr_value_pure v st :
  exists r, getattr_value v st = (r, st) /\
            r <> Raise (SystemError [Lit "out of fuel"]).
Proof.
  destruct st as [h tr]. destruct v as [| | | | | | | | |t]; cbn [getattr_value];
    try (eexists; split; [reflexivity | discriminate]).
  unfold deref, bind, get_heap. cbn.
  destruct (h !! t) as [[| | |]|]; eexists; (split; [reflexivity | discriminate]).
Qed.

Lemma isinstance_dict_pure v st :
  exists r, isinstance_dict v st = (r, st) /\
            r <> Raise (SystemError [Lit "out of fuel"]).
Proof.
  destruct st as [h tr]. destruct v as [| | | | | | | | |t]; cbn [isinstance_dict];
    try (eexists; split; [reflexivity | discriminate]).
  unfold deref, bind, get_heap. cbn.
  destruct (h !! t) as [[| | |]|]; eexists; (split; [reflexivity | discriminate]).
Qed.

Lemma loop_keeps_step l h h1 h' items items1 r :
  h !! l = Some (OList items) ->
  length items1 = length items ->
  preserved_except l h h1 ->
  (forall l' o, h !! l' = None -> h1 !! l' = Some o -> o = ODict []) ->
  loop_keeps l h1 h' items1 r ->
  loop_keeps l h h' items r.
Proof.
  intros Hl Hlen Hp Hnew ((items' & Hl' & Hlen') & Hp' & Hnew' & Hr).
  split; [exists items'; split; [done | congruence] |].
  split; [| split; [| done]].
  - intros l' o Hne Ho. apply Hp'; [done |]. by apply Hp.
  - intros l' o Hnone Ho.
    destruct (h1 !! l') as [o1|] eqn:H1.
    + assert (l' <> l) by (intros ->; congruence).
      pose proof (Hnew _ _ Hnone H1) as ->.
      rewrite (Hp' _ _ H H1) in Ho. congruence.
    + by eapply Hnew'.
Qed.

Lemma loop_frame l tr :
  forall fuel i h items,
    h !! l = Some (OList items) ->
    (length items - i < fuel)%nat ->
    exists r h',
      parse_typer_dicts_loop fuel (VRef l) i {| heap := h; trace := tr |}
      = (r, {| heap := h'; trace := tr |}) /\
      loop_keeps l h h' items r.
Proof.
  induction fuel as [|fuel IH]; intros i h items Hl Hfuel; [lia |].
  assert (Hsame : forall r, r <> Raise (SystemError [Lit "out of fuel"]) ->
                            loop_keeps l h h items r).
  { intros r Hr. split; [by exists items |].
    split; [by intros ? ? ? ? |]. split; [| done]. intros l' o Hn Ho. congruence. }
  destruct (items !! i) as [x|] eqn:Hi; cycle 1.
  { exists (Ok tt), h. split; [by eapply loop_stop |]. by apply Hsame. }
  assert (Hlt : (i < length items)%nat) by (by eapply lookup_lt_Some).
  cbn [parse_typer_dicts_loop].
  rewrite (bind_Ok _ _ _ _ _ (iter_next_Some _ _ _ _ _ _ Hl Hi)).
  destruct (truthy_pure x {| heap := h; trace := tr |}) as ([c|e] & Hx & Hxe);
    cycle 1.
  { exists (Raise e), h. rewrite (bind_Raise _ _ _ _ _ Hx). split; [done |].
    apply Hsame. congruence. }
  rewrite (bind_Ok _ _ _ _ _ Hx).
  (* the rest of a round, once the new element [v] is known *)
  assert (Hrest : forall v h1,
             h1 !! l = Some (OList items) ->
             preserved_except l h h1 ->
             (forall l' o, h !! l' = None -> h1 !! l' = Some o -> o = ODict []) ->
             exists r h',
               (list_setitem (VRef l) i v ;;;
                cur <- list_getitem (VRef l) i ;;
                is_dict <- isinstance_dict cur ;;
                if negb is_dict
                then
                  bad <- list_getitem (VRef l) i ;;
                  raise (ValueError [Fmt bad; Lit " must be passed as a dictionary"])
                else parse_typer_dicts_loop fuel (VRef l) (S i))
                 {| heap := h1; trace := tr |}
               = (r, {| heap := h'; trace := tr |}) /\
               loop_keeps l h h' items r).
  { intros v h1 Hl1 Hp1 Hnew1.
    rewrite (bind_Ok _ _ _ _ _ (list_setitem_Ok _ _ _ v _ _ Hl1 Hlt)).
    set (items2 := <[i := v]> items). set (h2 := <[l := OList items2]> h1).
    assert (Hl2 : h2 !! l = Some (OList items2)) by apply lookup_insert_eq.
    assert (Hlen2 : length items2 = length items) by apply length_insert.
    assert (Hget : list_getitem (VRef l) i {| heap := h2; trace := tr |}
                   = (Ok v, {| heap := h2; trace := tr |})).
    { eapply list_getitem_Ok; [done |]. by apply list_lookup_insert_eq. }
    assert (Hp2 : preserved_except l h h2).
    { intros l' o Hne Ho. subst h2. rewrite lookup_insert_ne by done. by apply Hp1. }
    assert (Hnew2 : forall l' o, h !! l' = None -> h2 !! l' = Some o -> o = ODict []).
    { intros l' o Hn Ho. subst h2.
      rewrite lookup_insert_ne in Ho by (intros ->; congruence). by eapply Hnew1. }
    assert (Hkeep2 : forall r, r <> Raise (SystemError [Lit "out of fuel"]) ->
                               loop_keeps l h h2 items r).
    { intros r Hr. split; [by exists items2 |]. by repeat split. }
    rewrite (bind_Ok _ _ _ _ _ Hget).
    destruct (isinstance_dict_pure v {| heap := h2; trace := tr |})
      as ([b|e] & Hb & Hbe); cycle 1.
    { exists (Raise e), h2. rewrite (bind_Raise _ _ _ _ _ Hb). split; [done |].
      apply Hkeep2. congruence. }
    rewrite (bind_Ok _ _ _ _ _ Hb). destruct b; cbn [negb].
    - destruct (IH (S i) h2 items2 Hl2) as (r & h' & Hrun & Hkeep); [lia |].
      exists r, h'. split; [done |].
      eapply loop_keeps_step; [exact Hl | exact Hlen2 | exact Hp2 | exact Hnew2 |].
      exact Hkeep.
    - rewrite (bind_Ok _ _ _ _ _ Hget). eexists _, h2. split; [reflexivity |].
      by apply Hkeep2. }
  destruct c.
  - destruct (getattr_value_pure x {| heap := h; trace := tr |})
      as ([v|e] & Hv & Hve); cycle 1.
    { exists (Raise e), h. rewrite (bind_Raise _ _ _ _ _ Hv). split; [done |].
      apply Hsame. congruence. }
    rewrite (bind_Ok _ _ _ _ _ Hv).
    apply Hrest; [done | by intros ? ? ? ? |]. intros l' o Hn Ho. congruence.
  - rewrite (bind_Ok _ _ _ _ _ (new_dict_eq _ _ _)).
    set (d := fresh (dom h)).
    assert (Hd : h !! d = None) by apply fresh_None.
    apply Hrest.
    + rewrite lookup_insert_ne; [done |]. intros Heq. congruence.
    + intros l' o Hne Ho. rewrite lookup_insert_ne; [done |]. intros Heq. congruence.
    + intros l' o Hn Ho. destruct (decide (d = l')) as [<-|Hne].
      * rewrite lookup_insert_eq in Ho. congruence.
      * rewrite lookup_insert_ne in Ho by done. congruence.
Qed.

(** X16. Whatever the list holds, the normaliser stops within one round per
    element (it never runs out of the fuel the model gives it), keeps the
    length of the list, changes no other object that existed, creates
    nothing but empty dicts, calls no collaborator, and returns, when it
    returns, the list it was given. *)
Theorem parse_typer_dicts_keeps_frame l items h tr :
  h !! l = Some (OList items) ->
  exists r h' items',
    parse_typer_dicts (VRef l) {| heap := h; trace := tr |}
    = (r, {| heap := h'; trace := tr |}) /\
    r <> Raise (SystemError [Lit "out of fuel"]) /\
    (forall v, r = Ok v -> v = VRef l) /\
    h' !! l = Some (OList items') /\
    length items' = length items /\
    (forall l' o, l' <> l -> h !! l' = Some o -> h' !! l' = Some o) /\
    (forall l' o, h !! l' = None -> h' !! l' = Some o -> o = ODict []).
Proof.
  intros Hl.
  destruct (loop_frame l tr (S (length items)) 0 h items Hl)
    as (r & h' & Hrun & (items' & Hl' & Hlen) & Hp & Hnew & Hr); [lia |].
  unfold parse_typer_dicts. cbn [heap list_length]. rewrite Hl.
  destruct r as [[]|e].
  - rewrite (bind_Ok _ _ _ _ _ Hrun). exists (Ok (VRef l)), h', items'.
    split; [done |]. split; [done |]. split; [by intros v [= <-] |].
    by repeat split.
  - rewrite (bind_Raise _ _ _ _ _ Hrun). exists (Raise e), h', items'.
    split; [done |]. split; [congruence |]. split; [done |].
    by repeat split.
Qed.

(** ** What the normaliser leaves in the list *)

Lemma loop_state l tr h0 suffix :
  forall prefix h fuel,
    grown l h0 h ->
    h !! l = Some (OList (prefix ++ suffix)) ->
    Forall (fun x => optional_TyperDict h0 x = true) suffix ->
    (length suffix < fuel)%nat ->
    exists r h',
      parse_typer_dicts_loop fuel (VRef l) (length prefix)
        {| heap := h; trace := tr |} = (r, {| heap := h'; trace := tr |}) /\
      grown l h0 h' /\ preserved_except l h h' /\
      loop_leaves l h0 h h' prefix suffix r.
Proof.
  induction suffix as [|x rest IH]; intros prefix h fuel Hg Hl Hwf Hfuel.
  - destruct fuel as [|fuel]; [cbn in Hfuel; lia |].
    exists (Ok tt), h. split; [| split; [done | split]].
    + eapply loop_stop; [done |]. apply lookup_ge_None. rewrite app_nil_r. lia.
    + apply preserved_except_refl.
    + left. split; [done |]. exists [].
      split; [done |]. split; [constructor |]. split; constructor.
  - destruct fuel as [|fuel]; [cbn in Hfuel; lia |].
    cbn [length] in Hfuel.
    apply Forall_cons in Hwf as [Hx Hrest].
    pose proof (lookup_middle prefix x rest) as Hi.
    destruct x as [| | | | | | | | |t]; try discriminate Hx.
    + rewrite (loop_absent _ _ _ _ _ _ Hl Hi). cbv zeta.
      set (d := fresh (dom h)). rewrite insert_middle.
      set (h1 := <[d := ODict []]> h).
      set (h2 := <[l := _]> h1).
      assert (Hd : h !! d = None) by apply fresh_None.
      assert (Hne : d <> l) by (intros ->; congruence).
      assert (Hg2 : grown l h0 h2) by (apply grown_setitem, grown_alloc, Hg).
      assert (H2d : h2 !! d = Some (ODict [])).
      { subst h2 h1. rewrite lookup_insert_ne by done. apply lookup_insert_eq. }
      assert (Hback : forall d', h2 !! d' = None -> h !! d' = None).
      { intros d' Hd'. subst h2 h1.
        destruct (decide (l = d')) as [->|Hl'];
          [by rewrite lookup_insert_eq in Hd' |].
        rewrite lookup_insert_ne in Hd' by done.
        destruct (decide (d = d')) as [->|Hd''];
          [by rewrite lookup_insert_eq in Hd' |].
        by rewrite lookup_insert_ne in Hd'. }
      assert (Hhead : forall h', preserved_except l h2 h' ->
                                 normalised h0 h' VNone (VRef d)).
      { intros h' Hp'. exists d. split; [done |].
        destruct Hg as (_ & Hdom & _). split.
        - apply not_elem_of_dom. apply not_elem_of_dom in Hd. set_solver.
        - by apply Hp'. }
      destruct (IH (prefix ++ [VRef d]) h2 fuel) as (r & h' & Hrun & Hg' & Hp' & Hout);
        [done | apply lookup_insert_eq | done | lia |].
      rewrite length_app, Nat.add_1_r in Hrun.
      exists r, h'. split; [done | split; [done | split]].
      * intros l' o Hne' Hl'. apply Hp'; [done |]. subst h2 h1.
        rewrite lookup_insert_ne by done. rewrite lookup_insert_ne; [done |].
        intros <-. congruence.
      * destruct Hout as [(-> & done & Hl' & Hall & Hnodup & Hfresh)
                         | (i & t & v & done & -> & Hi' & Ht & Hv & Hl' & Hall)].
        -- left. split; [done |]. exists (VRef d :: done).
           split; [by rewrite <- app_assoc in Hl' |].
           split; [constructor; [by apply Hhead | done] |].
           cbn [new_dicts]. split.
           ++ constructor; [| done]. intros Hin.
              eapply Forall_forall in Hfresh; [| exact Hin]. congruence.
           ++ constructor; [done |].
              eapply Forall_impl; [exact Hfresh |]. intros d'. apply Hback.
        -- right. exists (S i), t, v, (VRef d :: done).
           split; [done |]. split; [done |]. split; [done |]. split; [done |].
           split; [by rewrite <- app_assoc in Hl' |].
           cbn [take]. constructor; [by apply Hhead | done].
    + cbn [optional_TyperDict] in Hx.
      destruct (h0 !! t) as [[| | |v]|] eqn:Ht0; try discriminate Hx.
      assert (Htl : t <> l).
      { intros ->. destruct Hg as (_ & _ & [? Hl0] & _). congruence. }
      assert (Ht : h !! t = Some (OTyperDict v)).
      { destruct Hg as (Hp & _). by apply Hp. }
      pose proof (grown_closed _ _ _ _ Hg Hx) as Hc.
      rewrite (loop_present _ _ _ _ _ _ _ _ Hl Hi Ht Hc). cbv zeta.
      rewrite insert_middle.
      set (h2 := <[l := _]> h).
      assert (Hg2 : grown l h0 h2) by (apply grown_setitem, Hg).
      assert (Hback : forall d', h2 !! d' = None -> h !! d' = None).
      { intros d' Hd'. subst h2.
        destruct (decide (l = d')) as [->|Hl'];
          [by rewrite lookup_insert_eq in Hd' |].
        by rewrite lookup_insert_ne in Hd'. }
      rewrite (grown_is_dict _ _ _ _ Hg2 Hx).
      destruct (is_dict h0 v) eqn:Hv.
      * destruct (IH (prefix ++ [v]) h2 fuel) as (r & h' & Hrun & Hg' & Hp' & Hout);
          [done | apply lookup_insert_eq | done | lia |].
        rewrite length_app, Nat.add_1_r in Hrun.
        exists r, h'. split; [done | split; [done | split]].
        -- intros l' o Hne' Hl'. apply Hp'; [done |]. subst h2.
           by rewrite lookup_insert_ne.
        -- destruct Hout as [(-> & done & Hl' & Hall & Hnodup & Hfresh)
                            | (i & t' & v' & done & -> & Hi' & Ht' & Hv' & Hl' & Hall)].
           ++ left. split; [done |]. exists (v :: done).
              split; [by rewrite <- app_assoc in Hl' |].
              split; [constructor; [by cbn [normalised] | done] |].
              assert (Hnew : new_dicts (VRef t :: rest) (v :: done)
                             = new_dicts rest done) by (by destruct v).
              rewrite Hnew. split; [done |].
              eapply Forall_impl; [exact Hfresh |]. intros d'. apply Hback.
           ++ right. exists (S i), t', v', (v :: done).
              split; [done |]. split; [done |]. split; [done |]. split; [done |].
              split; [by rewrite <- app_assoc in Hl' |].
              cbn [take]. constructor; [by cbn [normalised] | done].
      * exists (Raise (must_be_dict v)), h2.
        split; [done | split; [done | split]].
        -- intros l' o Hne' Hl'. subst h2. by rewrite lookup_insert_ne.
        -- right. exists 0%nat, t, v, [].
           split; [done |]. split; [done |]. split; [done |]. split; [done |].
           split; [| constructor].
           subst h2. rewrite lookup_insert_eq. cbn [drop app].
           by rewrite <- app_assoc.
Qed.

Lemma parse_typer_dicts_state l xs h tr :
  h !! l = Some (OList xs) ->
  Forall (fun x => optional_TyperDict h x = true) xs ->
  exists r h',
    parse_typer_dicts (VRef l) {| heap := h; trace := tr |}
    = (r, {| heap := h'; trace := tr |}) /\
    grown l h h' /\
    ((exists ys,
         r = Ok (VRef l) /\
         h' !! l = Some (OList ys) /\
         Forall2 (normalised h h') xs ys /\
         NoDup (new_dicts xs ys) /\
         Forall (fun d => h !! d = None) (new_dicts xs ys)) \/
     (exists i t v done,
         r = Raise (must_be_dict v) /\
         xs !! i = Some (VRef t) /\
         h !! t = Some (OTyperDict v) /\
         is_dict h v = false /\
         h' !! l = Some (OList (done ++ v :: drop (S i) xs)) /\
         Forall2 (normalised h h') (take i xs) done)).
Proof.
  intros Hl Hwf.
  destruct (loop_state l tr h xs [] h (S (length xs)))
    as (r & h' & Hrun & Hg & _ & Hout);
    [by eapply grown_refl | done | done | lia |].
  cbn [length] in Hrun.
  unfold parse_typer_dicts. cbn [heap list_length]. rewrite Hl.
  destruct Hout as [(-> & done & Hl' & Hall & Hnodup & Hfresh)
                   | (i & t & v & done & -> & Hi & Ht & Hv & Hl' & Hall)].
  - rewrite (bind_Ok _ _ _ _ _ Hrun). exists (Ok (VRef l)), h'.
    split; [done | split; [done |]]. left. by exists done.
  - rewrite (bind_Raise _ _ _ _ _ Hrun). exists (Raise (must_be_dict v)), h'.
    split; [done | split; [done |]]. right. by exists i, t, v, done.
Qed.

Lemma new_dicts_elem xs :
  forall ys j d,
    xs !! j = Some VNone -> ys !! j = Some (VRef d) -> d ∈ new_dicts xs ys.
Proof.
  induction xs as [|x xs IH]; intros [|y ys] j d Hx Hy; try done.
  destruct j as [|j]; cbn in Hx, Hy.
  - injection Hx as ->. injection Hy as ->. cbn. by left.
  - assert (Hin : d ∈ new_dicts xs ys) by (by eapply IH).
    destruct x; try done. cbn [new_dicts]. destruct y; try done. by right.
Qed.

Lemma new_dicts_tail x xs y ys :
  NoDup (new_dicts (x :: xs) (y :: ys)) -> NoDup (new_dicts xs ys).
Proof.
  destruct x; try done. cbn [new_dicts]. destruct y; try done.
  by intros [_ H]%NoDup_cons.
Qed.

Lemma new_dicts_distinct xs :
  forall ys i j di dj,
    NoDup (new_dicts xs ys) ->
    (i < j)%nat ->
    xs !! i = Some VNone -> xs !! j = Some VNone ->
    ys !! i = Some (VRef di) -> ys !! j = Some (VRef dj) ->
    di <> dj.
Proof.
  induction xs as [|x xs IH]; intros [|y ys] i j di dj Hnodup Hij Hxi Hxj Hyi Hyj;
    try done.
  destruct j as [|j]; [lia |]. destruct i as [|i]; cbn in Hxi, Hxj, Hyi, Hyj.
  - injection Hxi as ->. injection Hyi as ->. cbn [new_dicts] in Hnodup.
    apply NoDup_cons in Hnodup as [Hnot _]. intros ->. apply Hnot.
    by eapply new_dicts_elem.
  - eapply (IH ys i j); [by eapply new_dicts_tail | lia | done..].
Qed.

(** X17. On failure the caller's list has been rewritten up to the offending
    element: the positions before it hold their normalised dicts, its own
    position holds the unwrapped value that is not a dict, and the
    positions after it hold what they held.  The list keeps its length. *)
Theorem parse_typer_dicts_failure_state l xs h tr e st' :
  h !! l = Some (OList xs) ->
  Forall (fun x => optional_TyperDict h x = true) xs ->
  parse_typer_dicts (VRef l) {| heap := h; trace := tr |} = (Raise e, st') ->
  exists i t v done,
    e = ValueError [Fmt v; Lit " must be passed as a dictionary"] /\
    xs !! i = Some (VRef t) /\
    h !! t = Some (OTyperDict v) /\
    length done = i /\
    Forall2 (resolved h (heap st')) (take i xs) done /\
    heap st' !! l = Some (OList (done ++ v :: drop (S i) xs)).
Proof.
  intros Hl Hwf Hrun.
  destruct (parse_typer_dicts_state l xs h tr Hl Hwf) as (r & h' & Hrun' & Hg & Hout).
  rewrite Hrun in Hrun'. injection Hrun' as <- ->. cbn [heap].
  destruct Hout as [(ys & [=] & _)
                   | (i & t & v & done & [= ->] & Hi & Ht & Hv & Hl' & Hall)].
  exists i, t, v, done. split; [done |]. split; [done |]. split; [done |].
  split.
  - apply Forall2_length in Hall. rewrite length_take in Hall.
    apply lookup_lt_Some in Hi. lia.
  - split; [| done]. eapply Forall2_impl; [exact Hall |]. intros x y.
    by apply normalised_resolved with (l := l).
Qed.

(** X18. Every absent option gets a dict of its own: in the normalised list
    the dicts at two different absent positions are two different objects,
    both new and both empty, so an assignment to one of them (as [geomopt]
    makes to the optimizer options) is not seen through the other. *)
Theorem parse_typer_dicts_separate_defaults l xs h tr v st' :
  h !! l = Some (OList xs) ->
  Forall (fun x => optional_TyperDict h x = true) xs ->
  parse_typer_dicts (VRef l) {| heap := h; trace := tr |} = (Ok v, st') ->
  exists ys,
    heap st' !! l = Some (OList ys) /\
    forall i j, i <> j ->
      xs !! i = Some VNone -> xs !! j = Some VNone ->
      exists di dj,
        ys !! i = Some (VRef di) /\ ys !! j = Some (VRef dj) /\
        di <> dj /\
        h !! di = None /\ h !! dj = None /\
        heap st' !! di = Some (ODict []) /\ heap st' !! dj = Some (ODict []).
Proof.
  intros Hl Hwf Hrun.
  destruct (parse_typer_dicts_state l xs h tr Hl Hwf) as (r & h' & Hrun' & Hg & Hout).
  rewrite Hrun in Hrun'. injection Hrun' as <- ->. cbn [heap].
  destruct Hout as [(ys & _ & Hl' & Hall & Hnodup & Hfresh)
                   | (i & t & v' & done & [=] & _)].
  exists ys. split; [done |]. intros i j Hij Hxi Hxj.
  destruct (Forall2_lookup_l _ _ _ _ _ Hall Hxi) as (yi & Hyi & di & -> & Hdi & Hdi').
  destruct (Forall2_lookup_l _ _ _ _ _ Hall Hxj) as (yj & Hyj & dj & -> & Hdj & Hdj').
  exists di, dj. repeat split; try done.
  destruct (decide (i < j)%nat).
  - by eapply (new_dicts_distinct xs ys i j).
  - intros Heq. symmetry in Heq. revert Heq.
    eapply (new_dicts_distinct xs ys j i); [done | lia | done..].
Qed.

(** * Complete runs, and runs from the option text *)

Lemma acceptable_optional h x :
  acceptable h x = true -> optional_TyperDict h x = true.
Proof.
  destruct x as [| | | | | | | | |t]; try done. cbn [acceptable optional_TyperDict].
  destruct (h !! t) as [[| | |v]|]; try done.
  destruct v as [| | | | | | | | |d]; try done. cbn [is_dict closed].
  destruct (h !! d) as [o|] eqn:Hd; [| done]. intros _.
  apply bool_decide_eq_true. by eexists.
Qed.

Lemma forallb_acceptable_optional h xs :
  forallb (acceptable h) xs = true ->
  Forall (fun x => optional_TyperDict h x = true) xs.
Proof.
  intros Hacc. apply Forall_forall. intros x Hx.
  apply acceptable_optional.
  rewrite forallb_forall in Hacc. apply Hacc. by apply list_elem_of_In.
Qed.

Section CompleteRuns.

Variable SinglePoint_impl : SinglePoint_kwargs -> gmap loc obj -> result session.
Variable run_impl : session -> run_kwargs -> gmap loc obj -> result val.
Variable optimize_impl : optimize_kwargs -> gmap loc obj -> result val.

(** X19. The checks of [geomopt] are the only way it fails by itself.  When
    every dictionary option is absent or wraps a dict, [--traj] is absent
    or a string, [--vectors-only] is not set without [--fully-opt] and the
    optimizer options have no ['trajectory'] key, the run calls
    [SinglePoint]; it ends with the error of that call if it raises, and
    otherwise calls [optimize] and ends as that call ends: it returns when
    [optimize] returns, and raises the error of [optimize] otherwise. *)
Theorem geomopt_valid_run_ends_as_collaborators a h tr r st' :
  forallb (acceptable h) (kwargs_of a) = true ->
  optional_str (traj_file a) = true ->
  (vectors_only a = true -> fully_opt a = true) ->
  reserves_trajectory h a = false ->
  geomopt SinglePoint_impl optimize_impl a {| heap := h; trace := tr |}
  = (r, st') ->
  exists k,
    (trace st' = tr ++ [CallSinglePoint k] /\
     exists e, SinglePoint_impl k (heap st') = Raise e /\ r = Raise e) \/
    (exists ko s hs,
        trace st' = tr ++ [CallSinglePoint k; CallOptimize ko] /\
        h ⊆ hs /\
        SinglePoint_impl k hs = Ok s /\
        r = match optimize_impl ko (heap st') with
            | Ok _ => Ok tt
            | Raise e => Raise e
            end).
Proof.
  intros Hacc Htraj Hflags Hfree Hrun.
  assert (Hwf : well_formed h a).
  { split; [by apply forallb_acceptable_optional | done]. }
  apply geomopt_cases in Hrun; [| done].
  destruct Hrun as [i t v h' Hnot | h' _ Hf Hv | hn r' c' o' w' lw k e Hcall Hsp
                   | hn r' c' o' w' lw k s d kvs Hcall Hsp -> Hd Hdup
                   | hn r' c' o' w' lw k s d kvs h' ko Hcall Hsp Hopt].
  - congruence.
  - specialize (Hflags Hv). congruence.
  - exists k. left. cbn [trace heap]. split; [done |]. by exists e.
  - unfold reserves_trajectory in Hfree.
    rewrite (session_call_opt_mapping _ _ _ _ _ _ _ _ _ _ Hcall Hd) in Hfree.
    congruence.
  - exists k. right. exists ko, s, (session_heap a hn lw). cbn [trace heap].
    split; [done |]. split; [by eapply session_heap_sub | done].
Qed.

Lemma represents_key_is h k e lit :
  represents h e lit ->
  key_is k e = match lit with LStr s => String.eqb s k | _ => false end.
Proof. intros Hrep. by inversion Hrep. Qed.

Lemma represents_entries_contain h k es kvs :
  Forall2 (fun e kv => represents h e.1 kv.1 /\ represents h e.2 kv.2) es kvs ->
  entries_contain k es = literal_has_key k kvs.
Proof.
  induction 1 as [|e kv es kvs [Hk _] _ IH]; [done |].
  unfold entries_contain, literal_has_key in *. cbn [existsb].
  by rewrite (represents_key_is _ _ _ _ Hk), IH.
Qed.

Lemma parse_normalise_dict literal_eval s kvs h tr :
  literal_eval s = Ok (LDict kvs) ->
  exists t d es h1 h2,
    parse_dict_class literal_eval s {| heap := h; trace := tr |}
    = (Ok (VRef t), {| heap := h1; trace := tr |}) /\
    normalise_one (VRef t) {| heap := h1; trace := tr |}
    = (Ok (VRef d), {| heap := h2; trace := tr |}) /\
    h ⊆ h1 /\ h1 ⊆ h2 /\
    h1 !! t = Some (OTyperDict (VRef d)) /\
    h1 !! d = Some (ODict es) /\
    Forall2 (fun e kv => represents h1 e.1 kv.1 /\ represents h1 e.2 kv.2) es kvs.
Proof.
  intros Hlit.
  destruct (parse_dict_class_spec literal_eval s _ h tr Hlit)
    as (t & v & h1 & Hparse & Hsub & Ht & Ht1 & Hrep).
  pose proof (represents_is_dict _ _ _ Hrep) as Hdict.
  pose proof (represents_closed _ _ _ Hrep) as Hclosed.
  apply represents_dict_inv in Hrep as (d & es & -> & Hd & Hes).
  assert (Hopt : optional_TyperDict h1 (VRef t) = true).
  { cbn [optional_TyperDict]. by rewrite Ht1. }
  destruct (normalise_one_spec (VRef t) h1 tr Hopt)
    as [(_ & d' & kvs' & h2 & Hrun & Hsub2 & Hres & _)
       | (t' & v' & h2 & [= <-] & Ht' & Hnot & _)].
  - destruct Hres as (d0 & kvs0 & [= ->] & _ & Ht0 & _).
    assert (d0 = d) as -> by congruence.
    by exists t, d, es, h1, h2.
  - assert (v' = VRef d) as -> by congruence. cbn [is_dict_literal] in Hdict.
    congruence.
Qed.

(** X21. From the text to the mapping: when the text of a dictionary option
    decodes to a dict, normalising the parsed option gives back the very
    dict the parser built (the one the wrapper holds), unchanged, with the
    entries of the literal; neither step calls a collaborator. *)
Theorem parsed_dict_survives_normalising literal_eval s kvs h tr :
  literal_eval s = Ok (LDict kvs) ->
  exists t d st1 st2,
    parse_dict_class literal_eval s {| heap := h; trace := tr |}
    = (Ok (VRef t), st1) /\
    normalise_one (VRef t) st1 = (Ok (VRef d), st2) /\
    heap st1 !! t = Some (OTyperDict (VRef d)) /\
    heap st2 !! d = heap st1 !! d /\
    represents (heap st2) (VRef d) (LDict kvs) /\
    heap st1 ⊆ heap st2 /\
    trace st2 = tr.
Proof.
  intros Hlit.
  destruct (parse_normalise_dict literal_eval s kvs h tr Hlit)
    as (t & d & es & h1 & h2 & Hparse & Hrun & Hsub & Hsub2 & Ht & Hd & Hes).
  exists t, d, {| heap := h1; trace := tr |}, {| heap := h2; trace := tr |}.
  cbn [heap trace]. split; [done |]. split; [done |]. split; [done |].
  split; [by rewrite Hd, (lookup_weaken _ _ _ _ Hd Hsub2) |].
  split; [| done].
  eapply represents_weaken; [| exact Hsub2]. by econstructor.
Qed.

(** X22. The reserved key is read from the text: when the text given for
    [--opt-kwargs] decodes to a dict with the string key ['trajectory'],
    the run of [geomopt] on the parsed option ends in an error for every
    value of the other options, and [optimize] is not called.  The run is
    rejected before any collaborator is called, with no object changed, or
    after the call to [SinglePoint] alone, with the error of that call or
    with the [ValueError] about the duplicated trajectory. *)
Theorem geomopt_rejects_trajectory_in_text literal_eval s kvs a h tr o st1 :
  literal_eval s = Ok (LDict kvs) ->
  literal_has_key "trajectory" kvs = true ->
  parse_dict_class literal_eval s {| heap := h; trace := tr |} = (Ok o, st1) ->
  opt_kwargs a = o ->
  well_formed (heap st1) a ->
  exists e st2,
    geomopt SinglePoint_impl optimize_impl a st1 = (Raise e, st2) /\
    ((trace st2 = tr /\ heap st1 ⊆ heap st2) \/
     (exists k,
         trace st2 = tr ++ [CallSinglePoint k] /\
         (SinglePoint_impl k (heap st2) = Raise e \/
          e = duplicated_trajectory_error))).
Proof.
  intros Hlit Hkey Hparse Ho Hwf.
  destruct (parse_normalise_dict literal_eval s kvs h tr Hlit)
    as (t & d & es & h1 & h2 & Hparse' & _ & _ & _ & Ht & Hd & Hes).
  rewrite Hparse in Hparse'. injection Hparse' as -> ->. cbn [heap] in *.
  assert (Hres : reserves_trajectory h1 a = true).
  { unfold reserves_trajectory, opt_mapping. rewrite Ho, Ht, Hd.
    by rewrite (represents_entries_contain _ _ _ _ Hes). }
  destruct (geomopt _ _ a _) as [r st2] eqn:Hrun.
  apply geomopt_cases in Hrun; [| done].
  destruct Hrun as [i t' v h' | h' | hn r' c' o' w' lw k e Hcall Hsp
                   | hn r' c' o' w' lw k s' d' kvs' Hcall Hsp -> Hd' Hdup
                   | hn r' c' o' w' lw k s' d' kvs' h' ko Hcall Hsp Hopt].
  - eexists _, _. split; [done |]. cbn [heap trace]. by left.
  - eexists _, _. split; [done |]. cbn [heap trace]. by left.
  - eexists _, _. split; [done |]. cbn [heap trace].
    right. exists k. split; [done | by left].
  - eexists _, _. split; [done |]. cbn [heap trace].
    right. exists k. split; [done | by right].
  - exfalso.
    destruct (optimize_call_not_reserved _ _ _ _ _ _ _ _ _ _ _ _ _ _ Hcall Hopt)
      as [Hmap Hfree].
    unfold reserves_trajectory in Hres. rewrite Hmap in Hres. congruence.
Qed.

End CompleteRuns.

(** * Runs with collaborators that may write to the store *)

Lemma dict_contains_not_dict k d h tr :
  (forall kvs, h !! d <> Some (ODict kvs)) ->
  exists e,
    dict_contains k (VRef d) {| heap := h; trace := tr |}
    = (Raise e, {| heap := h; trace := tr |}).
Proof.
  intros Hnot. unfold dict_contains. destruct (h !! d) as [o|] eqn:Hd.
  - rewrite (bind_Ok _ _ _ _ _ (deref_Some _ _ _ _ Hd)).
    destruct o as [xs|xs|kvs|v]; try by eexists.
    by destruct (Hnot kvs).
  - unfold deref, bind, get_heap. cbn. rewrite Hd. by eexists.
Qed.

Lemma acceptable_preserved d h h' x :
  preserved_except d h h' ->
  (exists kvs, h' !! d = Some (ODict kvs)) ->
  (forall v, h !! d <> Some (OTyperDict v)) ->
  acceptable h x = true -> acceptable h' x = true.
Proof.
  intros Hp [kvs' Hd'] Hd Hx. destruct x as [| | | | | | | | |t]; try done.
  cbn [acceptable] in *.
  destruct (h !! t) as [[| | |v]|] eqn:Ht; try discriminate Hx.
  assert (Hne : t <> d) by (intros ->; by eapply Hd).
  rewrite (Hp _ _ Hne Ht).
  destruct v as [| | | | | | | | |r]; try done. cbn [is_dict] in *.
  destruct (decide (r = d)) as [->|Hr]; [by rewrite Hd' |].
  destruct (h !! r) as [o|] eqn:Ho; [| done]. by rewrite (Hp _ _ Hr Ho).
Qed.

Section MutatingRuns.

Variable SinglePoint_impl :
  SinglePoint_kwargs -> gmap loc obj -> result session * gmap loc obj.
Variable run_impl :
  session -> run_kwargs -> gmap loc obj -> result val * gmap loc obj.
Variable optimize_impl :
  optimize_kwargs -> gmap loc obj -> result val * gmap loc obj.

Lemma writing_SinglePoint_eq k h tr r h1 :
  SinglePoint_impl k h = (r, h1) ->
  Mutating.SinglePoint SinglePoint_impl k {| heap := h; trace := tr |}
  = (r, {| heap := h1; trace := tr ++ [CallSinglePoint k] |}).
Proof.
  intros Hk. unfold Mutating.SinglePoint, Mutating.call, bind, emit.
  cbn [heap trace]. by rewrite Hk.
Qed.

Lemma writing_run_eq s k h tr r h1 :
  run_impl s k h = (r, h1) ->
  Mutating.SinglePoint_run run_impl s k {| heap := h; trace := tr |}
  = (r, {| heap := h1; trace := tr ++ [CallRun s k] |}).
Proof.
  intros Hk. unfold Mutating.SinglePoint_run, Mutating.call, bind, emit.
  cbn [heap trace]. by rewrite Hk.
Qed.

Lemma writing_optimize_eq k h tr r h1 :
  optimize_impl k h = (r, h1) ->
  Mutating.optimize optimize_impl k {| heap := h; trace := tr |}
  = (r, {| heap := h1; trace := tr ++ [CallOptimize k] |}).
Proof.
  intros Hk. unfold Mutating.optimize, Mutating.call, bind, emit.
  cbn [heap trace]. by rewrite Hk.
Qed.

Lemma writing_geomopt_sound a h tr r st' :
  well_formed h a ->
  Mutating.geomopt SinglePoint_impl optimize_impl a {| heap := h; trace := tr |}
  = (r, st') ->
  writing_outcome SinglePoint_impl optimize_impl a h tr r st'.
Proof.
  intros [Hwf Htraj]. unfold Mutating.geomopt.
  rewrite (bind_Ok _ _ _ _ _ (new_list_eq _ _ _)).
  set (l := fresh (dom h)).
  destruct (normalise_display (kwargs_of a) h tr l (fresh_None h) Hwf)
    as [[Hacc (hn & ys & Hrun & Hsub & Hl & Hall)]
       | [Hacc (h' & i & t & v & Hrun & Hsub & Hi & Ht & Hv)]]; cycle 1.
  { unfold kwargs_of in Hrun. rewrite (bind_Raise _ _ _ _ _ Hrun).
    intros [= <- <-]. by eapply W_rejected_kwargs. }
  unfold kwargs_of in Hrun. rewrite (bind_Ok _ _ _ _ _ Hrun).
  pose proof Hall as Hall'. unfold kwargs_of in Hall.
  apply Forall2_cons_inv_l in Hall as (r' & ys1 & Hr & Hall & ->).
  apply Forall2_cons_inv_l in Hall as (c' & ys2 & Hc & Hall & ->).
  apply Forall2_cons_inv_l in Hall as (o' & ys3 & Ho & Hall & ->).
  apply Forall2_cons_inv_l in Hall as (w' & ys4 & Hw & Hall & ->).
  apply Forall2_nil_inv_l in Hall as ->.
  unfold unpack4.
  rewrite (bind_Ok _ _ _ _ _ (bind_Ok _ _ _ _ _ (deref_Some _ _ _ _ Hl))).
  cbv beta iota.
  destruct (negb (fully_opt a) && vectors_only a) eqn:Hflags.
  { apply andb_true_iff in Hflags as [Hf Hv]. apply negb_true_iff in Hf.
    intros [= <- <-]. by apply W_rejected_flags. }
  rewrite (bind_Ok _ _ _ _ _ (new_dict_eq _ _ _)).
  set (lw := fresh (dom hn)).
  set (k := {| sp_struct_path := struct_path a |}).
  fold (log_entries (log_file a) "w"). fold (session_heap a hn lw).
  set (hs := session_heap a hn lw).
  assert (Hlw : hn !! lw = None) by apply fresh_None.
  assert (Hcall : session_call a h hn r' c' o' w' lw k) by (by constructor).
  destruct (SinglePoint_impl k hs) as [[s|e] h1] eqn:Hsp.
  2: { rewrite (bind_Raise _ _ _ _ _ (writing_SinglePoint_eq _ _ _ _ _ Hsp)).
       intros [= <- <-]. by eapply W_session_failed. }
  rewrite (bind_Ok _ _ _ _ _ (writing_SinglePoint_eq _ _ _ _ _ Hsp)).
  destruct Ho as (d & kvs0 & -> & Hd & Ho).
  assert (Hlost : (forall kvs, h1 !! d <> Some (ODict kvs)) ->
                  forall (f : bool -> M unit),
                    bind (dict_contains "trajectory" (VRef d)) f
                      {| heap := h1; trace := tr ++ [CallSinglePoint k] |}
                    = (r, st') ->
                    writing_outcome SinglePoint_impl optimize_impl a h tr r st').
  { intros Hnot f.
    destruct (dict_contains_not_dict "trajectory" d h1
                (tr ++ [CallSinglePoint k]) Hnot) as [e He].
    rewrite (bind_Raise _ _ _ _ _ He). intros [= <- <-].
    by eapply W_options_lost. }
  destruct (h1 !! d) as [[xs|xs|kvs|v1]|] eqn:Hd1;
    try (apply Hlost; intros kvs'; congruence).
  clear Hlost.
  rewrite (bind_Ok _ _ _ _ _ (dict_contains_Ok _ _ _ _ _ Hd1)).
  destruct (entries_contain "trajectory" kvs) eqn:Hdup.
  { intros [= <- <-]. by eapply W_rejected_trajectory. }
  rewrite (bind_Ok _ _ _ _ _ (truthy_optional_str _ _ _ Htraj)).
  rewrite (bind_Ok _ _ _ _ _ (dict_setitem_Ok _ _ _ _ _ _ Hd1)).
  rewrite (bind_Ok _ _ _ _ _ (truthy_optional_str _ _ _ Htraj)).
  set (x := if supplied (traj_file a) then traj_file a else VNone).
  set (h1' := <[d := _]> h1).
  assert (H1d : h1' !! d = Some (ODict (entries_set "trajectory" x kvs)))
    by apply lookup_insert_eq.
  assert (Hnew : forall h2 v es,
             h1' ⊆ h2 -> new_dict_at h1' h2 v es -> new_dict_at h1 h2 v es).
  { intros h2 v es _ (l2 & -> & Hl2 & Hl2'). exists l2. split; [done |].
    split; [| done]. subst h1'. destruct (decide (d = l2)) as [->|Hne];
      [by rewrite lookup_insert_eq in Hl2 | by rewrite lookup_insert_ne in Hl2]. }
  destruct (optional_new_dict (supplied (traj_file a))
              [(VStr "filename", traj_file a)] h1' (tr ++ [CallSinglePoint k]))
    as (tk & h2 & Hrun2 & H12 & Htk).
  rewrite (bind_Ok _ _ _ _ _ Hrun2).
  destruct (optional_new_dict (fully_opt a)
              [(VStr "hydrostatic_strain", VBool (vectors_only a))]
              h2 (tr ++ [CallSinglePoint k]))
    as (fk & h3 & Hrun3 & H23 & Hfk).
  rewrite (bind_Ok _ _ _ _ _ Hrun3).
  destruct (new_dict_fresh (if fully_opt a then []
                            else [(VStr "filter_func", VNone)])
              h3 (tr ++ [CallSinglePoint k])) as (lf & Hlf & Hrun4).
  rewrite (bind_Ok _ _ _ _ _ Hrun4).
  set (h4 := <[lf := _]> h3).
  assert (H34 : h3 ⊆ h4) by (by apply insert_subseteq).
  erewrite (bind_Ok (dict_items _)); cycle 1.
  { apply dict_items_Ok. apply lookup_insert_eq. }
  destruct (new_dict_fresh (log_entries (log_file a) "a")
              h4 (tr ++ [CallSinglePoint k])) as (la & Hla & Hrun5).
  unfold log_entries in Hrun5. rewrite (bind_Ok _ _ _ _ _ Hrun5).
  fold (log_entries (log_file a) "a").
  set (h5 := <[la := _]> h4).
  assert (H45 : h4 ⊆ h5) by (by apply insert_subseteq).
  set (ko := {| opt_struct := struct s |}).
  destruct (optimize_impl ko h5) as [ro h6] eqn:Hoptimize.
  pose proof (writing_optimize_eq ko h5 (tr ++ [CallSinglePoint k]) ro h6 Hoptimize)
    as Hcalled.
  rewrite <- app_assoc in Hcalled. cbn [app] in Hcalled.
  intros Hgo.
  assert (Hres : r = match ro with
                     | Ok _ => Ok tt
                     | Raise e => Raise e
                     end
                 /\ st' = {| heap := h6;
                             trace := tr ++ [CallSinglePoint k; CallOptimize ko] |}).
  { destruct ro as [v|e].
    - rewrite (bind_Ok _ _ _ _ _ Hcalled) in Hgo. by inversion Hgo.
    - rewrite (bind_Raise _ _ _ _ _ Hcalled) in Hgo. by inversion Hgo. }
  destruct Hres as [-> ->].
  eapply W_optimized; [exact Hcall | exact Hsp | | exact Hoptimize].
  assert (H15 : h1' ⊆ h5).
  { transitivity h2; [done |]. transitivity h3; [done |]. by transitivity h4. }
  constructor; try done.
  - by eapply lookup_weaken.
  - intros l' o Hne Hl'. eapply lookup_weaken; [| exact H15].
    subst h1'. by rewrite lookup_insert_ne.
  - cbn [opt_filter_kwargs ko]. destruct (fully_opt a); [| done].
    apply Hnew; [done |].
    eapply new_dict_at_weaken; [exact H12 | | exact Hfk].
    by transitivity h4.
  - cbn [opt_traj_kwargs ko]. fold x. destruct (supplied (traj_file a)); [| done].
    apply Hnew; [done |].
    eapply new_dict_at_weaken; [reflexivity | | exact Htk].
    transitivity h3; [done |]. by transitivity h4.
  - cbn [opt_log_kwargs ko]. apply Hnew; [done |].
    eapply new_dict_at_weaken; [| reflexivity | by apply new_dict_at_insert].
    transitivity h2; [done |]. by transitivity h3.
Qed.

(** The optimizer-options dict of a run, whose options were handed over in
    the store [h]: the dict the caller wrapped, or a new one. *)
Lemma session_call_options a h hn r' c' o' w' lw k :
  session_call a h hn r' c' o' w' lw k ->
  exists d kvs,
    o' = VRef d /\
    hn !! d = Some (ODict kvs) /\
    session_heap a hn lw !! d = Some (ODict kvs) /\
    match opt_kwargs a with
    | VRef t => h !! t = Some (OTyperDict (VRef d)) /\ h !! d = Some (ODict kvs)
    | _ => h !! d = None
    end.
Proof.
  intros [_ Hres _ _ Hlw _]. unfold kwargs_of in Hres.
  apply Forall2_cons_inv_l in Hres as (? & ? & _ & Hres & [= <- <-]).
  apply Forall2_cons_inv_l in Hres as (? & ? & _ & Hres & [= <- <-]).
  apply Forall2_cons_inv_l in Hres as (? & ? & Ho & _ & [= <- <-]).
  destruct Ho as (d & kvs & -> & Hd & Ho). exists d, kvs.
  split; [done |]. split; [done |]. split.
  - unfold session_heap. rewrite lookup_insert_ne; [done |].
    intros <-. congruence.
  - destruct (opt_kwargs a) as [| | | | | | | | |t]; try done. by destruct Ho.
Qed.

(** X5. What [geomopt] itself writes, whatever the collaborators do to the
    store.  In a run that returns, [SinglePoint] is called in a store that
    only adds objects to the caller's; between its return and the call to
    [optimize] exactly one object that existed is changed, the
    optimizer-options dict (the caller's own when [--opt-kwargs] was
    given), which gains the entry ['trajectory'] after the entries it had
    when [SinglePoint] returned; and the run ends in the store that
    [optimize] leaves. *)
Theorem geomopt_writes_only_trajectory_entry a h tr st' :
  well_formed h a ->
  Mutating.geomopt SinglePoint_impl optimize_impl a {| heap := h; trace := tr |}
  = (Ok tt, st') ->
  exists k ko s hs h1 h2 d kvs v,
    trace st' = tr ++ [CallSinglePoint k; CallOptimize ko] /\
    h ⊆ hs /\
    SinglePoint_impl k hs = (Ok s, h1) /\
    opt_opt_kwargs ko = VRef d /\
    match opt_kwargs a with
    | VRef t => h !! t = Some (OTyperDict (VRef d))
    | _ => h !! d = None
    end /\
    h1 !! d = Some (ODict kvs) /\
    h2 !! d
    = Some (ODict (kvs ++ [(VStr "trajectory",
                            if supplied (traj_file a) then traj_file a
                            else VNone)])) /\
    (forall l o, l <> d -> h1 !! l = Some o -> h2 !! l = Some o) /\
    optimize_impl ko h2 = (Ok v, heap st').
Proof.
  intros Hwf Hrun. apply writing_geomopt_sound in Hrun; [| done].
  inversion Hrun as [| | | | | hn r' c' o' w' lw k s h1 d kvs h2 ko ro h3
                                Hcall Hsp Hopt Hoptimize Hr Hst].
  destruct ro as [v|e]; [| done].
  destruct (session_call_options _ _ _ _ _ _ _ _ _ Hcall)
    as (d0 & kvs0 & Ho' & _ & _ & Hmine).
  pose proof (session_heap_sub _ _ _ _ _ _ _ _ _ Hcall) as Hsub.
  destruct Hopt as [-> Hbefore Hfree Hafter Hframe _ _ _ _ _ Hoptk _ _ _ _].
  injection Ho' as <-.
  exists k, ko, s, (session_heap a hn lw), h1, h2, d, kvs, v. cbn [trace heap].
  split; [done |]. split; [done |]. split; [done |]. split; [done |].
  split.
  { destruct (opt_kwargs a); try done. by destruct Hmine. }
  split; [done |].
  split; [by rewrite entries_set_absent in Hafter |]. by split.
Qed.

(** X6. The commands are not repeatable on the same [--opt-kwargs] object,
    for collaborators that change no object that exists when they are
    called: a run that returned has left the key ['trajectory'] in the
    caller's mapping, so a second run with the same arguments passes the
    normaliser and the flag check, calls [SinglePoint] and then ends in an
    error, the one of [SinglePoint] or the [ValueError] about the
    duplicated trajectory; [optimize] is not called again. *)
Theorem geomopt_not_repeatable a h tr st' t :
  keeps_objects SinglePoint_impl ->
  keeps_objects optimize_impl ->
  well_formed h a ->
  opt_kwargs a = VRef t ->
  Mutating.geomopt SinglePoint_impl optimize_impl a {| heap := h; trace := tr |}
  = (Ok tt, st') ->
  exists e st'' k hs,
    Mutating.geomopt SinglePoint_impl optimize_impl a st' = (Raise e, st'') /\
    trace st'' = trace st' ++ [CallSinglePoint k] /\
    heap st' ⊆ hs /\
    (SinglePoint_impl k hs = (Raise e, heap st'') \/
     ((exists s, SinglePoint_impl k hs = (Ok s, heap st'')) /\
      e = duplicated_trajectory_error)).
Proof.
  intros Hkeep_sp Hkeep_opt Hwf Hsupplied Hrun.
  apply writing_geomopt_sound in Hrun; [| done].
  inversion Hrun as [| | | | | hn r' c' o' w' lw k s h1 d kvs h2 ko ro h3
                                Hcall Hsp Hopt Hoptimize Hr Hst].
  destruct ro as [v|e]; [| done]. clear Hr. subst st'. cbn [heap trace].
  destruct (session_call_options _ _ _ _ _ _ _ _ _ Hcall)
    as (d0 & kvs0 & Ho' & _ & Hsd & Hmine).
  rewrite Hsupplied in Hmine. destruct Hmine as [Ht Hd].
  pose proof (session_heap_sub _ _ _ _ _ _ _ _ _ Hcall) as Hsub.
  pose proof Hcall as [Hacc _ _ Hflags _ _].
  pose proof (Hkeep_sp k (session_heap a hn lw)) as Hs1. rewrite Hsp in Hs1.
  pose proof (Hkeep_opt ko h2) as H23. rewrite Hoptimize in H23.
  cbn [snd] in Hs1, H23.
  destruct Hopt as [-> Hbefore Hfree Hafter Hframe _ _ _ _ _ _ _ _ _ _].
  injection Ho' as <-.
  assert (kvs0 = kvs) as ->.
  { pose proof (lookup_weaken _ _ _ _ Hsd Hs1). congruence. }
  rewrite entries_set_absent in Hafter by done.
  set (x := if supplied (traj_file a) then traj_file a else VNone) in *.
  assert (Hd3 : h3 !! d = Some (ODict (kvs ++ [(VStr "trajectory", x)])))
    by (by eapply lookup_weaken).
  assert (Hne : t <> d) by (intros ->; congruence).
  assert (Hp : preserved_except d h h3).
  { intros l o Hl Ho. eapply lookup_weaken; [| exact H23].
    apply Hframe; [done |]. eapply lookup_weaken; [| exact Hs1].
    by eapply lookup_weaken. }
  assert (Hnot : forall v0, h !! d <> Some (OTyperDict v0)) by (intros v0; congruence).
  assert (Hwf3 : well_formed h3 a).
  { destruct Hwf as [Hk Htraj]. split; [| done].
    eapply Forall_impl; [exact Hk |]. intros y Hy.
    eapply optional_TyperDict_preserved; [exact Hp | by eexists | done | done]. }
  assert (Hacc3 : forallb (acceptable h3) (kwargs_of a) = true).
  { apply acceptable_take_all. apply acceptable_take_all in Hacc.
    eapply Forall_impl; [exact Hacc |]. intros y Hy.
    eapply acceptable_preserved; [exact Hp | by eexists | done | done]. }
  assert (Ht3 : h3 !! t = Some (OTyperDict (VRef d))) by (by apply Hp).
  destruct (Mutating.geomopt _ _ a _) as [r2 st''] eqn:Hrun2.
  apply writing_geomopt_sound in Hrun2; [| done].
  destruct Hrun2 as [i t0 v0 h' Hbad | h' _ Hf Hv
                    | hn2 r2' c2' o2' w2' lw2 k2 e h1' Hcall2 Hsp2
                    | hn2 r2' c2' d2 w2' lw2 k2 s2 h1' e Hcall2 Hsp2 Hlost
                    | hn2 r2' c2' d2 w2' lw2 k2 s2 h1' kvs2 Hcall2 Hsp2 Hd2 Hdup
                    | hn2 r2' c2' o2' w2' lw2 k2 s2 h1' d2 kvs2 h2' ko2 ro2 h3'
                        Hcall2 Hsp2 Hopt2 Hoptimize2].
  - congruence.
  - by rewrite Hf, Hv in Hflags.
  - exists e, {| heap := h1'; trace := (tr ++ [CallSinglePoint k; CallOptimize ko])
                                         ++ [CallSinglePoint k2] |},
      k2, (session_heap a hn2 lw2).
    split; [done |]. split; [done |].
    split; [by eapply session_heap_sub | by left].
  - exfalso.
    destruct (session_call_options _ _ _ _ _ _ _ _ _ Hcall2)
      as (d' & kvs' & [= <-] & _ & Hsd2 & _).
    pose proof (Hkeep_sp k2 (session_heap a hn2 lw2)) as Hs2.
    rewrite Hsp2 in Hs2. cbn [snd] in Hs2.
    eapply Hlost. by eapply lookup_weaken.
  - exists duplicated_trajectory_error,
      {| heap := h1'; trace := (tr ++ [CallSinglePoint k; CallOptimize ko])
                                 ++ [CallSinglePoint k2] |},
      k2, (session_heap a hn2 lw2).
    split; [done |]. split; [done |].
    split; [by eapply session_heap_sub |]. right. split; [by eexists | done].
  - exfalso.
    destruct (session_call_options _ _ _ _ _ _ _ _ _ Hcall2)
      as (d' & kvs' & Ho2 & _ & Hsd2 & Hmine2).
    rewrite Hsupplied in Hmine2. destruct Hmine2 as [Ht2 Hd2].
    assert (d' = d) as -> by congruence.
    pose proof (Hkeep_sp k2 (session_heap a hn2 lw2)) as Hs2.
    rewrite Hsp2 in Hs2. cbn [snd] in Hs2.
    destruct Hopt2 as [-> Hbefore2 Hfree2 _ _ _ _ _ _ _ _ _ _ _ _].
    injection Ho2 as <-.
    pose proof (lookup_weaken _ _ _ _ Hsd2 Hs2) as Hd1'.
    assert (kvs2 = kvs ++ [(VStr "trajectory", x)]) as -> by congruence.
    unfold entries_contain in Hfree2. rewrite existsb_app in Hfree2.
    cbn in Hfree2. by rewrite orb_true_r in Hfree2.
Qed.

(** X7. What [singlepoint] itself writes, whatever the collaborators do to
    the store: nothing that existed.  A run rejected by the normaliser has
    only added objects; otherwise [SinglePoint] is called in a store that
    only adds objects to the caller's, [run] is called in exactly the store
    [SinglePoint] leaves, and the command ends in exactly the store the
    last collaborator leaves.  Every change to an object of the caller is
    made by a collaborator. *)
Theorem singlepoint_writes_nothing a h tr r st' :
  Forall (fun x => optional_TyperDict h x = true) (s_kwargs_of a) ->
  Mutating.singlepoint SinglePoint_impl run_impl a {| heap := h; trace := tr |}
  = (r, st') ->
  (trace st' = tr /\ h ⊆ heap st') \/
  (exists k hs e,
      h ⊆ hs /\
      SinglePoint_impl k hs = (Raise e, heap st') /\
      trace st' = tr ++ [CallSinglePoint k] /\
      r = Raise e) \/
  (exists k hs s h1 kr rr,
      h ⊆ hs /\
      SinglePoint_impl k hs = (Ok s, h1) /\
      run_impl s kr h1 = (rr, heap st') /\
      trace st' = tr ++ [CallSinglePoint k; CallRun s kr] /\
      r = match rr with
          | Ok _ => Ok tt
          | Raise e => Raise e
          end).
Proof.
  intros Hwf. unfold Mutating.singlepoint.
  rewrite (bind_Ok _ _ _ _ _ (new_list_eq _ _ _)).
  set (l := fresh (dom h)).
  destruct (normalise_display (s_kwargs_of a) h tr l (fresh_None h) Hwf)
    as [[Hacc (hn & ys & Hrun & Hsub & Hl & Hall)]
       | [Hacc (h' & i & t & v & Hrun & Hsub & Hi & Ht & Hv)]]; cycle 1.
  { unfold s_kwargs_of in Hrun. rewrite (bind_Raise _ _ _ _ _ Hrun).
    intros [= <- <-]. by left. }
  unfold s_kwargs_of in Hrun. rewrite (bind_Ok _ _ _ _ _ Hrun).
  unfold s_kwargs_of in Hall.
  apply Forall2_cons_inv_l in Hall as (r' & ys1 & Hr & Hall & ->).
  apply Forall2_cons_inv_l in Hall as (c' & ys2 & Hc & Hall & ->).
  apply Forall2_cons_inv_l in Hall as (w' & ys3 & Hw & Hall & ->).
  apply Forall2_nil_inv_l in Hall as ->.
  unfold unpack3.
  rewrite (bind_Ok _ _ _ _ _ (bind_Ok _ _ _ _ _ (deref_Some _ _ _ _ Hl))).
  cbv beta iota.
  rewrite (bind_Ok _ _ _ _ _ (new_dict_eq _ _ _)).
  set (lw := fresh (dom hn)).
  set (k := {| sp_struct_path := s_struct_path a |}).
  set (hs := <[lw := _]> hn).
  assert (Hlw : hn !! lw = None) by apply fresh_None.
  assert (Hhs : h ⊆ hs).
  { transitivity hn; [done |]. by apply insert_subseteq. }
  destruct (SinglePoint_impl k hs) as [[s|e] h1] eqn:Hsp.
  2: { rewrite (bind_Raise _ _ _ _ _ (writing_SinglePoint_eq _ _ _ _ _ Hsp)).
       intros [= <- <-]. right. left. by exists k, hs, e. }
  rewrite (bind_Ok _ _ _ _ _ (writing_SinglePoint_eq _ _ _ _ _ Hsp)).
  set (kr := {| run_properties := s_properties a |}).
  destruct (run_impl s kr h1) as [rr h2] eqn:Hran.
  pose proof (writing_run_eq s kr h1 (tr ++ [CallSinglePoint k]) rr h2 Hran)
    as Hcalled.
  rewrite <- app_assoc in Hcalled. cbn [app] in Hcalled.
  intros Hgo. right. right. exists k, hs, s, h1, kr, rr.
  destruct rr as [v|e].
  - rewrite (bind_Ok _ _ _ _ _ Hcalled) in Hgo. by inversion Hgo.
  - rewrite (bind_Raise _ _ _ _ _ Hcalled) in Hgo. by inversion Hgo.
Qed.

(** The commands with collaborators that do not write are the commands of
    the first part. *)
Lemma reading_geomopt sp opt a st :
  Mutating.geomopt (Mutating.reading sp) (Mutating.reading opt) a st
  = geomopt sp opt a st.
Proof. reflexivity. Qed.

Lemma reading_singlepoint sp (run : session -> run_kwargs -> gmap loc obj -> result val)
    a st :
  Mutating.singlepoint (Mutating.reading sp) (fun s => Mutating.reading (run s)) a st
  = singlepoint sp run a st.
Proof. reflexivity. Qed.

End MutatingRuns.

(** * The further properties at concrete command lines *)

Lemma geomopt_checks_mappings_first_witness :
  let a := Examples.bad_geomopt in
  let h := heap Examples.number_state in
  exists i t v h',
    geomopt Scenario.session_ok Scenario.optimize_ok a {| heap := h; trace := [] |}
    = (Raise (ValueError [Fmt v; Lit " must be passed as a dictionary"]),
       {| heap := h'; trace := [] |}) /\
    kwargs_of a !! i = Some (VRef t) /\
    h !! t = Some (OTyperDict v) /\
    is_dict h v = false /\
    h ⊆ h'.
Proof.
  cbv zeta.
  apply (geomopt_checks_mappings_first Scenario.session_ok Scenario.optimize_ok
           Examples.bad_geomopt (heap Examples.number_state) []).
  - repeat constructor.
  - vm_compute. reflexivity.
Defined.

Lemma geomopt_success_validated_witness :
  let a := Scenario.plain true true (VStr "t.xyz") in
  let h := heap Scenario.plain_state in
  let st' := (geomopt Scenario.session_ok Scenario.optimize_ok a
                {| heap := h; trace := [] |}).2 in
  forallb (acceptable h) (kwargs_of a) = true /\
  (vectors_only a = true -> fully_opt a = true) /\
  reserves_trajectory h a = false /\
  exists k s ko v hs,
    trace st' = [] ++ [CallSinglePoint k; CallOptimize ko] /\
    h ⊆ hs /\
    Scenario.session_ok k hs = Ok s /\
    Scenario.optimize_ok ko (heap st') = Ok v.
Proof.
  cbv zeta.
  apply (geomopt_success_validated Scenario.session_ok Scenario.optimize_ok
           (Scenario.plain true true (VStr "t.xyz"))
           (heap Scenario.plain_state) []).
  - split; [repeat constructor | reflexivity].
  - vm_compute. reflexivity.
Defined.


Lemma geomopt_errors_classified_witness :
  let a := Scenario.reserved false false VNone in
  let h := heap Scenario.reserved_state in
  let e := duplicated_trajectory_error in
  let st' := (geomopt Scenario.session_ok Scenario.optimize_ok a
                {| heap := h; trace := [] |}).2 in
  (trace st' = [] /\
   (e = vectors_only_error \/
    exists v, e = ValueError [Fmt v; Lit " must be passed as a dictionary"])) \/
  (exists k,
      trace st' = [] ++ [CallSinglePoint k] /\
      (Scenario.session_ok k (heap st') = Raise e \/
       ((exists s, Scenario.session_ok k (heap st') = Ok s) /\
        e = duplicated_trajectory_error))) \/
  (exists k ko,
      trace st' = [] ++ [CallSinglePoint k; CallOptimize ko] /\
      Scenario.optimize_ok ko (heap st') = Raise e).
Proof.
  cbv zeta.
  apply (geomopt_errors_classified Scenario.session_ok Scenario.optimize_ok
           (Scenario.reserved false false VNone)
           (heap Scenario.reserved_state) []).
  - split; [repeat constructor | reflexivity].
  - vm_compute. reflexivity.
Defined.


Lemma singlepoint_errors_classified_witness :
  let a := Examples.bad_single in
  let h := heap Examples.number_state in
  let e := ValueError [Fmt (VInt 3); Lit " must be passed as a dictionary"] in
  let st' := (singlepoint Scenario.session_ok Scenario.run_ok a
                {| heap := h; trace := [] |}).2 in
  (trace st' = [] /\
   forallb (acceptable h) (s_kwargs_of a) = false /\
   exists v, e = ValueError [Fmt v; Lit " must be passed as a dictionary"]) \/
  (exists k,
      trace st' = [] ++ [CallSinglePoint k] /\
      Scenario.session_ok k (heap st') = Raise e) \/
  (exists k s kr,
      trace st' = [] ++ [CallSinglePoint k; CallRun s kr] /\
      Scenario.session_ok k (heap st') = Ok s /\
      Scenario.run_ok s kr (heap st') = Raise e).
Proof.
  cbv zeta.
  apply (singlepoint_errors_classified Scenario.session_ok Scenario.run_ok
           Examples.bad_single (heap Examples.number_state) []).
  - repeat constructor.
  - vm_compute. reflexivity.
Defined.

Lemma parse_dict_class_creates_new_objects_witness :
  let h := heap Scenario.plain_state in
  exists t d es h',
    parse_dict_class MiniLiteral.literal_eval "{'alpha': 70}"
      {| heap := h; trace := [] |}
    = (Ok (VRef t), {| heap := h'; trace := [] |}) /\
    h !! t = None /\ h !! d = None /\ t <> d /\
    h' !! t = Some (OTyperDict (VRef d)) /\
    h' !! d = Some (ODict es) /\
    represents h' (VRef d) (LDict [(LStr "alpha", LInt 70)]) /\
    h ⊆ h'.
Proof.
  cbv zeta.
  apply (parse_dict_class_creates_new_objects MiniLiteral.literal_eval
           "{'alpha': 70}" [(LStr "alpha", LInt 70)]
           (heap Scenario.plain_state) []).
  vm_compute. reflexivity.
Defined.

Lemma parse_typer_dicts_reports_first_offender_witness :
  let h := heap Examples.mixed.2 in
  let xs := Examples.mixed_items in
  exists i t v,
    ValueError [Fmt (VInt 3); Lit " must be passed as a dictionary"]
    = ValueError [Fmt v; Lit " must be passed as a dictionary"] /\
    xs !! i = Some (VRef t) /\
    h !! t = Some (OTyperDict v) /\
    is_dict h v = false /\
    forall j x, (j < i)%nat -> xs !! j = Some x -> acceptable h x = true.
Proof.
  cbv zeta.
  apply (parse_typer_dicts_reports_first_offender
           (Examples.list_loc Examples.mixed) Examples.mixed_items
           (heap Examples.mixed.2) [] _
           (parse_typer_dicts (VRef (Examples.list_loc Examples.mixed))
              {| heap := heap Examples.mixed.2; trace := [] |}).2).
  - vm_compute. reflexivity.
  - repeat constructor.
  - vm_compute. reflexivity.
Defined.

Lemma normalise_falsy_as_absent_witness :
  let h := heap Examples.empty_dict_run.2 in
  exists d h',
    normalise_one Examples.empty_dict {| heap := h; trace := [] |}
    = (Ok (VRef d), {| heap := h'; trace := [] |}) /\
    h !! d = None /\
    h' !! d = Some (ODict []) /\
    h ⊆ h'.
Proof.
  cbv zeta.
  apply (normalise_falsy_as_absent Examples.empty_dict
           (heap Examples.empty_dict_run.2) []).
  vm_compute. reflexivity.
Defined.

Lemma normalise_truthy_needs_value_witness :
  let h := heap Scenario.plain_state in
  exists h',
    normalise_one Examples.plain_dict {| heap := h; trace := [] |}
    = (Raise (AttributeError [Lit "object has no attribute 'value'"]),
       {| heap := h'; trace := [] |}) /\
    h ⊆ h'.
Proof.
  cbv zeta.
  apply (normalise_truthy_needs_value Examples.plain_dict
           (heap Scenario.plain_state) []).
  - vm_compute. reflexivity.
  - intros t v Hx Ht. vm_compute in Hx. injection Hx as <-.
    vm_compute in Ht. discriminate Ht.
Defined.

Lemma parse_typer_dicts_keeps_frame_witness :
  let l := Examples.list_loc Examples.mixed in
  let h := heap Examples.mixed.2 in
  exists r h' items',
    parse_typer_dicts (VRef l) {| heap := h; trace := [] |}
    = (r, {| heap := h'; trace := [] |}) /\
    r <> Raise (SystemError [Lit "out of fuel"]) /\
    (forall v, r = Ok v -> v = VRef l) /\
    h' !! l = Some (OList items') /\
    length items' = length Examples.mixed_items /\
    (forall l' o, l' <> l -> h !! l' = Some o -> h' !! l' = Some o) /\
    (forall l' o, h !! l' = None -> h' !! l' = Some o -> o = ODict []).
Proof.
  cbv zeta.
  apply (parse_typer_dicts_keeps_frame (Examples.list_loc Examples.mixed)
           Examples.mixed_items (heap Examples.mixed.2) []).
  vm_compute. reflexivity.
Defined.

Lemma parse_typer_dicts_failure_state_witness :
  let l := Examples.list_loc Examples.mixed in
  let h := heap Examples.mixed.2 in
  let xs := Examples.mixed_items in
  let st' := (parse_typer_dicts (VRef l) {| heap := h; trace := [] |}).2 in
  exists i t v done,
    ValueError [Fmt (VInt 3); Lit " must be passed as a dictionary"]
    = ValueError [Fmt v; Lit " must be passed as a dictionary"] /\
    xs !! i = Some (VRef t) /\
    h !! t = Some (OTyperDict v) /\
    length done = i /\
    Forall2 (resolved h (heap st')) (take i xs) done /\
    heap st' !! l = Some (OList (done ++ v :: drop (S i) xs)).
Proof.
  cbv zeta.
  apply (parse_typer_dicts_failure_state
           (Examples.list_loc Examples.mixed) Examples.mixed_items
           (heap Examples.mixed.2) []).
  - vm_compute. reflexivity.
  - repeat constructor.
  - vm_compute. reflexivity.
Defined.

Lemma parse_typer_dicts_separate_defaults_witness :
  let l := Examples.list_loc Examples.absent in
  let h := heap Examples.absent.2 in
  let xs := Examples.absent_items in
  let st' := (parse_typer_dicts (VRef l) {| heap := h; trace := [] |}).2 in
  exists ys,
    heap st' !! l = Some (OList ys) /\
    forall i j, i <> j ->
      xs !! i = Some VNone -> xs !! j = Some VNone ->
      exists di dj,
        ys !! i = Some (VRef di) /\ ys !! j = Some (VRef dj) /\
        di <> dj /\
        h !! di = None /\ h !! dj = None /\
        heap st' !! di = Some (ODict []) /\ heap st' !! dj = Some (ODict []).
Proof.
  cbv zeta.
  apply (parse_typer_dicts_separate_defaults
           (Examples.list_loc Examples.absent) Examples.absent_items
           (heap Examples.absent.2) [] (VRef (Examples.list_loc Examples.absent))).
  - vm_compute. reflexivity.
  - repeat constructor.
  - vm_compute. reflexivity.
Defined.

Lemma parsed_dict_survives_normalising_witness :
  exists t d st1 st2,
    parse_dict_class MiniLiteral.literal_eval "{'alpha': 70}"
      {| heap := ∅; trace := [] |}
    = (Ok (VRef t), st1) /\
    normalise_one (VRef t) st1 = (Ok (VRef d), st2) /\
    heap st1 !! t = Some (OTyperDict (VRef d)) /\
    heap st2 !! d = heap st1 !! d /\
    represents (heap st2) (VRef d) (LDict [(LStr "alpha", LInt 70)]) /\
    heap st1 ⊆ heap st2 /\
    trace st2 = [].
Proof.
  apply (parsed_dict_survives_normalising MiniLiteral.literal_eval
           "{'alpha': 70}" [(LStr "alpha", LInt 70)] ∅ []).
  vm_compute. reflexivity.
Defined.


Lemma geomopt_valid_run_ends_as_collaborators_witness :
  let a := Scenario.plain true true (VStr "t.xyz") in
  let h := heap Scenario.plain_state in
  let st' := (geomopt Scenario.session_ok Scenario.optimize_ok a
                {| heap := h; trace := [] |}).2 in
  exists k,
    (trace st' = [] ++ [CallSinglePoint k] /\
     exists e, Scenario.session_ok k (heap st') = Raise e /\ Ok tt = Raise e) \/
    (exists ko s hs,
        trace st' = [] ++ [CallSinglePoint k; CallOptimize ko] /\
        h ⊆ hs /\
        Scenario.session_ok k hs = Ok s /\
        Ok tt = match Scenario.optimize_ok ko (heap st') with
                | Ok _ => Ok tt
                | Raise e => Raise e
                end).
Proof.
  cbv zeta.
  apply (geomopt_valid_run_ends_as_collaborators
           Scenario.session_ok Scenario.optimize_ok
           (Scenario.plain true true (VStr "t.xyz"))
           (heap Scenario.plain_state) []).
  - vm_compute. reflexivity.
  - reflexivity.
  - intros _. reflexivity.
  - vm_compute. reflexivity.
  - vm_compute. reflexivity.
Defined.

Lemma geomopt_rejects_trajectory_in_text_witness :
  let a := Scenario.reserved true false (VStr "t.xyz") in
  let st1 := Scenario.reserved_state in
  exists e st2,
    geomopt Scenario.session_ok Scenario.optimize_ok a st1 = (Raise e, st2) /\
    ((trace st2 = [] /\ heap st1 ⊆ heap st2) \/
     (exists k,
         trace st2 = [] ++ [CallSinglePoint k] /\
         (Scenario.session_ok k (heap st2) = Raise e \/
          e = duplicated_trajectory_error))).
Proof.
  cbv zeta.
  apply (geomopt_rejects_trajectory_in_text
           Scenario.session_ok Scenario.optimize_ok MiniLiteral.literal_eval
           "{'trajectory': 'x'}" [(LStr "trajectory", LStr "x")]
           (Scenario.reserved true false (VStr "t.xyz")) ∅ []
           (Scenario.parsed Scenario.reserved_option) Scenario.reserved_state).
  - vm_compute. reflexivity.
  - reflexivity.
  - vm_compute. reflexivity.
  - reflexivity.
  - split; [repeat constructor | reflexivity].
Defined.

Lemma geomopt_writes_only_trajectory_entry_witness :
  let a := Examples.written_geomopt in
  let h := heap Examples.calc_state in
  let st' := (Mutating.geomopt Examples.session_defaults Examples.optimize_defaults
                a {| heap := h; trace := [] |}).2 in
  exists k ko s hs h1 h2 d kvs v,
    trace st' = [] ++ [CallSinglePoint k; CallOptimize ko] /\
    h ⊆ hs /\
    Examples.session_defaults k hs = (Ok s, h1) /\
    opt_opt_kwargs ko = VRef d /\
    match opt_kwargs a with
    | VRef t => h !! t = Some (OTyperDict (VRef d))
    | _ => h !! d = None
    end /\
    h1 !! d = Some (ODict kvs) /\
    h2 !! d
    = Some (ODict (kvs ++ [(VStr "trajectory",
                            if supplied (traj_file a) then traj_file a
                            else VNone)])) /\
    (forall l o, l <> d -> h1 !! l = Some o -> h2 !! l = Some o) /\
    Examples.optimize_defaults ko h2 = (Ok v, heap st').
Proof.
  cbv zeta.
  apply (geomopt_writes_only_trajectory_entry
           Examples.session_defaults Examples.optimize_defaults
           Examples.written_geomopt (heap Examples.calc_state) []).
  - split; [repeat constructor | reflexivity].
  - vm_compute. reflexivity.
Defined.

Lemma geomopt_not_repeatable_witness :
  let a := Scenario.plain false false (VStr "t.xyz") in
  let h := heap Scenario.plain_state in
  let st' := (Mutating.geomopt Examples.session_new Examples.optimize_new a
                {| heap := h; trace := [] |}).2 in
  exists e st'' k hs,
    Mutating.geomopt Examples.session_new Examples.optimize_new a st'
    = (Raise e, st'') /\
    trace st'' = trace st' ++ [CallSinglePoint k] /\
    heap st' ⊆ hs /\
    (Examples.session_new k hs = (Raise e, heap st'') \/
     ((exists s, Examples.session_new k hs = (Ok s, heap st'')) /\
      e = duplicated_trajectory_error)).
Proof.
  cbv zeta.
  apply (geomopt_not_repeatable Examples.session_new Examples.optimize_new
           (Scenario.plain false false (VStr "t.xyz"))
           (heap Scenario.plain_state) [] _ 2%positive).
  - intros k h. apply insert_subseteq. apply fresh_None.
  - intros k h. apply insert_subseteq. apply fresh_None.
  - split; [repeat constructor | reflexivity].
  - vm_compute. reflexivity.
  - vm_compute. reflexivity.
Defined.

Lemma singlepoint_writes_nothing_witness :
  let a := Examples.written_single in
  let h := heap Examples.calc_state in
  let st' := (Mutating.singlepoint Examples.session_defaults Examples.run_defaults
                a {| heap := h; trace := [] |}).2 in
  (trace st' = [] /\ h ⊆ heap st') \/
  (exists k hs e,
      h ⊆ hs /\
      Examples.session_defaults k hs = (Raise e, heap st') /\
      trace st' = [] ++ [CallSinglePoint k] /\
      Ok tt = Raise e) \/
  (exists k hs s h1 kr rr,
      h ⊆ hs /\
      Examples.session_defaults k hs = (Ok s, h1) /\
      Examples.run_defaults s kr h1 = (rr, heap st') /\
      trace st' = [] ++ [CallSinglePoint k; CallRun s kr] /\
      Ok tt = match rr with
              | Ok _ => Ok tt
              | Raise e => Raise e
              end).
Proof.
  cbv zeta.
  apply (singlepoint_writes_nothing
           Examples.session_defaults Examples.run_defaults
           Examples.written_single (heap Examples.calc_state) []).
  - repeat constructor.
  - vm_compute. reflexivity.
Defined.

(** A collaborator's writes reach the caller: on [singlepoint --struct
    water.xyz --calc-kwargs "{'dispersion': True}" --write-kwargs
    "{'alpha': 70}"] with a [run] that puts a default file name into the
    write options, the caller's own dict has gained the entry when the
    command returns. *)
Example collaborator_changes_caller_dict :
  let h := heap Examples.calc_state in
  let st' := (Mutating.singlepoint Examples.session_defaults Examples.run_defaults
                Examples.written_single {| heap := h; trace := [] |}).2 in
  h !! 1%positive = Some (ODict [(VStr "alpha", VInt 70)]) /\
  heap st' !! 1%positive
  = Some (ODict [(VStr "alpha", VInt 70); (VStr "filename", VStr "out.xyz")]).
Proof. cbv zeta. split; vm_compute; reflexivity. Qed.
